(** * A shallow embedding of the dingocoin-nodes-map crawler

    Source: [apps/crawler/src/crawler.py] and [apps/crawler/src/rpc.py].

    Conventions of the embedding.
    - Python [str] is [string]; the characters modelled are the ASCII ones.
    - Python [int] is [Z]; [Optional[T]] is [option T], [None] being Python's
      [None].
    - Python [set] is [gset], [dict] used as a map is [gmap].
    - Wall-clock readings ([time.time()]) and float configuration values are
      exact rationals ([Q]); rounding of floats is not modelled.
    - A Python exception is a value of [exn]; code that may raise returns a
      [result]. *)

From Stdlib Require Import ZArith QArith Ascii String List Bool Lia.
From Stdlib Require Import DecimalString DecimalPos DecimalN DecimalZ DecimalFacts.
From stdpp Require Import base option list gmap strings sets fin_maps.

Close Scope Q_scope.
Open Scope Z_scope.
Open Scope string_scope.

(** ** Python built-ins used by the crawler *)

Module Py.

(** [str.isspace] on ASCII: TAB..CR, FS..US and the space. *)
Definition isspace (c : ascii) : bool :=
  let n := nat_of_ascii c in
  ((9 <=? n)%nat && (n <=? 13)%nat) || ((28 <=? n)%nat && (n <=? 32)%nat).

(** [str.isdigit] on ASCII. *)
Definition isdigit (c : ascii) : bool :=
  let n := nat_of_ascii c in (48 <=? n)%nat && (n <=? 57)%nat.

Definition digit_val (c : ascii) : Z := Z.of_nat (nat_of_ascii c) - 48.

Fixpoint lstrip_by (p : ascii -> bool) (s : string) : string :=
  match s with
  | EmptyString => EmptyString
  | String c s' => if p c then lstrip_by p s' else s
  end.

Fixpoint rev_onto (s acc : string) : string :=
  match s with
  | EmptyString => acc
  | String c s' => rev_onto s' (String c acc)
  end.

Definition srev (s : string) : string := rev_onto s EmptyString.

Definition rstrip_by (p : ascii -> bool) (s : string) : string :=
  srev (lstrip_by p (srev s)).

(** [s.strip()] *)
Definition strip (s : string) : string :=
  rstrip_by isspace (lstrip_by isspace s).

Fixpoint mem_char (c : ascii) (s : string) : bool :=
  match s with
  | EmptyString => false
  | String d s' => Ascii.eqb c d || mem_char c s'
  end.

(** [s.lstrip(chars)] *)
Definition lstrip (chars s : string) : string :=
  lstrip_by (fun c => mem_char c chars) s.

(** [c in s] for a one-character [c]. *)
Definition contains (c : ascii) (s : string) : bool := mem_char c s.

(** [s.startswith(p)] *)
Fixpoint startswith (p s : string) : bool :=
  match p, s with
  | EmptyString, _ => true
  | String a p', String b s' => Ascii.eqb a b && startswith p' s'
  | String _ _, EmptyString => false
  end.

(** [s.split(sep)] for a one-character separator: never the empty list. *)
Fixpoint split (sep : ascii) (s : string) : list string :=
  match s with
  | EmptyString => [EmptyString]
  | String c s' =>
      if Ascii.eqb c sep then EmptyString :: split sep s'
      else match split sep s' with
           | [] => [String c EmptyString]
           | p :: ps => String c p :: ps
           end
  end.

(** [''.join(c for c in s if p(c))] *)
Fixpoint filter_chars (p : ascii -> bool) (s : string) : string :=
  match s with
  | EmptyString => EmptyString
  | String c s' => if p c then String c (filter_chars p s') else filter_chars p s'
  end.

(** [s.lower()] on ASCII. *)
Definition lower_char (c : ascii) : ascii :=
  let n := nat_of_ascii c in
  if (65 <=? n)%nat && (n <=? 90)%nat then ascii_of_nat (n + 32) else c.

Fixpoint lower (s : string) : string :=
  match s with
  | EmptyString => EmptyString
  | String c s' => String (lower_char c) (lower s')
  end.

(** The digits of [int(s)] after the first one: single underscores are
    allowed between digits only. *)
Fixpoint int_body (acc : Z) (s : string) : option Z :=
  match s with
  | EmptyString => Some acc
  | String c s' =>
      if isdigit c then int_body (acc * 10 + digit_val c) s'
      else if Ascii.eqb c "_" then
        match s' with
        | String d s'' =>
            if isdigit d then int_body (acc * 10 + digit_val d) s'' else None
        | EmptyString => None
        end
      else None
  end.

Definition int_unsigned (s : string) : option Z :=
  match s with
  | String c s' => if isdigit c then int_body (digit_val c) s' else None
  | EmptyString => None
  end.

(** [int(s)] in base 10; [None] stands for [ValueError]. *)
Definition int (s : string) : option Z :=
  match strip s with
  | String c s' =>
      if Ascii.eqb c "+" then int_unsigned s'
      else if Ascii.eqb c "-" then Z.opp <$> int_unsigned s'
      else int_unsigned (String c s')
  | EmptyString => None
  end.

(** [str(n)], also what an f-string prints for an [int]. *)
Definition str (n : Z) : string := NilZero.string_of_int (Z.to_int n).

(** [s.replace(c, by)] for a one-character [c]. *)
Fixpoint replace_char (c : ascii) (by_ : string) (s : string) : string :=
  match s with
  | EmptyString => EmptyString
  | String d s' =>
      if Ascii.eqb d c then by_ +:+ replace_char c by_ s'
      else String d (replace_char c by_ s')
  end.

(** [s.rsplit(sep, 1)] for a one-character separator, when it gives two
    parts; [None] when [sep] does not occur. *)
Fixpoint rsplit1 (sep : ascii) (s : string) : option (string * string) :=
  match s with
  | EmptyString => None
  | String c s' =>
      match rsplit1 sep s' with
      | Some (a, b) => Some (String c a, b)
      | None => if Ascii.eqb c sep then Some (EmptyString, s') else None
      end
  end.

End Py.

(** ** Version comparison *)

(** [_normalize_version]: [None] stands for an exception of [int(numeric)]
    (lemma [_normalize_version_total] shows there is none). *)
Definition normalize_part (part : string) : option Z :=
  let numeric := Py.filter_chars Py.isdigit part in
  match numeric with
  | EmptyString => Some 0
  | _ => Py.int numeric
  end.

Definition pad4 (normalized : list Z) : list Z :=
  normalized ++ replicate (4 - length normalized)%nat 0.

Definition _normalize_version (version : string) : option (list Z) :=
  let version := Py.lstrip "V" (Py.lstrip "v" (Py.strip version)) in
  let parts := Py.split "." version in
  normalized ← mapM normalize_part (take 4 parts);
  Some (take 4 (pad4 normalized)).

Definition _versions_match (version1 version2 : string) : option bool :=
  n1 ← _normalize_version version1;
  n2 ← _normalize_version version2;
  Some (bool_decide (n1 = n2)).

(** ** IP filtering *)

(** [os.getenv("NODE_ENV", '').lower() == "development"]; the argument is the
    value of the environment variable, [None] when it is unset. *)
Definition is_development (node_env : option string) : bool :=
  String.eqb (Py.lower (default EmptyString node_env)) "development".

(** The body of the [try] in [_is_valid_ip]; [None] stands for a raised
    exception ([int(p)] failing). *)
Definition _is_valid_ip_try (node_env : option string) (ip : string) : option bool :=
  if Py.contains ":" ip then
    if Py.startswith "::1" ip || Py.startswith "fe80:" ip
       || Py.startswith "fc00:" ip || Py.startswith "fd00:" ip
    then Some false
    else Some true
  else
    let parts := Py.split "." ip in
    if negb (length parts =? 4)%nat then Some false
    else
      match mapM Py.int parts with
      | Some (n0 :: n1 :: _) =>
          let is_development := is_development node_env in
          if (n0 =? 10)%Z then Some is_development
          else if ((n0 =? 172) && (16 <=? n1) && (n1 <=? 31))%Z then Some is_development
          else if ((n0 =? 192) && (n1 =? 168))%Z then Some is_development
          else if (n0 =? 127)%Z then Some is_development
          else if (n0 =? 0)%Z then Some false
          else Some true
      | _ => None
      end.

(** [_is_valid_ip]: [except Exception: return False]. *)
Definition _is_valid_ip (node_env : option string) (ip : string) : bool :=
  default false (_is_valid_ip_try node_env ip).

(** A dotted quad written from four numbers, each in decimal. *)
Definition dotted_quad (a b c d : N) : string :=
  NilZero.string_of_uint (N.to_uint a) +:+ "." +:+
  NilZero.string_of_uint (N.to_uint b) +:+ "." +:+
  NilZero.string_of_uint (N.to_uint c) +:+ "." +:+
  NilZero.string_of_uint (N.to_uint d).


(** ** Exceptions *)

Inductive exn : Type :=
  | TimeoutError | ConnectionRefusedError | OSError
  | ValueError | TypeError | AttributeError | OtherException.

Inductive result (A : Type) : Type :=
  | Ok (a : A)
  | Raise (e : exn).
Arguments Ok {A} a.
Arguments Raise {A} e.

#[global] Instance result_ret : MRet result := fun A a => Ok a.
#[global] Instance result_bind : MBind result := fun A B f m =>
  match m with
  | Ok a => f a
  | Raise e => Raise e
  end.

(** [try: m except Exception: h] *)
Definition try_except {A : Type} (m : result A) (h : exn -> A) : A :=
  match m with
  | Ok a => a
  | Raise e => h e
  end.

(** ** Dates and times *)

(** A [datetime]: its calendar and clock fields, counted in seconds from the
    epoch of the same clock, and the UTC offset of its [tzinfo] in seconds
    ([None] for a naive value). *)
Record datetime : Type := mk_datetime {
  dt_seconds : Q;
  dt_utcoffset : option Q
}.

(** [datetime.now(timezone.utc)] when the clock reads [now]. *)
Definition datetime_now_utc (now : Q) : datetime :=
  {| dt_seconds := now; dt_utcoffset := Some 0%Q |}.

(** [d.replace(tzinfo=None)]: the same fields, without time zone. *)
Definition datetime_replace_tzinfo_None (d : datetime) : datetime :=
  {| dt_seconds := dt_seconds d; dt_utcoffset := None |}.

(** [a - b] on datetimes, in seconds ([timedelta.total_seconds()]). Python
    subtracts two naive values field by field, two aware values as instants,
    and raises [TypeError] when one is naive and the other aware. *)
Definition datetime_sub (a b : datetime) : result Q :=
  match dt_utcoffset a, dt_utcoffset b with
  | None, None => Ok (dt_seconds a - dt_seconds b)%Q
  | Some oa, Some ob => Ok ((dt_seconds a - oa) - (dt_seconds b - ob))%Q
  | _, _ => Raise TypeError
  end.

Definition Qgtb (a b : Q) : bool := negb (Qle_bool a b).
Definition Qltb (a b : Q) : bool := negb (Qle_bool b a).

(** ** The data model *)

Module NetAddr.
Record t : Type := mk {
  ip : string;
  port : Z;
  services : Z;
  timestamp : Z
}.
End NetAddr.
Abbreviation NetAddr := NetAddr.t.

Module NodeInfo.
Record t : Type := mk {
  ip : string;
  port : Z;
  version : option string;
  protocol_version : option Z;
  services : option Z;
  start_height : option Z;
  user_agent : option string;
  latency_ms : option Q;
  status : string;
  first_seen : datetime;
  last_seen : datetime;
  times_seen : Z;
  peers : list NetAddr
}.

(** [NodeInfo(ip=ip, port=port)] with the defaults of the dataclass; [now] is
    what the two [default_factory] calls read. *)
Definition new (now : Q) (ip : string) (port : Z) : t :=
  {| ip := ip; port := port; version := None; protocol_version := None;
     services := None; start_height := None; user_agent := None;
     latency_ms := None; status := "pending";
     first_seen := datetime_now_utc now; last_seen := datetime_now_utc now;
     times_seen := 1; peers := [] |}.

Definition set_version (v : option string) (n : t) : t :=
  mk (ip n) (port n) v (protocol_version n) (services n) (start_height n)
     (user_agent n) (latency_ms n) (status n) (first_seen n) (last_seen n)
     (times_seen n) (peers n).
Definition set_protocol_version (v : option Z) (n : t) : t :=
  mk (ip n) (port n) (version n) v (services n) (start_height n)
     (user_agent n) (latency_ms n) (status n) (first_seen n) (last_seen n)
     (times_seen n) (peers n).
Definition set_services (v : option Z) (n : t) : t :=
  mk (ip n) (port n) (version n) (protocol_version n) v (start_height n)
     (user_agent n) (latency_ms n) (status n) (first_seen n) (last_seen n)
     (times_seen n) (peers n).
Definition set_start_height (v : option Z) (n : t) : t :=
  mk (ip n) (port n) (version n) (protocol_version n) (services n) v
     (user_agent n) (latency_ms n) (status n) (first_seen n) (last_seen n)
     (times_seen n) (peers n).
Definition set_user_agent (v : option string) (n : t) : t :=
  mk (ip n) (port n) (version n) (protocol_version n) (services n)
     (start_height n) v (latency_ms n) (status n) (first_seen n) (last_seen n)
     (times_seen n) (peers n).
Definition set_latency_ms (v : option Q) (n : t) : t :=
  mk (ip n) (port n) (version n) (protocol_version n) (services n)
     (start_height n) (user_agent n) v (status n) (first_seen n) (last_seen n)
     (times_seen n) (peers n).
Definition set_status (v : string) (n : t) : t :=
  mk (ip n) (port n) (version n) (protocol_version n) (services n)
     (start_height n) (user_agent n) (latency_ms n) v (first_seen n)
     (last_seen n) (times_seen n) (peers n).
Definition set_last_seen (v : datetime) (n : t) : t :=
  mk (ip n) (port n) (version n) (protocol_version n) (services n)
     (start_height n) (user_agent n) (latency_ms n) (status n) (first_seen n)
     v (times_seen n) (peers n).
Definition set_times_seen (v : Z) (n : t) : t :=
  mk (ip n) (port n) (version n) (protocol_version n) (services n)
     (start_height n) (user_agent n) (latency_ms n) (status n) (first_seen n)
     (last_seen n) v (peers n).
Definition set_peers (v : list NetAddr) (n : t) : t :=
  mk (ip n) (port n) (version n) (protocol_version n) (services n)
     (start_height n) (user_agent n) (latency_ms n) (status n) (first_seen n)
     (last_seen n) (times_seen n) v.
End NodeInfo.
Abbreviation NodeInfo := NodeInfo.t.

(** The per-pass state of [Crawler]: [self.nodes], [self.pending],
    [self.crawled] and the counters of [self.stats] (a dict from counter
    names to integers; a missing key reads 0). *)
Record Crawler : Type := mk_Crawler {
  nodes : gmap string NodeInfo;
  pending : gset string;
  crawled : gset string;
  stats : gmap string Z
}.

Definition set_nodes (f : gmap string NodeInfo -> gmap string NodeInfo) (c : Crawler) : Crawler :=
  mk_Crawler (f (nodes c)) (pending c) (crawled c) (stats c).
Definition set_pending (f : gset string -> gset string) (c : Crawler) : Crawler :=
  mk_Crawler (nodes c) (f (pending c)) (crawled c) (stats c).
Definition set_crawled (f : gset string -> gset string) (c : Crawler) : Crawler :=
  mk_Crawler (nodes c) (pending c) (f (crawled c)) (stats c).

(** [self.stats[k] += n] *)
Definition stats_add (k : string) (n : Z) (c : Crawler) : Crawler :=
  mk_Crawler (nodes c) (pending c) (crawled c)
             (<[k := default 0 (stats c !! k) + n]> (stats c)).

(** [_node_key]: [f"{ip}:{port}"]. *)
Definition _node_key (ip : string) (port : Z) : string :=
  ip +:+ ":" +:+ Py.str port.

(** ** Seeding from the persistent store *)

(** What a row of the store holds under ["last_seen"]: a string, a
    [datetime], or some other value of which only the truth value matters
    (it has no usable [replace]). *)
Inductive last_seen_value : Type :=
  | LsStr (s : string)
  | LsDatetime (d : datetime)
  | LsOther (truthy : bool).

(** A row returned by [db.get_all_nodes()]; a field is [None] when the row
    does not carry the key. *)
Record db_node : Type := mk_db_node {
  db_ip : option string;
  db_port : option Z;
  db_status : option string;
  db_last_seen : option last_seen_value
}.

Definition last_seen_truthy (v : option last_seen_value) : bool :=
  match v with
  | None => false
  | Some (LsStr s) => negb (String.eqb s EmptyString)
  | Some (LsDatetime _) => true
  | Some (LsOther b) => b
  end.

(** The body of the inner [try] of [_seed_from_database]: parse the
    timestamp, compute [minutes_since] and decide. [fromisoformat] is
    [datetime.fromisoformat], [now] the reading of the clock. *)
Definition seed_decision (fromisoformat : string -> result datetime) (now : Q)
    (status : string) (last_seen : last_seen_value) : result bool :=
  last_seen_dt ←
    match last_seen with
    | LsStr s => fromisoformat (Py.replace_char "Z" "+00:00" s)
    | LsDatetime d => Ok d
    | LsOther _ => Raise AttributeError
    end;
  delta ← datetime_sub (datetime_now_utc now) (datetime_replace_tzinfo_None last_seen_dt);
  let minutes_since := (delta / 60)%Q in
  if String.eqb status "up" || String.eqb status "reachable" then Ok true
  else if String.eqb status "down" && Qgtb minutes_since 30 then Ok true
  else if Qgtb minutes_since 10 then Ok true
  else Ok false.

Definition should_crawl (fromisoformat : string -> result datetime) (now : Q)
    (node : db_node) : bool :=
  let status := default "unknown" (db_status node) in
  if last_seen_truthy (db_last_seen node) then
    match db_last_seen node with
    | Some last_seen =>
        try_except (seed_decision fromisoformat now status last_seen) (fun _ => true)
    | None => true
    end
  else true.

(** One iteration of the loop over [db_nodes]. *)
Definition seed_one (fromisoformat : string -> result datetime) (now : Q)
    (p2p_port : Z) (c : Crawler) (node : db_node) : Crawler :=
  match db_ip node with
  | None => c
  | Some ip =>
      if String.eqb ip EmptyString then c
      else
        let port := default p2p_port (db_port node) in
        let key := _node_key ip port in
        if should_crawl fromisoformat now node
        then stats_add "peers_from_db" 1 (set_pending (fun p => {[key]} ∪ p) c)
        else c
  end.

(** [_seed_from_database]; [db_nodes] is what [self.db.get_all_nodes()]
    returns or raises. *)
Definition _seed_from_database (fromisoformat : string -> result datetime)
    (now : Q) (p2p_port : Z) (db_nodes : result (list db_node)) (c : Crawler) : Crawler :=
  match db_nodes with
  | Ok rows => fold_left (seed_one fromisoformat now p2p_port) rows c
  | Raise _ => c
  end.

(** ** The local node, from RPC *)

(** What a JSON object holds under a key: no member of that name, the
    value null, or a value. *)
Inductive member (A : Type) : Type :=
  | Absent
  | Null
  | Value (a : A).
Arguments Absent {A}.
Arguments Null {A}.
Arguments Value {A} a.

(** [d.get(key)]: Python's [None] when the key is absent, else what the key
    holds, which may be null. *)
Definition member_get {A : Type} (m : member A) : option A :=
  match m with
  | Value a => Some a
  | Absent | Null => None
  end.

(** [d.get(key, default)]: the default when the key is absent, else what the
    key holds: a key that holds null gives Python's [None], not the
    default. *)
Definition member_get_default {A : Type} (m : member A) (default : A) : option A :=
  match m with
  | Absent => Some default
  | Null => None
  | Value a => Some a
  end.

(** The answer of [getnetworkinfo] when it is an object with a member or
    more: the four members that [get_local_node_info] reads. An entry of
    [localaddresses] is the pair of [addr.get("address")] and
    [addr.get("port")]. *)
Record network_info : Type := mk_network_info {
  localaddresses : member (list (option string * option Z));
  protocolversion : member Z;
  subversion : member string;
  connections : member Z
}.

(** The dict returned by [get_local_node_info]; a field is [None] when the
    dict holds Python's [None] under the key. *)
Record local_info : Type := mk_local_info {
  local_addresses : list (string * Z);
  li_version : option Z;
  li_subversion : option string;
  li_connections : option Z
}.

(** [rpc.get_local_node_info]; the argument is what [self.getnetworkinfo()]
    returns or raises, [Ok None] being an answer that [not network_info]
    holds of (the empty object that [call] returns when the exchange fails,
    null). When [localaddresses] holds null the loop over it raises a
    [TypeError], which the [except] turns into [None]. *)
Definition get_local_node_info (answer : result (option network_info)) : option local_info :=
  match answer with
  | Ok (Some network_info) =>
      match member_get_default (localaddresses network_info) [] with
      | Some addrs =>
          let local_addresses :=
            omap (fun addr : option string * option Z =>
                    match addr with
                    | (Some ip, Some port) =>
                        if negb (String.eqb ip EmptyString) && negb (port =? 0)%Z
                        then Some (ip, port) else None
                    | _ => None
                    end) addrs in
          Some {| local_addresses := local_addresses;
                  li_version := member_get (protocolversion network_info);
                  li_subversion := member_get_default (subversion network_info) EmptyString;
                  li_connections := member_get_default (connections network_info) 0 |}
      | None => None
      end
  | Ok None => None
  | Raise _ => None
  end.

(** The first address of the list that [_test_address_reachable] accepts. *)
Fixpoint first_reachable (test : string -> Z -> bool) (addrs : list (string * Z))
    : option (string * Z) :=
  match addrs with
  | [] => None
  | (ip, port) :: rest =>
      if test ip port then Some (ip, port) else first_reachable test rest
  end.

(** [not selected_ip] *)
Definition not_selected (sel : option (string * Z)) : bool :=
  match sel with
  | None => true
  | Some (ip, _) => String.eqb ip EmptyString
  end.

(** The address picked by [_mark_rpc_node_as_up]; [test ip port] is the
    answer of [_test_address_reachable(ip, port)], a TCP connect with a
    3-second timeout. *)
Definition select_local_address (test : string -> Z -> bool)
    (addresses : list (string * Z)) : option (string * Z) :=
  let ipv4_addrs := filter (fun a => negb (Py.contains ":" (fst a))) addresses in
  let ipv6_addrs := filter (fun a => Py.contains ":" (fst a)) addresses in
  let selected := first_reachable test ipv4_addrs in
  let selected :=
    if not_selected selected then
      match first_reachable test ipv6_addrs with
      | Some a => Some a
      | None => selected
      end
    else selected in
  if not_selected selected then
    match ipv4_addrs, ipv6_addrs with
    | a :: _, _ => Some a
    | [], a :: _ => Some a
    | [], [] => None
    end
  else selected.

(** The entry written for the local node: [version] is
    [local_info.get("subversion", "")], what the dict holds under a key that
    [get_local_node_info] always sets. *)
Definition rpc_node_info (now : Q) (info : local_info) (ip : string) (port : Z) : NodeInfo :=
  let version := li_subversion info in
  NodeInfo.set_user_agent version
    (NodeInfo.set_latency_ms (Some 1%Q)
      (NodeInfo.set_status "up"
        (NodeInfo.set_services (Some 1)
          (NodeInfo.set_protocol_version (li_version info)
            (NodeInfo.set_version version (NodeInfo.new now ip port)))))).

(** [_mark_rpc_node_as_up]. [rpc] is [None] when no RPC client is
    configured, else the outcome of [getnetworkinfo]. *)
Definition _mark_rpc_node_as_up (test : string -> Z -> bool) (now : Q)
    (rpc : option (result (option network_info))) (c : Crawler) : Crawler :=
  match rpc with
  | None => c
  | Some answer =>
      match get_local_node_info answer with
      | None => c
      | Some info =>
          let addresses := local_addresses info in
          match addresses with
          | [] => c
          | _ =>
              match select_local_address test addresses with
              | None => c
              | Some (selected_ip, selected_port) =>
                  let key := _node_key selected_ip selected_port in
                  let c := set_nodes (fun m => <[key := rpc_node_info now info selected_ip selected_port]> m) c in
                  let c := set_pending (fun p => p ∖ {[key]}) c in
                  let c := set_crawled (fun s => {[key]} ∪ s) c in
                  fold_left
                    (fun c (other : string * Z) =>
                       set_pending (fun p => p ∖ {[_node_key (fst other) (snd other)]}) c)
                    addresses c
              end
          end
      end
  end.

(** ** Configuration *)

Definition bytes : Type := list Byte.byte.

#[global] Instance byte_eq_decision : EqDecision Byte.byte := Byte.byte_eq_dec.

(** Modelled from the spec: [config.py] is not in src; these are the fields
    of [ChainConfig] and [CrawlerConfig] that the crawler reads. Durations
    are in seconds unless the name says otherwise. *)
Record ChainConfig : Type := mk_ChainConfig {
  name : string;
  magic_bytes : bytes;
  protocol_version : Z;
  p2p_port : Z;
  current_version : string
}.

Record CrawlerConfig : Type := mk_CrawlerConfig {
  chain_config : ChainConfig;
  max_concurrent : Z;
  connection_timeout : Q;
  extended_timeout : Q;
  max_retries : Z;
  initial_retry_delay : Q;
  retry_backoff_multiplier : Q;
  getaddr_delay_ms : Q;
  fallback_protocol_versions : option (list Z);
  require_version_for_save : bool
}.

(** [dataclasses.replace(chain_config, protocol_version=v)] *)
Definition replace_protocol_version (cc : ChainConfig) (v : Z) : ChainConfig :=
  mk_ChainConfig (name cc) (magic_bytes cc) v (p2p_port cc) (current_version cc).

(** ** The wire protocol *)

Module VersionPayload.
Record t : Type := mk {
  version : Z;
  services : Z;
  start_height : Z;
  user_agent : string
}.
End VersionPayload.

(** Modelled from the spec: [protocol.py] is not in src. The crawler uses its
    message builders and parsers; the spec (4.1) gives their types, says that
    a parser signals an incomplete frame or a bad magic (the crawler catches
    [ValueError]), and that [parse_message] returns the bytes after the frame
    it decoded, a frame being at least its 24-byte header. *)
Class Protocol : Type := mk_Protocol {
  create_version_message : ChainConfig -> string -> Z -> Z -> bytes;
  create_verack_message : ChainConfig -> bytes;
  create_getaddr_message : ChainConfig -> bytes;
  parse_message : bytes -> bytes -> result (string * bytes * bytes);
  parse_version_payload : bytes -> result VersionPayload.t;
  parse_addr_payload : bytes -> result (list NetAddr);
  parse_message_consumes : forall data magic command payload remaining,
    parse_message data magic = Ok (command, payload, remaining) ->
    (length remaining < length data)%nat
}.

(** [struct.unpack("<I", b)[0]] *)
Fixpoint le_uint (b : bytes) : Z :=
  match b with
  | [] => 0
  | x :: b' => Z.of_N (Byte.to_N x) + 256 * le_uint b'
  end.

(** [data[i:j]] *)
Definition slice (i j : nat) (data : bytes) : bytes := take (j - i) (drop i data).

(** ** One connection *)

(** What one [await asyncio.wait_for(reader.read(65536), timeout=...)]
    does: it returns a chunk after [d] seconds (the empty chunk when the peer
    has closed), or it gives up with [asyncio.TimeoutError] once its timeout
    has run, or [reader.read] raises after [d] seconds. *)
Inductive read_event : Type :=
  | RData (d : Q) (chunk : bytes)
  | RTimeout
  | RError (d : Q) (e : exn).

(** What one dial meets: the clock when it starts, how
    [asyncio.open_connection] ends (connected after so many seconds, or an
    exception), what the successive reads do, and which of the successive
    [writer.drain()] calls raise. When [reads] is used up the peer stays
    silent: the read loop in progress runs into its deadline. *)
Record peer : Type := mk_peer {
  start_clock : Q;
  connecting : result Q;
  reads : list read_event;
  drain_error : nat -> option exn
}.

Record socket : Type := mk_socket {
  clock : Q;
  inbox : list read_event;
  sent : list bytes;
  drain_errors : nat -> option exn;
  closed : bool
}.

(** Code that uses the socket and may raise. *)
Definition io (A : Type) : Type := socket -> result A * socket.

#[global] Instance io_ret : MRet io := fun A a s => (Ok a, s).
#[global] Instance io_bind : MBind io := fun A B f m s =>
  match m s with
  | (Ok a, s') => f a s'
  | (Raise e, s') => (Raise e, s')
  end.

Definition io_raise {A : Type} (e : exn) : io A := fun s => (Raise e, s).

(** [try: m except Exception as e: h e] *)
Definition io_try {A : Type} (m : io A) (h : exn -> io A) : io A := fun s =>
  match m s with
  | (Ok a, s') => (Ok a, s')
  | (Raise e, s') => h e s'
  end.

(** [time.time()] *)
Definition time : io Q := fun s => (Ok (clock s), s).

(** [await asyncio.sleep(d)] *)
Definition sleep (d : Q) : io unit := fun s =>
  (Ok tt, mk_socket (clock s + d)%Q (inbox s) (sent s) (drain_errors s) (closed s)).

(** [writer.write(msg); await writer.drain()] *)
Definition send (msg : bytes) : io unit := fun s =>
  let s' := mk_socket (clock s) (inbox s) (sent s ++ [msg])%list (drain_errors s) (closed s) in
  match drain_errors s (length (sent s)) with
  | Some e => (Raise e, s')
  | None => (Ok tt, s')
  end.

(** [writer.close()] and [wait_closed()], whose errors are swallowed. *)
Definition close (s : socket) : socket :=
  mk_socket (clock s) (inbox s) (sent s) (drain_errors s) true.

(** [len(data) >= 24] and [len(data) >= 24 + length], [length] being read
    from [data[16:20]]. *)
Definition complete_message (data : bytes) : bool :=
  (24 <=? length data)%nat &&
  (24 + le_uint (slice 16 20 data) <=? Z.of_nat (length data))%Z.

(** The loop that reads the answer to the version message. *)
Fixpoint read_version_loop (events : list read_event) (clock start_read read_timeout : Q)
    (data : bytes) : result bytes * list read_event * Q :=
  if Qltb (clock - start_read) read_timeout then
    match events with
    | [] => (Ok data, [], (start_read + read_timeout)%Q)
    | RData d chunk :: rest =>
        let clock := (clock + d)%Q in
        match chunk with
        | [] => (Ok data, rest, clock)
        | _ :: _ =>
            let data := (data ++ chunk)%list in
            if complete_message data then (Ok data, rest, clock)
            else read_version_loop rest clock start_read read_timeout data
        end
    | RTimeout :: rest =>
        let clock := (clock + 2)%Q in
        if complete_message data then (Ok data, rest, clock)
        else read_version_loop rest clock start_read read_timeout data
    | RError d TimeoutError :: rest =>
        let clock := (clock + d)%Q in
        if complete_message data then (Ok data, rest, clock)
        else read_version_loop rest clock start_read read_timeout data
    | RError d e :: rest => (Raise e, rest, (clock + d)%Q)
    end
  else (Ok data, events, clock).

Definition read_version (read_timeout : Q) : io bytes := fun s =>
  match read_version_loop (inbox s) (clock s) (clock s) read_timeout [] with
  | (r, events, clock') =>
      (r, mk_socket clock' events (sent s) (drain_errors s) (closed s))
  end.

(** The local variables of the loop that parses the version answer. *)
Record handshake : Type := mk_handshake {
  node_info : NodeInfo;
  received_version : bool;
  received_verack : bool
}.

(** [node_info.version = version_data.user_agent] and the four assignments
    after it. *)
Definition capture_version (version_data : VersionPayload.t) (n : NodeInfo) : NodeInfo :=
  NodeInfo.set_user_agent (Some (VersionPayload.user_agent version_data))
    (NodeInfo.set_start_height (Some (VersionPayload.start_height version_data))
      (NodeInfo.set_services (Some (VersionPayload.services version_data))
        (NodeInfo.set_protocol_version (Some (VersionPayload.version version_data))
          (NodeInfo.set_version (Some (VersionPayload.user_agent version_data)) n)))).

(** [while remaining: try: ... except ValueError: break]. [fuel] bounds the
    number of frames; the length of [remaining] is always enough
    ([parse_version_loop_fuel]). *)
Fixpoint parse_version_loop `{Protocol} (cc : ChainConfig) (fuel : nat)
    (remaining : bytes) (h : handshake) : io handshake :=
  match fuel with
  | O => mret h
  | S fuel =>
      match remaining with
      | [] => mret h
      | _ :: _ =>
          match parse_message remaining (magic_bytes cc) with
          | Raise ValueError => mret h
          | Raise e => io_raise e
          | Ok (command, payload, remaining) =>
              if String.eqb command "version" then
                match parse_version_payload payload with
                | Raise ValueError => mret h
                | Raise e => io_raise e
                | Ok version_data =>
                    let h := mk_handshake (capture_version version_data (node_info h))
                                          true (received_verack h) in
                    fun s =>
                      match send (create_verack_message cc) s with
                      | (Ok _, s') => parse_version_loop cc fuel remaining h s'
                      | (Raise ValueError, s') => (Ok h, s')
                      | (Raise e, s') => (Raise e, s')
                      end
                end
              else if String.eqb command "verack" then
                parse_version_loop cc fuel remaining
                  (mk_handshake (node_info h) (received_version h) true)
              else parse_version_loop cc fuel remaining h
          end
      end
  end.

(** The inner loop of the address phase: the peers of the first [addr]
    frame if there is one, and the bytes kept in [buffer]. *)
Fixpoint parse_addr_loop `{Protocol} (cc : ChainConfig) (fuel : nat)
    (remaining : bytes) : result (option (list NetAddr) * bytes) :=
  match fuel with
  | O => Ok (None, [])
  | S fuel =>
      match remaining with
      | [] => Ok (None, [])
      | _ :: _ =>
          match parse_message remaining (magic_bytes cc) with
          | Raise ValueError => Ok (None, remaining)
          | Raise e => Raise e
          | Ok (command, payload, remaining) =>
              if String.eqb command "addr" then
                match parse_addr_payload payload with
                | Ok peers => Ok (Some peers, [])
                | Raise ValueError => Ok (None, remaining)
                | Raise e => Raise e
                end
              else parse_addr_loop cc fuel remaining
          end
      end
  end.

(** The loop that waits up to 60 seconds for an [addr] frame. *)
Fixpoint read_addr_loop `{Protocol} (cc : ChainConfig) (events : list read_event)
    (clock start_time : Q) (buffer : bytes)
    : result (option (list NetAddr)) * list read_event * Q :=
  if Qltb (clock - start_time) 60 then
    match events with
    | [] => (Ok None, [], (start_time + 60)%Q)
    | RData d chunk :: rest =>
        let clock := (clock + d)%Q in
        match chunk with
        | [] => (Ok None, rest, clock)
        | _ :: _ =>
            let buffer := (buffer ++ chunk)%list in
            match parse_addr_loop cc (S (length buffer)) buffer with
            | Raise e => (Raise e, rest, clock)
            | Ok (Some peers, _) => (Ok (Some peers), rest, clock)
            | Ok (None, buffer) => read_addr_loop cc rest clock start_time buffer
            end
        end
    | RTimeout :: rest => read_addr_loop cc rest (clock + 5)%Q start_time buffer
    | RError d TimeoutError :: rest =>
        read_addr_loop cc rest (clock + d)%Q start_time buffer
    | RError d e :: rest => (Raise e, rest, (clock + d)%Q)
    end
  else (Ok None, events, clock).

Definition read_addr `{Protocol} (cc : ChainConfig) : io (option (list NetAddr)) := fun s =>
  match read_addr_loop cc (inbox s) (clock s) (clock s) [] with
  | (r, events, clock') =>
      (r, mk_socket clock' events (sent s) (drain_errors s) (closed s))
  end.

(** What a dial gives back: the [Optional[NodeInfo]] it returns, and what it
    added to [self.stats["peers_from_p2p"]]. *)
Record dialed : Type := mk_dialed {
  returned : option NodeInfo;
  peers_from_p2p : Z
}.

Definition reachable_node (now : Q) (ip : string) (port : Z) (tcp_latency : Q) : NodeInfo :=
  NodeInfo.set_latency_ms (Some tcp_latency)
    (NodeInfo.set_status "reachable" (NodeInfo.new now ip port)).

(** The body of the inner [try] of [_try_connect_with_protocol], from the
    version message to [return node_info]. *)
Definition converse `{Protocol} (config : CrawlerConfig) (ip : string) (port : Z)
    (protocol_version : Z) (timeout start_time tcp_latency : Q) : io dialed :=
  let cc := chain_config config in
  let chain_config_override := replace_protocol_version cc protocol_version in
  _ ← send (create_version_message chain_config_override ip port 0);
  data ← read_version timeout;
  now ← time;
  match data with
  | [] => mret (mk_dialed (Some (reachable_node now ip port tcp_latency)) 0)
  | _ :: _ =>
      h ← parse_version_loop cc (S (length data)) data
            (mk_handshake (NodeInfo.new now ip port) false false);
      now ← time;
      if negb (received_version h)
      then mret (mk_dialed (Some (reachable_node now ip port tcp_latency)) 0)
      else
        let node_info :=
          NodeInfo.set_status "up"
            (NodeInfo.set_latency_ms (Some ((now - start_time) * 1000)%Q) (node_info h)) in
        _ ← sleep (getaddr_delay_ms config / 1000)%Q;
        _ ← send (create_getaddr_message cc);
        found ← io_try (read_addr cc) (fun _ => mret None);
        match found with
        | Some peers =>
            mret (mk_dialed (Some (NodeInfo.set_peers peers node_info))
                            (Z.of_nat (length peers)))
        | None => mret (mk_dialed (Some node_info) 0)
        end
  end.

(** [_try_connect_with_protocol]: one connection attempt against [p]. The
    second component is the socket as it is left, when one was opened. *)
Definition _try_connect_with_protocol `{Protocol} (config : CrawlerConfig)
    (ip : string) (port : Z) (protocol_version : Z) (timeout : Q) (p : peer)
    : dialed * option socket :=
  let start_time := start_clock p in
  match connecting p with
  | Raise _ => (mk_dialed None 0, None)
  | Ok d =>
      if Qltb d timeout then
        let s := mk_socket (start_time + d)%Q (reads p) [] (drain_error p) false in
        let tcp_latency := ((clock s - start_time) * 1000)%Q in
        match converse config ip port protocol_version timeout start_time tcp_latency s with
        | (Ok r, s') => (r, Some (close s'))
        | (Raise _, s') => (mk_dialed None 0, Some (close s'))
        end
      else (mk_dialed None 0, None)
  end.

(** ** A wire protocol for the examples *)

(** Modelled from the spec: the framing of 4.1 (magic, 12-byte command
    padded with NUL, 4-byte little-endian payload length, 4-byte checksum
    that is not verified, payload), and for the payloads the layout of
    Bitcoin: [version] as int32 version, uint64 services, 68 bytes skipped,
    a user agent of fewer than 253 characters, int32 start height; [addr] as
    a count below 253 and entries of timestamp, services, an IPv4-mapped
    address and a big-endian port. It is one instance of [Protocol], used to
    run the crawler on concrete peers. *)
Definition le_bytes (width : nat) (n : Z) : bytes :=
  map (fun i : nat =>
         match Byte.of_N (Z.to_N ((n / 256 ^ Z.of_nat i) mod 256)) with
         | Some b => b
         | None => Byte.x00
         end) (seq 0 width).

Definition signed32 (n : Z) : Z := if (n <? 2 ^ 31)%Z then n else (n - 2 ^ 32)%Z.

Definition command_bytes (command : string) : bytes :=
  let b := String.list_byte_of_string command in
  (b ++ replicate (12 - length b) Byte.x00)%list.

Fixpoint until_nul (b : bytes) : bytes :=
  match b with
  | [] => []
  | x :: b' => if Byte.eqb x Byte.x00 then [] else x :: until_nul b'
  end.

Definition frame (magic : bytes) (command : string) (payload : bytes) : bytes :=
  (magic ++ command_bytes command ++ le_bytes 4 (Z.of_nat (length payload))
     ++ le_bytes 4 0 ++ payload)%list.

Definition frame_parse (data magic : bytes) : result (string * bytes * bytes) :=
  if (length data <? 24)%nat then Raise ValueError
  else
    let n := (24 + Z.to_nat (le_uint (slice 16 20 data)))%nat in
    if (length data <? n)%nat then Raise ValueError
    else if negb (bool_decide (take 4 data = magic)) then Raise ValueError
    else Ok (String.string_of_list_byte (until_nul (slice 4 16 data)),
             slice 24 n data, drop n data).

Definition version_payload (v : VersionPayload.t) : bytes :=
  let ua := String.list_byte_of_string (VersionPayload.user_agent v) in
  (le_bytes 4 (VersionPayload.version v) ++ le_bytes 8 (VersionPayload.services v)
     ++ replicate 68 Byte.x00 ++ le_bytes 1 (Z.of_nat (length ua)) ++ ua
     ++ le_bytes 4 (VersionPayload.start_height v))%list.

Definition version_parse (payload : bytes) : result VersionPayload.t :=
  if (length payload <? 81)%nat then Raise ValueError
  else
    let n := Z.to_nat (le_uint (slice 80 81 payload)) in
    if (length payload <? 85 + n)%nat then Raise ValueError
    else Ok {| VersionPayload.version := signed32 (le_uint (slice 0 4 payload));
               VersionPayload.services := le_uint (slice 4 12 payload);
               VersionPayload.start_height :=
                 signed32 (le_uint (slice (81 + n) (85 + n) payload));
               VersionPayload.user_agent :=
                 String.string_of_list_byte (slice 81 (81 + n) payload) |}.

Definition byte_N (b : bytes) (i : nat) : N :=
  match b !! i with
  | Some x => Byte.to_N x
  | None => 0%N
  end.

Definition addr_entry_parse (e : bytes) : NetAddr :=
  {| NetAddr.ip := dotted_quad (byte_N e 24) (byte_N e 25) (byte_N e 26) (byte_N e 27);
     NetAddr.port := Z.of_N (byte_N e 28) * 256 + Z.of_N (byte_N e 29);
     NetAddr.services := le_uint (slice 4 12 e);
     NetAddr.timestamp := le_uint (slice 0 4 e) |}.

Fixpoint addr_entries_parse (count : nat) (b : bytes) : list NetAddr :=
  match count with
  | O => []
  | S count => addr_entry_parse (take 30 b) :: addr_entries_parse count (drop 30 b)
  end.

Definition addr_parse (payload : bytes) : result (list NetAddr) :=
  match payload with
  | [] => Raise ValueError
  | c :: entries =>
      let count := N.to_nat (Byte.to_N c) in
      if (length entries <? 30 * count)%nat then Raise ValueError
      else Ok (addr_entries_parse count entries)
  end.

Definition addr_entry (a : N * N * N * N * Z) : bytes :=
  match a with
  | (a0, a1, a2, a3, port) =>
      (replicate 22 Byte.x00 ++ le_bytes 2 65535 ++ le_bytes 1 (Z.of_N a0)
         ++ le_bytes 1 (Z.of_N a1) ++ le_bytes 1 (Z.of_N a2) ++ le_bytes 1 (Z.of_N a3)
         ++ le_bytes 1 (port / 256) ++ le_bytes 1 (port mod 256))%list
  end.

Definition addr_payload (l : list (N * N * N * N * Z)) : bytes :=
  (le_bytes 1 (Z.of_nat (length l)) ++ concat (map addr_entry l))%list.

Lemma frame_parse_consumes data magic command payload remaining :
  frame_parse data magic = Ok (command, payload, remaining) ->
  (length remaining < length data)%nat.
Proof.
  unfold frame_parse.
  destruct (Nat.ltb_spec (length data) 24); [discriminate|].
  destruct (Nat.ltb_spec (length data) (24 + Z.to_nat (le_uint (slice 16 20 data))));
    [discriminate|].
  destruct (negb _); [discriminate|].
  intros [= _ _ <-]. rewrite length_drop. lia.
Qed.

#[global] Instance bitcoin_protocol : Protocol :=
  {| create_version_message := fun cc _ _ start_height =>
       frame (magic_bytes cc) "version"
         (version_payload
            {| VersionPayload.version := protocol_version cc;
               VersionPayload.services := 0;
               VersionPayload.start_height := start_height;
               VersionPayload.user_agent := "/crawler/" |});
     create_verack_message := fun cc => frame (magic_bytes cc) "verack" [];
     create_getaddr_message := fun cc => frame (magic_bytes cc) "getaddr" [];
     parse_message := frame_parse;
     parse_version_payload := version_parse;
     parse_addr_payload := addr_parse;
     parse_message_consumes := frame_parse_consumes |}.

(** ** Retries and protocol fallback *)

(** The dialer as [_connect_and_handshake] sees it: what its [n]-th call of
    [_try_connect_with_protocol(ip, port, protocol_version, timeout)]
    gives back. *)
Definition dialer : Type := nat -> string -> Z -> Z -> Q -> dialed.

(** One call of the dialer, as it happened. *)
Record dial_call : Type := mk_dial_call {
  dialed_ip : string;
  dialed_port : Z;
  dialed_protocol_version : Z;
  dialed_timeout : Q;
  dial_returned : option NodeInfo
}.

(** The local variables of [_connect_and_handshake], with the calls of the
    dialer and the back-off sleeps done so far, and what the dials added to
    [self.stats["peers_from_p2p"]]. *)
Record retry : Type := mk_retry {
  last_result : option NodeInfo;
  last_error : option string;
  dial_log : list dial_call;
  slept : list Q;
  retry_peers_from_p2p : Z
}.

(** [x and x.status == s] for an [Optional[NodeInfo]]. *)
Definition has_status (s : string) (x : option NodeInfo) : bool :=
  match x with
  | Some n => String.eqb (NodeInfo.status n) s
  | None => false
  end.

(** The loop over [protocol_versions] of one attempt. [inl r] when the loop
    left the function with [return r], [inr st] when it ended or broke. *)
Fixpoint try_protocols (dial : dialer) (config : CrawlerConfig) (ip : string) (port : Z)
    (attempt : nat) (protocol_versions : list Z) (st : retry) : option NodeInfo * retry + retry :=
  match protocol_versions with
  | [] => inr st
  | protocol_version :: rest =>
      let timeout :=
        if has_status "reachable" (last_result st) && (0 <? attempt)%nat
        then extended_timeout config
        else connection_timeout config in
      let d := dial (length (dial_log st)) ip port protocol_version timeout in
      let result := returned d in
      let st := mk_retry (last_result st) (last_error st)
                  (dial_log st ++ [mk_dial_call ip port protocol_version timeout result])%list
                  (slept st) (retry_peers_from_p2p st + peers_from_p2p d) in
      if has_status "up" result then inl (result, st)
      else
        let st := mk_retry result (last_error st) (dial_log st) (slept st)
                    (retry_peers_from_p2p st) in
        if has_status "reachable" result then
          try_protocols dial config ip port attempt rest st
        else
          match result with
          | None =>
              inr (mk_retry (last_result st) (Some "TCP connection failed")
                     (dial_log st) (slept st) (retry_peers_from_p2p st))
          | Some _ => try_protocols dial config ip port attempt rest st
          end
  end.

(** The loop over [range(self.config.max_retries + 1)]. *)
Fixpoint try_attempts (dial : dialer) (config : CrawlerConfig) (ip : string) (port : Z)
    (protocol_versions : list Z) (attempts : list nat) (st : retry)
    : option NodeInfo * retry + retry :=
  match attempts with
  | [] => inr st
  | attempt :: rest =>
      let st :=
        if (0 <? attempt)%nat then
          let delay := (initial_retry_delay config *
                        retry_backoff_multiplier config ^ (Z.of_nat attempt - 1))%Q in
          mk_retry (last_result st) (last_error st) (dial_log st)
                   (slept st ++ [delay])%list (retry_peers_from_p2p st)
        else st in
      match try_protocols dial config ip port attempt protocol_versions st with
      | inl r => inl r
      | inr st => try_attempts dial config ip port protocol_versions rest st
      end
  end.

(** [_connect_and_handshake]: what it returns, and its variables when it
    returns. *)
Definition _connect_and_handshake (dial : dialer) (config : CrawlerConfig)
    (ip : string) (port : Z) : option NodeInfo * retry :=
  let fallback_versions := default [] (fallback_protocol_versions config) in
  let protocol_versions := protocol_version (chain_config config) :: fallback_versions in
  let st := mk_retry None None [] [] 0 in
  match try_attempts dial config ip port protocol_versions
          (seq 0 (Z.to_nat (max_retries config + 1))) st with
  | inl r => r
  | inr st =>
      if has_status "reachable" (last_result st) then (last_result st, st)
      else (None, st)
  end.

(** The dialer that meets the peers [net 0], [net 1], ... in turn. *)
Definition dial_peers `{Protocol} (config : CrawlerConfig) (net : nat -> peer) : dialer :=
  fun n ip port protocol_version timeout =>
    fst (_try_connect_with_protocol config ip port protocol_version timeout (net n)).

(** ** Crawling one node *)

(** [_crawl_node] up to the semaphore: [self.pending.discard(key)], then
    [if key in self.crawled: return]. The boolean tells whether the
    function goes on. *)
Definition crawl_begin (key : string) (c : Crawler) : Crawler * bool :=
  let c := set_pending (fun p => p ∖ {[key]}) c in
  (c, negb (bool_decide (key ∈ crawled c))).

(** Entering [async with self.semaphore]: the counter of attempts. *)
Definition crawl_acquired (c : Crawler) : Crawler :=
  stats_add "connections_attempted" 1 c.

(** [for peer in node_info.peers: ...] *)
Definition admit_peers (node_env : option string) (peers : list NetAddr) (c : Crawler)
    : Crawler :=
  fold_left
    (fun c (peer : NetAddr) =>
       let peer_key := _node_key (NetAddr.ip peer) (NetAddr.port peer) in
       if negb (bool_decide (peer_key ∈ crawled c))
          && negb (bool_decide (peer_key ∈ pending c))
       then
         if _is_valid_ip node_env (NetAddr.ip peer)
         then set_pending (fun p => {[peer_key]} ∪ p) c
         else c
       else c)
    peers c.

(** The update of an entry that is already in [self.nodes]. *)
Definition update_existing (now : Q) (node_info existing : NodeInfo) : NodeInfo :=
  let existing :=
    if String.eqb (NodeInfo.status node_info) "up" then
      NodeInfo.set_peers (NodeInfo.peers node_info)
        (NodeInfo.set_start_height (NodeInfo.start_height node_info)
          (NodeInfo.set_services (NodeInfo.services node_info)
            (NodeInfo.set_protocol_version (NodeInfo.protocol_version node_info)
              (NodeInfo.set_version (NodeInfo.version node_info) existing))))
    else existing in
  NodeInfo.set_times_seen (NodeInfo.times_seen existing + 1)
    (NodeInfo.set_last_seen (datetime_now_utc now)
      (NodeInfo.set_status (NodeInfo.status node_info)
        (NodeInfo.set_latency_ms (NodeInfo.latency_ms node_info) existing))).

(** The entry written for a node that could not be reached and is not in
    [self.nodes] yet. *)
Definition node_info_unreachable (now : Q) (ip : string) (port : Z) : NodeInfo :=
  {| NodeInfo.ip := ip; NodeInfo.port := port; NodeInfo.version := None;
     NodeInfo.protocol_version := None; NodeInfo.services := None;
     NodeInfo.start_height := None; NodeInfo.user_agent := None;
     NodeInfo.latency_ms := None; NodeInfo.status := "down";
     NodeInfo.first_seen := datetime_now_utc now;
     NodeInfo.last_seen := datetime_now_utc now;
     NodeInfo.times_seen := 0; NodeInfo.peers := [] |}.

(** [_crawl_node] after [await self._connect_and_handshake(ip, port)] has
    returned [node_info]: from [self.crawled.add(key)] to the end. *)
Definition crawl_record (node_env : option string) (now : Q) (ip : string) (port : Z)
    (node_info : option NodeInfo) (c : Crawler) : Crawler :=
  let key := _node_key ip port in
  let c := set_crawled (fun s => {[key]} ∪ s) c in
  match node_info with
  | Some node_info =>
      let c := stats_add "connections_successful" 1 c in
      let c :=
        match nodes c !! key with
        | Some existing =>
            set_nodes (fun m => <[key := update_existing now node_info existing]> m) c
        | None =>
            stats_add "nodes_discovered" 1
              (set_nodes (fun m => <[key := node_info]> m) c)
        end in
      admit_peers node_env (NodeInfo.peers node_info) c
  | None =>
      let c := stats_add "connections_failed" 1 c in
      match nodes c !! key with
      | Some existing =>
          set_nodes (fun m => <[key := NodeInfo.set_last_seen (datetime_now_utc now)
                                          (NodeInfo.set_status "down" existing)]> m) c
      | None =>
          stats_add "nodes_discovered" 1
            (set_nodes (fun m => <[key := node_info_unreachable now ip port]> m) c)
      end
  end.

(** [_crawl_node], run from start to end with nothing in between. *)
Definition _crawl_node (dial : dialer) (config : CrawlerConfig) (node_env : option string)
    (now : Q) (ip : string) (port : Z) (c : Crawler) : Crawler :=
  let key := _node_key ip port in
  match crawl_begin key c with
  | (c, false) => c
  | (c, true) =>
      let c := crawl_acquired c in
      let '(node_info, st) := _connect_and_handshake dial config ip port in
      let c := stats_add "peers_from_p2p" (retry_peers_from_p2p st) c in
      crawl_record node_env now ip port node_info c
  end.

(** ** A crawl pass *)

(** [ip, port = key.rsplit(":", 1)] and [int(port)]; [None] when either
    raises. *)
Definition key_target (key : string) : option (string * Z) :=
  match Py.rsplit1 ":" key with
  | Some (ip, port) =>
      match Py.int port with
      | Some port => Some (ip, port)
      | None => None
      end
  | None => None
  end.

(** [l[:n]] *)
Definition py_prefix {A : Type} (n : Z) (l : list A) : list A :=
  if (0 <=? n)%Z then take (Z.to_nat n) l
  else take (length l - Z.to_nat (- n)) l.

(** Where the coroutine [_crawl_node(ip, port)] of a batch stands: not
    started, past the test of [crawled] and waiting for the semaphore,
    inside [_connect_and_handshake], or finished. *)
Inductive phase : Type := Ready | Waiting | Dialing | Done.

Record task : Type := mk_task {
  task_ip : string;
  task_port : Z;
  task_phase : phase
}.

Definition task_key (t : task) : string := _node_key (task_ip t) (task_port t).

(** A pass while [_crawl_pending] runs: the crawler, the tasks of the batch
    being gathered, the free slots of the semaphore, and two logs, the keys
    for which [_connect_and_handshake] was called and the calls of
    [_try_connect_with_protocol]. *)
Record pass : Type := mk_pass {
  crawler : Crawler;
  tasks : list task;
  permits : Z;
  handshakes : list string;
  dials : list dial_call
}.

Definition set_phase (i : nat) (ph : phase) (ts : list task) : list task :=
  match ts !! i with
  | Some t => <[i := mk_task (task_ip t) (task_port t) ph]> ts
  | None => ts
  end.

(** The steps of a pass. The event loop runs one coroutine at a time and
    switches at an [await] only, so each step is what a coroutine does
    between two of them. *)
Inductive pass_step `{Protocol} (config : CrawlerConfig) (node_env : option string)
    : pass -> pass -> Prop :=
  | step_batch ps order targets :
      (** [while self.pending:] once [gather] has returned: a new batch *)
      Forall (fun t => task_phase t = Done) (tasks ps) ->
      pending (crawler ps) <> ∅ ->
      order ≡ₚ elements (pending (crawler ps)) ->
      mapM key_target (py_prefix (max_concurrent config) order) = Some targets ->
      pass_step config node_env ps
        (mk_pass (crawler ps)
                 ((fun x : string * Z => mk_task (fst x) (snd x) Ready) <$> targets)
                 (permits ps) (handshakes ps) (dials ps))
  | step_begin ps i t c go :
      tasks ps !! i = Some t -> task_phase t = Ready ->
      crawl_begin (task_key t) (crawler ps) = (c, go) ->
      pass_step config node_env ps
        (mk_pass c (set_phase i (if go then Waiting else Done) (tasks ps))
                 (permits ps) (handshakes ps) (dials ps))
  | step_acquire ps i t :
      tasks ps !! i = Some t -> task_phase t = Waiting ->
      (0 < permits ps)%Z ->
      pass_step config node_env ps
        (mk_pass (crawl_acquired (crawler ps)) (set_phase i Dialing (tasks ps))
                 (permits ps - 1) (task_key t :: handshakes ps) (dials ps))
  | step_finish ps i t (net : nat -> peer) (now : Q) node_info st :
      tasks ps !! i = Some t -> task_phase t = Dialing ->
      _connect_and_handshake (dial_peers config net) config (task_ip t) (task_port t)
        = (node_info, st) ->
      pass_step config node_env ps
        (mk_pass (crawl_record node_env now (task_ip t) (task_port t) node_info
                    (stats_add "peers_from_p2p" (retry_peers_from_p2p st) (crawler ps)))
                 (set_phase i Done (tasks ps))
                 (permits ps + 1) (handshakes ps) (dials ps ++ dial_log st)).

(** The pass when [_crawl_pending] is entered, after the seeding: no task
    yet, the semaphore free. *)
Definition pass_start (config : CrawlerConfig) (c : Crawler) : pass :=
  mk_pass c [] (max_concurrent config) [] [].

(** A key written by [_node_key]. *)
Definition is_node_key (k : string) : Prop := exists ip port, k = _node_key ip port.

(** The key of the target of a call of the dialer. *)
Definition dial_key (c : dial_call) : string := _node_key (dialed_ip c) (dialed_port c).

(** ** Auxiliary notions used in the statements *)

(** Every character of [s] satisfies [p]. *)
Fixpoint all_chars (p : ascii -> bool) (s : string) : bool :=
  match s with
  | EmptyString => true
  | String c s' => p c && all_chars p s'
  end.

(** The value of a decimal numeral read left to right from [acc]. *)
Fixpoint uint_value (d : Decimal.uint) (acc : Z) : Z :=
  match d with
  | Decimal.Nil => acc
  | Decimal.D0 l => uint_value l (acc * 10)
  | Decimal.D1 l => uint_value l (acc * 10 + 1)
  | Decimal.D2 l => uint_value l (acc * 10 + 2)
  | Decimal.D3 l => uint_value l (acc * 10 + 3)
  | Decimal.D4 l => uint_value l (acc * 10 + 4)
  | Decimal.D5 l => uint_value l (acc * 10 + 5)
  | Decimal.D6 l => uint_value l (acc * 10 + 6)
  | Decimal.D7 l => uint_value l (acc * 10 + 7)
  | Decimal.D8 l => uint_value l (acc * 10 + 8)
  | Decimal.D9 l => uint_value l (acc * 10 + 9)
  end.

(** The order of preference among the addresses of the local node: the
    first IPv4 address that answers, else the first IPv6 address that
    answers, else the first IPv4 address, else the first IPv6 address. *)
Definition preferred_address (test : string -> Z -> bool)
    (addresses : list (string * Z)) : option (string * Z) :=
  let ipv4_addrs := filter (fun a => negb (Py.contains ":" (fst a))) addresses in
  let ipv6_addrs := filter (fun a => Py.contains ":" (fst a)) addresses in
  match first_reachable test ipv4_addrs with
  | Some a => Some a
  | None =>
      match first_reachable test ipv6_addrs with
      | Some a => Some a
      | None =>
          match head ipv4_addrs with
          | Some a => Some a
          | None => head ipv6_addrs
          end
      end
  end.

(** The keys of a list of addresses. *)
Definition address_keys (addresses : list (string * Z)) : gset string :=
  list_to_set (map (fun a => _node_key (fst a) (snd a)) addresses).


(** A node entry that carries the version data of a handshake. *)
Definition versioned (n : NodeInfo) : Prop :=
  is_Some (NodeInfo.protocol_version n) /\ is_Some (NodeInfo.user_agent n).

(** ** Values for the examples *)

Definition dingo_chain : ChainConfig :=
  {| name := "Dingocoin";
     magic_bytes := [Byte.xc1; Byte.xc1; Byte.xc1; Byte.xc1];
     protocol_version := 70015; p2p_port := 33117; current_version := "1.18.0" |}.

Definition dingo_config (max_retries : Z) (fallbacks : option (list Z)) : CrawlerConfig :=
  {| chain_config := dingo_chain; max_concurrent := 100;
     connection_timeout := 10; extended_timeout := 30;
     max_retries := max_retries; initial_retry_delay := 1;
     retry_backoff_multiplier := 2; getaddr_delay_ms := 100;
     fallback_protocol_versions := fallbacks; require_version_for_save := false |}.

(** A peer that is not there: the connect is refused. *)
Definition refusing_peer (t : Q) : peer :=
  {| start_clock := t; connecting := Raise ConnectionRefusedError;
     reads := []; drain_error := fun _ => None |}.

(** A peer that accepts the connection after 50 ms and then sends nothing. *)
Definition mute_peer (t : Q) : peer :=
  {| start_clock := t; connecting := Ok (1 # 20)%Q;
     reads := []; drain_error := fun _ => None |}.


(** A peer that answers the version message with its own version and a
    verack, and the getaddr message with the given addresses. *)
Definition talking_peer (t : Q) (addrs : list (N * N * N * N * Z)) : peer :=
  {| start_clock := t; connecting := Ok (1 # 20)%Q;
     reads :=
       [RData (1 # 10)%Q
          (frame (magic_bytes dingo_chain) "version"
             (version_payload (VersionPayload.mk 70015 1 4000000 "/Dingocoin:1.18.0/"))
           ++ frame (magic_bytes dingo_chain) "verack" [])%list;
        RData (1 # 10)%Q (frame (magic_bytes dingo_chain) "addr" (addr_payload addrs))];
     drain_error := fun _ => None |}.

(** What a dial that returned [x] is counted as when it is the last one. *)
Definition reachable_or_none (x : option NodeInfo) : option NodeInfo :=
  if has_status "reachable" x then x else None.

(** No call of the log returned status "up". *)
Definition no_up (log : list dial_call) : bool :=
  forallb (fun c => negb (has_status "up" (dial_returned c))) log.

(** What the last call of the log returned ([None] before any call). *)
Definition last_returned (log : list dial_call) : option NodeInfo :=
  match last log with
  | Some c => dial_returned c
  | None => None
  end.

(** An entry of [self.nodes] for the examples: a node that answered the
    handshake earlier. *)
Definition seen_up_node : NodeInfo :=
  {| NodeInfo.ip := "198.51.100.5"; NodeInfo.port := 33117;
     NodeInfo.version := Some "/Dingocoin:1.18.0/";
     NodeInfo.protocol_version := Some 70015; NodeInfo.services := Some 1;
     NodeInfo.start_height := Some 4000000;
     NodeInfo.user_agent := Some "/Dingocoin:1.18.0/";
     NodeInfo.latency_ms := Some 150%Q; NodeInfo.status := "up";
     NodeInfo.first_seen := datetime_now_utc 0; NodeInfo.last_seen := datetime_now_utc 0;
     NodeInfo.times_seen := 1;
     NodeInfo.peers := [NetAddr.mk "203.0.113.7" 33117 0 0] |}.

(** What holds of the keys all along a pass: [_connect_and_handshake] was
    called at most once per key; the tasks of a batch have distinct keys; a
    key for which it was called is in [crawled] or is being dialed by a
    task; a task past the test of [crawled] has a key that is not in
    [crawled]; and [pending] holds keys written by [_node_key]. *)
Definition keys_invariant (ps : pass) : Prop :=
  NoDup (handshakes ps) /\
  NoDup (task_key <$> tasks ps) /\
  (forall k, k ∈ handshakes ps ->
     k ∈ crawled (crawler ps) \/
     exists i t, tasks ps !! i = Some t /\ task_key t = k /\ task_phase t = Dialing) /\
  (forall i t, tasks ps !! i = Some t ->
     task_phase t = Waiting \/ task_phase t = Dialing ->
     task_key t ∉ crawled (crawler ps)) /\
  (forall k, k ∈ pending (crawler ps) -> is_node_key k).

(** A pass for the examples: one retry, the single key 198.51.100.99:1 in
    [pending], and the peers [net] behind that address. [solo_end net] is
    the pass once the only task has run; [refused_end] is the case of a
    target that refuses every connection. *)
Definition refused_config : CrawlerConfig := dingo_config 1 None.

Definition refused_start : Crawler := mk_Crawler ∅ {[ "198.51.100.99:1" ]} ∅ ∅.

Definition solo_end (net : nat -> peer) : pass :=
  let c := fst (crawl_begin "198.51.100.99:1" refused_start) in
  let c := crawl_acquired c in
  let run := _connect_and_handshake (dial_peers refused_config net)
               refused_config "198.51.100.99" 1 in
  mk_pass (crawl_record None 0 "198.51.100.99" 1 (fst run)
             (stats_add "peers_from_p2p" (retry_peers_from_p2p (snd run)) c))
          [mk_task "198.51.100.99" 1 Done] 100 ["198.51.100.99:1"]
          (dial_log (snd run)).

Definition refused_end : pass := solo_end (fun _ => refusing_peer 0).

(** A second pass for the examples: two keys in [pending]; the first peer
    answers and advertises the second one. *)
Definition duo_start : Crawler :=
  mk_Crawler ∅ {[ "198.51.100.5:33117"; "203.0.113.7:33117" ]} ∅ ∅.

(** Every entry of [nodes] with status "up" carries version data. *)
Definition up_nodes_versioned (c : Crawler) : Prop :=
  forall k n, nodes c !! k = Some n -> NodeInfo.status n = "up" -> versioned n.

(** The number of dials [_connect_and_handshake] can make: one per attempt
    and protocol version. *)
Definition dial_bound (config : CrawlerConfig) : nat :=
  (Z.to_nat (max_retries config + 1) *
   S (length (default [] (fallback_protocol_versions config))))%nat.

(** The calls of the dialer made for the key [k]. *)
Definition dials_for (k : string) (log : list dial_call) : list dial_call :=
  filter (fun c => dial_key c = k) log.

(** The calls made by one run of the loops: as many as protocol versions and
    attempts at most, all for the target of the run. *)
Definition new_dials_ok (ip : string) (port : Z) (bound : nat) (st : retry)
    (o : option NodeInfo * retry + retry) : Prop :=
  match o with
  | inl (_, st') | inr st' =>
      exists new, dial_log st' = (dial_log st ++ new)%list /\
                  (length new <= bound)%nat /\
                  Forall (fun c => dial_key c = _node_key ip port) new
  end.

(** * The rest of the crawler

    The seeders other than the database one, the RPC client, the parsing of
    versions and the flush to the store, together with the predicates that
    the last part of the file states its properties with. CPython refuses to
    convert between [int] and [str] past 4300 digits and the embedding does
    not: the properties that print or parse a number bound it (a port is
    below 65536, a component of a version below 10^9). *)

(** The decimal numeral of a natural number, as [str] prints it. *)
Definition decimal (n : N) : string := NilZero.string_of_uint (N.to_uint n).

(** A version number as it is usually written: the decimal numerals of its
    components joined by dots. *)
Fixpoint dotted (l : list N) : string :=
  match l with
  | [] => EmptyString
  | [n] => decimal n
  | n :: l' => decimal n +:+ "." +:+ dotted l'
  end.

(** A character that [_normalize_version] looks at: a digit or the dot. *)
Definition digit_or_dot (c : ascii) : bool := Py.isdigit c || Ascii.eqb c ".".

(** The key under which [_seed_from_database] files a row, when it does not
    skip it. *)
Definition db_row_key (p2p_port : Z) (node : db_node) : option string :=
  match db_ip node with
  | None => None
  | Some ip =>
      if String.eqb ip EmptyString then None
      else Some (_node_key ip (default p2p_port (db_port node)))
  end.

(** [self.stats[k]], a counter that was never written reading 0. *)
Definition stat (k : string) (c : Crawler) : Z := default 0 (stats c !! k).

(** The back-off slept before attempt number [attempt] (the first attempt
    is number 0 and is not delayed). *)
Definition backoff_delay (config : CrawlerConfig) (attempt : nat) : Q :=
  (initial_retry_delay config * retry_backoff_multiplier config ^ (Z.of_nat attempt - 1))%Q.

(** [protocol_versions] of [_connect_and_handshake]. *)
Definition protocol_versions (config : CrawlerConfig) : list Z :=
  protocol_version (chain_config config) :: default [] (fallback_protocol_versions config).

(** The number of attempts, [len(range(max_retries + 1))]. *)
Definition attempts (config : CrawlerConfig) : nat := Z.to_nat (max_retries config + 1).

(** The loops stop at the first dial that returns status "up". *)
Definition stops_at_up (o : option NodeInfo * retry + retry) : Prop :=
  match o with
  | inl (r, st) =>
      exists pre c, dial_log st = (pre ++ [c])%list /\ no_up pre = true /\
                    r = dial_returned c /\ has_status "up" r = true
  | inr st => no_up (dial_log st) = true
  end.

(** What holds of the calls of the dialer made by [_connect_and_handshake]
    for the target [ip], [port]. *)
Definition dial_params_ok (config : CrawlerConfig) (ip : string) (port : Z)
    (log : list dial_call) : Prop :=
  (forall i c, log !! i = Some c ->
     dialed_ip c = ip /\ dialed_port c = port /\
     dialed_protocol_version c ∈ protocol_versions config /\
     (dialed_timeout c = connection_timeout config \/
      (dialed_timeout c = extended_timeout config /\
       exists j prev, i = S j /\ log !! j = Some prev /\
                      has_status "reachable" (dial_returned prev) = true))) /\
  (forall c, log !! 0%nat = Some c ->
     dialed_protocol_version c = protocol_version (chain_config config) /\
     dialed_timeout c = connection_timeout config).

#[global] Instance phase_eq_decision : EqDecision phase.
Proof. solve_decision. Defined.

(** The tasks of the batch that hold a slot of the semaphore. *)
Definition dialing (ts : list task) : nat :=
  length (filter (fun t => task_phase t = Dialing) ts).

(** A status that [_crawl_node] writes: the node answered the handshake,
    accepted the connection only, or could not be reached. *)
Definition settled (n : NodeInfo) : Prop :=
  NodeInfo.status n = "up" \/ NodeInfo.status n = "reachable" \/ NodeInfo.status n = "down".

(** The key [k] is still to be crawled or has been crawled: it waits in
    [pending], is in [crawled], or belongs to a task that is past the test
    of [crawled] and has not finished. *)
Definition accounted (k : string) (ps : pass) : Prop :=
  k ∈ pending (crawler ps) \/ k ∈ crawled (crawler ps) \/
  exists i t, tasks ps !! i = Some t /\ task_key t = k /\
              (task_phase t = Waiting \/ task_phase t = Dialing).

(** The loop of [_crawl_pending] has ended: nothing is pending and every
    task of the last batch has returned. *)
Definition pass_over (ps : pass) : Prop :=
  pending (crawler ps) = ∅ /\ Forall (fun t => task_phase t = Done) (tasks ps).

(** What the counters and the semaphore satisfy all along a pass that
    started from the crawler [c]. *)
Definition counters_invariant (config : CrawlerConfig) (c : Crawler) (ps : pass) : Prop :=
  stat "connections_attempted" (crawler ps)
    = stat "connections_attempted" c + Z.of_nat (length (handshakes ps)) /\
  stat "connections_attempted" (crawler ps) - stat "connections_attempted" c
    = (stat "connections_successful" (crawler ps) - stat "connections_successful" c)
      + (stat "connections_failed" (crawler ps) - stat "connections_failed" c)
      + Z.of_nat (dialing (tasks ps)) /\
  permits ps + Z.of_nat (dialing (tasks ps)) = max_concurrent config /\
  (length (tasks ps) <= Z.to_nat (max_concurrent config))%nat.

(** What holds of the entry that the handshake fills in, all along the loop
    that parses the version answer: it is for the target, and once a
    version message has been read it carries the data of that message. *)
Definition handshake_ok (ip : string) (port : Z) (h : handshake) : Prop :=
  NodeInfo.ip (node_info h) = ip /\ NodeInfo.port (node_info h) = port /\
  NodeInfo.times_seen (node_info h) = 1 /\ NodeInfo.peers (node_info h) = [] /\
  NodeInfo.status (node_info h) = "pending" /\
  if received_version h then
    is_Some (NodeInfo.protocol_version (node_info h)) /\
    is_Some (NodeInfo.services (node_info h)) /\
    is_Some (NodeInfo.start_height (node_info h)) /\
    is_Some (NodeInfo.user_agent (node_info h)) /\
    NodeInfo.version (node_info h) = NodeInfo.user_agent (node_info h)
  else
    NodeInfo.protocol_version (node_info h) = None /\
    NodeInfo.services (node_info h) = None /\
    NodeInfo.start_height (node_info h) = None /\
    NodeInfo.user_agent (node_info h) = None /\
    NodeInfo.version (node_info h) = None.

(** The version fields of a node entry are all unset. *)
Definition unversioned (n : NodeInfo) : Prop :=
  NodeInfo.version n = None /\ NodeInfo.protocol_version n = None /\
  NodeInfo.services n = None /\ NodeInfo.start_height n = None /\
  NodeInfo.user_agent n = None.

(** The version fields of a node entry are all set, as [capture_version]
    leaves them. *)
Definition fully_versioned (n : NodeInfo) : Prop :=
  is_Some (NodeInfo.protocol_version n) /\ is_Some (NodeInfo.services n) /\
  is_Some (NodeInfo.start_height n) /\ is_Some (NodeInfo.user_agent n) /\
  NodeInfo.version n = NodeInfo.user_agent n.

(** What one dial returns and what it has written on the socket. *)
Definition dial_conduct `{Protocol} (config : CrawlerConfig) (ip : string) (port : Z)
    (protocol_version : Z) (timeout : Q) (p : peer) : Prop :=
  let cc := chain_config config in
  let version_msg :=
    create_version_message (replace_protocol_version cc protocol_version) ip port 0 in
  match _try_connect_with_protocol config ip port protocol_version timeout p with
  | (r, None) => returned r = None /\ peers_from_p2p r = 0
  | (r, Some s) =>
      closed s = true /\
      exists d rest,
        connecting p = Ok d /\ Qltb d timeout = true /\
        sent s = version_msg :: rest /\
        match returned r with
        | None => peers_from_p2p r = 0
        | Some n =>
            NodeInfo.ip n = ip /\ NodeInfo.port n = port /\ NodeInfo.times_seen n = 1 /\
            ((NodeInfo.status n = "reachable" /\ unversioned n /\ NodeInfo.peers n = [] /\
              NodeInfo.latency_ms n = Some (((start_clock p + d) - start_clock p) * 1000)%Q /\
              peers_from_p2p r = 0 /\ rest = []) \/
             (NodeInfo.status n = "up" /\ fully_versioned n /\
              peers_from_p2p r = Z.of_nat (length (NodeInfo.peers n)) /\
              exists k, rest = (replicate (S k) (create_verack_message cc)
                                ++ [create_getaddr_message cc])%list))
        end
  end.

Module PyMore.

(** [s[n:]] for [n >= 0] *)
Fixpoint drop (n : nat) (s : string) : string :=
  match n, s with
  | O, _ => s
  | S n, String _ s' => drop n s'
  | S _, EmptyString => EmptyString
  end.

(** [s[:n]] for [n >= 0] *)
Fixpoint take (n : nat) (s : string) : string :=
  match n, s with
  | O, _ => EmptyString
  | S n, String c s' => String c (take n s')
  | S _, EmptyString => EmptyString
  end.

(** [s.find(c)] for a one-character [c]; [None] stands for -1. *)
Fixpoint find (c : ascii) (s : string) : option nat :=
  match s with
  | EmptyString => None
  | String d s' => if Ascii.eqb d c then Some O else S <$> find c s'
  end.

(** [s.count(c)] for a one-character [c]. *)
Fixpoint count (c : ascii) (s : string) : nat :=
  match s with
  | EmptyString => O
  | String d s' => ((if Ascii.eqb d c then 1 else 0) + count c s')%nat
  end.

(** [s.rsplit(sep, 1)] for a separator of one character or more, when it
    gives two parts; [None] when [sep] does not occur. *)
Fixpoint rsplit1 (sep : string) (s : string) : option (string * string) :=
  match s with
  | EmptyString => None
  | String c s' =>
      match rsplit1 sep s' with
      | Some (a, b) => Some (String c a, b)
      | None =>
          if Py.startswith sep s then Some (EmptyString, drop (String.length sep) s)
          else None
      end
  end.

End PyMore.

(** A value decoded from JSON by [resp.json()]. An object is the list of
    its members, a key being looked up from the front. *)
#[local] Unset Elimination Schemes.
Inductive json : Type :=
  | JNull
  | JBool (b : bool)
  | JInt (n : Z)
  | JFloat (q : Q)
  | JStr (s : string)
  | JList (l : list json)
  | JDict (members : list (string * json)).
#[local] Set Elimination Schemes.

(** [d.get(k)] on the members of an object. *)
Definition dict_get (k : string) (members : list (string * json)) : option json :=
  snd <$> List.find (fun m => String.eqb (fst m) k) members.

(** [bool(v)] *)
Definition truthy (v : json) : bool :=
  match v with
  | JNull => false
  | JBool b => b
  | JInt n => negb (n =? 0)%Z
  | JFloat q => negb (Qeq_bool q 0)
  | JStr s => negb (String.eqb s EmptyString)
  | JList l => match l with [] => false | _ => true end
  | JDict members => match members with [] => false | _ => true end
  end.

(** [v == n] for an integer [n]. *)
Definition json_eq_int (v : json) (n : Z) : bool :=
  match v with
  | JInt m => (m =? n)%Z
  | JFloat q => Qeq_bool q (inject_Z n)
  | JBool b => (Z.b2z b =? n)%Z
  | _ => false
  end.

(** The body of the [try] of [RPCClient.call] once [resp.json()] has
    returned [data]. A body that is not an object makes the test
    ["error" in data], the indexing or [.get] raise, a [TypeError] or an
    [AttributeError]; [call] catches either. *)
Definition call_body (method : string) (data : json) : result json :=
  match data with
  | JDict members =>
      let error := dict_get "error" members in
      if match error with Some e => truthy e | None => false end then
        let error_code :=
          match error with
          | Some (JDict e) => dict_get "code" e
          | _ => None
          end in
        if match error_code with Some v => json_eq_int v (-24) | None => false end
           && String.eqb method "getaddednodeinfo"
        then Ok (JList [])
        else Raise OtherException
      else Ok (default (JDict []) (dict_get "result" members))
  | _ => Raise TypeError
  end.

(** [RPCClient.call]; [http] is what the POST and [resp.json()] give, an
    exception standing for any failure of the exchange. *)
Definition call (method : string) (http : result json) : json :=
  try_except (data ← http; call_body method data) (fun _ => JDict []).

Definition getpeerinfo (http : result json) : list json :=
  match call "getpeerinfo" http with
  | JList l => l
  | _ => []
  end.

Definition getaddednodeinfo (http : result json) : list json :=
  match call "getaddednodeinfo" http with
  | JList l => l
  | _ => []
  end.

(** [isinstance(result, int)] holds of integers and of booleans. *)
Definition getconnectioncount (http : result json) : Z :=
  match call "getconnectioncount" http with
  | JInt n => n
  | JBool b => Z.b2z b
  | _ => 0
  end.

Definition test_connection (http : result json) : bool :=
  try_except (count ← Ok (getconnectioncount http); Ok true) (fun _ => false).

(** [ip, port = addr.rsplit("]:", 1); ip = ip[1:]] or
    [ip, port = addr.rsplit(":", 1)]; the unpacking raises [ValueError] when
    the separator does not occur. *)
Definition split_endpoint (addr : string) : result (string * string) :=
  if Py.startswith "[" addr then
    match PyMore.rsplit1 "]:" addr with
    | Some (ip, port) => Ok (PyMore.drop 1 ip, port)
    | None => Raise ValueError
    end
  else
    match Py.rsplit1 ":" addr with
    | Some (ip, port) => Ok (ip, port)
    | None => Raise ValueError
    end.

(** The body of a loop over the entries that carry an address under [key]:
    [Ok (Some (ip, port))] when a pair is appended, [Ok None] when the entry
    is passed over, an exception otherwise. *)
Definition entry_endpoint (key : string) (entry : json) : result (option (string * Z)) :=
  match entry with
  | JDict members =>
      match default (JStr EmptyString) (dict_get key members) with
      | JStr addr =>
          if Py.contains ":" addr then
            p ← split_endpoint addr;
            Ok (match Py.int (snd p) with
                | Some port => Some (fst p, port)
                | None => None
                end)
          else Ok None
      | JList l =>
          if existsb (fun v => match v with JStr s => String.eqb s ":" | _ => false end) l
          then Raise AttributeError else Ok None
      | JDict m =>
          match dict_get ":" m with
          | Some _ => Raise AttributeError
          | None => Ok None
          end
      | _ => Raise TypeError
      end
  | _ => Raise AttributeError
  end.

(** The loop over [peer_info]: an exception leaves the function. *)
Fixpoint peers_loop (peer_info : list json) (peers : list (string * Z))
    : result (list (string * Z)) :=
  match peer_info with
  | [] => Ok peers
  | peer :: rest =>
      match entry_endpoint "addr" peer with
      | Raise e => Raise e
      | Ok (Some p) => peers_loop rest (peers ++ [p])
      | Ok None => peers_loop rest peers
      end
  end.

(** [for x in v] *)
Definition iter_json (v : json) : result (list json) :=
  match v with
  | JList l => Ok l
  | JStr s => Ok ((fun c => JStr (String c EmptyString)) <$> list_ascii_of_string s)
  | JDict members => Ok ((fun m => JStr (fst m)) <$> members)
  | _ => Raise TypeError
  end.

(** The loop over the addresses of one added node; the boolean tells whether
    it ended without an exception. *)
Fixpoint addresses_loop (infos : list json) (peers : list (string * Z))
    : list (string * Z) * bool :=
  match infos with
  | [] => (peers, true)
  | addr_info :: rest =>
      match entry_endpoint "address" addr_info with
      | Raise _ => (peers, false)
      | Ok (Some p) => addresses_loop rest (peers ++ [p])
      | Ok None => addresses_loop rest peers
      end
  end.

(** The loop over [added_nodes], inside its [try]: an exception ends it and
    keeps what was appended. *)
Fixpoint added_loop (added_nodes : list json) (peers : list (string * Z))
    : list (string * Z) :=
  match added_nodes with
  | [] => peers
  | node :: rest =>
      match node with
      | JDict members =>
          if truthy (default JNull (dict_get "connected" members)) then
            match iter_json (default (JList []) (dict_get "addresses" members)) with
            | Raise _ => peers
            | Ok infos =>
                match addresses_loop infos peers with
                | (peers, true) => added_loop rest peers
                | (peers, false) => peers
                end
            end
          else added_loop rest peers
      | _ => peers
      end
  end.

(** [get_all_peers]; the arguments are the outcomes of the two HTTP
    exchanges. [list(set(peers))] keeps one copy of each pair, in an order
    that Python does not specify; the first occurrences are kept here. *)
Definition get_all_peers (peerinfo addednodeinfo : result json)
    : result (list (string * Z)) :=
  peers ← peers_loop (getpeerinfo peerinfo) [];
  Ok (remove_dups (added_loop (getaddednodeinfo addednodeinfo) peers)).

(** What the node answers to the three calls of a pass. *)
Record rpc_answers : Type := mk_rpc_answers {
  ans_connectioncount : result json;
  ans_peerinfo : result json;
  ans_addednodeinfo : result json
}.

(** One iteration of the loop of [_seed_from_rpc]. *)
Definition seed_rpc_peer (node_env : option string) (c : Crawler) (peer : string * Z)
    : Crawler :=
  if _is_valid_ip node_env (fst peer)
  then stats_add "peers_from_rpc" 1
         (set_pending (fun p => {[_node_key (fst peer) (snd peer)]} ∪ p) c)
  else c.

(** [_seed_from_rpc]; [rpc] is [None] when no RPC client is configured. *)
Definition _seed_from_rpc (node_env : option string) (rpc : option rpc_answers)
    (c : Crawler) : Crawler :=
  match rpc with
  | None => c
  | Some answers =>
      if negb (test_connection (ans_connectioncount answers)) then c
      else
        match get_all_peers (ans_peerinfo answers) (ans_addednodeinfo answers) with
        | Raise _ => c
        | Ok rpc_peers => fold_left (seed_rpc_peer node_env) rpc_peers c
        end
  end.

(** [_resolve_dns_seeds]; [lookups] holds, for each entry of
    [chain_config.dns_seeds] in turn, the addresses that
    [socket.gethostbyname_ex] returned ([addrs[2]]) or the exception it
    raised. *)
Definition _resolve_dns_seeds (node_env : option string)
    (lookups : list (result (list string))) : list string :=
  flat_map (fun lookup =>
              match lookup with
              | Ok addrs => List.filter (_is_valid_ip node_env) addrs
              | Raise _ => []
              end) lookups.

(** [_seed_from_dns] *)
Definition _seed_from_dns (node_env : option string) (p2p_port : Z)
    (lookups : list (result (list string))) (c : Crawler) : Crawler :=
  fold_left
    (fun c ip => stats_add "peers_from_dns" 1
                   (set_pending (fun p => {[_node_key ip p2p_port]} ∪ p) c))
    (_resolve_dns_seeds node_env lookups) c.

(** The parsing of one entry of [seed_nodes]: [Ok None] stands for
    [continue], an exception for what the [except] of the loop catches. *)
Definition parse_seed_node (p2p_port : Z) (node_addr : string)
    : result (option (string * Z)) :=
  if Py.startswith "[" node_addr then
    match PyMore.find "]" node_addr with
    | None => Ok None
    | Some bracket_end =>
        let ip := PyMore.take (bracket_end - 1) (PyMore.drop 1 node_addr) in
        let port_str := PyMore.drop (bracket_end + 1) node_addr in
        if Py.startswith ":" port_str then
          match Py.int (PyMore.drop 1 port_str) with
          | Some port => Ok (Some (ip, port))
          | None => Raise ValueError
          end
        else Ok (Some (ip, p2p_port))
    end
  else if Py.contains ":" node_addr && (PyMore.count ":" node_addr =? 1)%nat then
    match Py.rsplit1 ":" node_addr with
    | Some (ip, port_str) =>
        match Py.int port_str with
        | Some port => Ok (Some (ip, port))
        | None => Raise ValueError
        end
    | None => Raise ValueError
    end
  else if Py.contains ":" node_addr then Ok (Some (node_addr, p2p_port))
  else Ok (Some (node_addr, p2p_port)).

(** One iteration of the loop of [_seed_from_config]. *)
Definition seed_config_node (node_env : option string) (p2p_port : Z) (c : Crawler)
    (node_addr : string) : Crawler :=
  match parse_seed_node p2p_port node_addr with
  | Ok (Some (ip, port)) =>
      if _is_valid_ip node_env ip then
        let key := _node_key ip port in
        if negb (bool_decide (key ∈ crawled c)) && negb (bool_decide (key ∈ pending c))
        then stats_add "peers_from_config" 1 (set_pending (fun p => {[key]} ∪ p) c)
        else c
      else c
  | Ok None => c
  | Raise _ => c
  end.

(** [_seed_from_config]; [seed_nodes] is [chain_config.seed_nodes], [None]
    or empty when none is configured. *)
Definition _seed_from_config (node_env : option string) (p2p_port : Z)
    (seed_nodes : option (list string)) (c : Crawler) : Crawler :=
  match seed_nodes with
  | None => c
  | Some l => fold_left (seed_config_node node_env p2p_port) l c
  end.

(** The start of [run_single_pass]: the state of the last pass is dropped
    and the five discovery counters are set to 0; the other counters keep
    their values. The entry [started_at] of [stats], a date, is left out. *)
Definition reset_pass (c : Crawler) : Crawler :=
  mk_Crawler ∅ ∅ ∅
    (<["peers_from_db" := 0]>
       (<["peers_from_p2p" := 0]>
          (<["peers_from_config" := 0]>
             (<["peers_from_dns" := 0]>
                (<["peers_from_rpc" := 0]> (stats c)))))).

(** What a pass finds around it: the rows of the store, the answers of the
    local node when an RPC client is configured, the reachability test of
    [_test_address_reachable], the DNS lookups and the configured seeds. *)
Record surroundings : Type := mk_surroundings {
  sur_now : Q;
  sur_fromisoformat : string -> result datetime;
  sur_db_nodes : result (list db_node);
  sur_rpc : option (rpc_answers * result (option network_info));
  sur_reachable : string -> Z -> bool;
  sur_lookups : list (result (list string));
  sur_seed_nodes : option (list string)
}.

(** [run_single_pass] up to the test [if not self.pending]: the reset and
    the five seeders, in the order of the source. *)
Definition seed_pass (config : CrawlerConfig) (node_env : option string)
    (w : surroundings) (c : Crawler) : Crawler :=
  let p2p_port := p2p_port (chain_config config) in
  let c := reset_pass c in
  let c := _seed_from_database (sur_fromisoformat w) (sur_now w) p2p_port (sur_db_nodes w) c in
  let c := _seed_from_rpc node_env (fst <$> sur_rpc w) c in
  let c := _mark_rpc_node_as_up (sur_reachable w) (sur_now w) (snd <$> sur_rpc w) c in
  let c := _seed_from_dns node_env p2p_port (sur_lookups w) c in
  _seed_from_config node_env p2p_port (sur_seed_nodes w) c.

(** The key that [_seed_from_rpc] admits for a peer, when it admits one. *)
Definition rpc_peer_key (node_env : option string) (peer : string * Z) : option string :=
  if _is_valid_ip node_env (fst peer) then Some (_node_key (fst peer) (snd peer)) else None.

(** The target that [_seed_from_config] reads from an entry of
    [seed_nodes], when the entry parses and names an address that
    [_is_valid_ip] accepts. *)
Definition config_seed_key (node_env : option string) (p2p_port : Z) (node_addr : string)
    : option string :=
  match parse_seed_node p2p_port node_addr with
  | Ok (Some (ip, port)) =>
      if _is_valid_ip node_env ip then Some (_node_key ip port) else None
  | _ => None
  end.

(** What the crawler satisfies once the five seeders have run. *)
Definition seeded (c : Crawler) : Prop :=
  (forall k, k ∈ pending c -> is_node_key k) /\
  dom (nodes c) = crawled c /\
  (size (nodes c) <= 1)%nat /\
  (forall k n, nodes c !! k = Some n -> NodeInfo.status n = "up").

(** What a seeder leaves of the crawler it found, but for the keys it adds
    to [pending] and its own counter. *)
Definition seeder_frame (counter : string) (c c' : Crawler) : Prop :=
  (forall k, k ∈ pending c' -> k ∈ pending c \/ is_node_key k) /\
  nodes c' = nodes c /\ crawled c' = crawled c /\
  (forall k, k <> counter -> stats c' !! k = stats c !! k).

(** The keys handed to [_connect_and_handshake] account for what the pass
    added to [crawled]. *)
Definition handshakes_ledger (c : Crawler) (ps : pass) : Prop :=
  (forall i t, tasks ps !! i = Some t -> task_phase t = Dialing ->
     task_key t ∈ handshakes ps) /\
  crawled (crawler ps) ⊆ crawled c ∪ list_to_set (handshakes ps) /\
  crawled c ⊆ crawled (crawler ps) /\
  (forall k, k ∈ crawled c -> k ∉ handshakes ps).

(** The dict returned by [_parse_version]; [client_name] is [None] when the
    group that holds it did not take part in the match. *)
Record version_info : Type := mk_version_info {
  client_name : option string;
  client_version : string;
  version_major : Z;
  version_minor : Z;
  version_patch : Z
}.

(** [int(parts[i]) if len(parts) > i else 0] *)
Definition version_part (parts : list string) (i : nat) : result Z :=
  match parts !! i with
  | Some p =>
      match Py.int p with
      | Some n => Ok n
      | None => Raise ValueError
      end
  | None => Ok 0
  end.

(** [_parse_version]. [re_search s] stands for
    [re.search(self.chain_config.user_agent_pattern, s)]: [None] when the
    pattern does not match, else [match.groups()], a group that did not take
    part in the match being [None]. [IndexError] is [OtherException]
    here. *)
Definition _parse_version (re_search : string -> option (list (option string)))
    (chain_name : string) (user_agent : string) : result version_info :=
  match re_search user_agent with
  | Some groups =>
      g ← (if (2 <=? length groups)%nat then
             match groups with
             | g0 :: g1 :: _ => Ok (g0, g1)
             | _ => Raise OtherException
             end
           else
             match groups with
             | g0 :: _ => Ok (Some chain_name, g0)
             | [] => Raise OtherException
             end);
      match snd g with
      | None => Raise AttributeError
      | Some version =>
          let parts := Py.split "." version in
          major ← version_part parts 0;
          minor ← version_part parts 1;
          patch ← version_part parts 2;
          Ok (mk_version_info (fst g) version major minor patch)
      end
  | None => Ok (mk_version_info (Some "Unknown") user_agent 0 0 0)
  end.

(** [_get_current_version]: [self._dynamic_current_version or
    self.chain_config.current_version]. *)
Definition _get_current_version (dynamic : option string) (cc : ChainConfig) : string :=
  match dynamic with
  | Some v => if String.eqb v EmptyString then current_version cc else v
  | None => current_version cc
  end.

(** The keys that [_save_to_database] copies from the answer of the GeoIP
    lookup. *)
Definition geo_keys : list string :=
  ["country_code"; "country_name"; "region"; "city"; "latitude"; "longitude";
   "timezone"; "isp"; "org"; "asn"; "asn_org"].

(** The row handed to [db.upsert_node]. [nd_geo] holds, for each key of
    [geo_keys], what [geo.get(key)] gave; the two dates are kept as they
    are, their ISO text is not modelled. *)
Record node_data : Type := mk_node_data {
  nd_ip : string;
  nd_port : Z;
  nd_chain : string;
  nd_version : option string;
  nd_protocol_version : option Z;
  nd_services : option Z;
  nd_start_height : option Z;
  nd_client_name : option string;
  nd_client_version : string;
  nd_version_major : Z;
  nd_version_minor : Z;
  nd_version_patch : Z;
  nd_is_current_version : bool;
  nd_geo : list (string * option json);
  nd_status : string;
  nd_latency_ms : option Q;
  nd_last_seen : datetime;
  nd_first_seen : datetime;
  nd_times_seen : Z
}.

(** The arguments of [db.create_node_snapshot]. *)
Record node_snapshot : Type := mk_node_snapshot {
  sn_node_id : json;
  sn_is_online : bool;
  sn_response_time_ms : option Q;
  sn_block_height : option Z
}.

(** What one iteration of the loop of [_save_to_database] does with a
    node: it passes it over for want of version data; an exception, which
    it logs, ends the iteration before [db.upsert_node] has returned; it
    writes the row and gets no id back; or it writes the row and asks for a
    snapshot under the id it got. *)
Inductive save_outcome : Type :=
  | Skipped
  | Failed (e : exn)
  | Upserted (row : node_data)
  | Snapshotted (row : node_data) (snapshot : node_snapshot).

(** [not node.user_agent or not node.protocol_version] *)
Definition lacks_version (node : NodeInfo) : bool :=
  match NodeInfo.user_agent node with
  | Some ua => String.eqb ua EmptyString
  | None => true
  end
  || match NodeInfo.protocol_version node with
     | Some v => (v =? 0)%Z
     | None => true
     end.

(** What surrounds the flush: the chain name of the configuration
    ([config.chain]), the pattern matcher, the GeoIP lookup (the members of
    the dict it returns), the store (what [upsert_node] answers for a row)
    and the version fetched from the web API, if any. *)
Record flush_surroundings : Type := mk_flush_surroundings {
  fl_chain : string;
  fl_re_search : string -> option (list (option string));
  fl_geoip_lookup : string -> result (list (string * json));
  fl_upsert_node : node_data -> result json;
  fl_dynamic_current_version : option string
}.

(** The row built for a node, up to the call of [db.upsert_node]. *)
Definition build_row (config : CrawlerConfig) (w : flush_surroundings) (node : NodeInfo)
    : result node_data :=
  geo ← fl_geoip_lookup w (NodeInfo.ip node);
  version_info ← _parse_version (fl_re_search w) (name (chain_config config))
                    (default EmptyString (NodeInfo.user_agent node));
  let current_version :=
    _get_current_version (fl_dynamic_current_version w) (chain_config config) in
  let node_version := client_version version_info in
  is_current ← match _versions_match node_version current_version with
               | Some b => Ok b
               | None => Raise ValueError
               end;
  Ok {| nd_ip := NodeInfo.ip node;
        nd_port := NodeInfo.port node;
        nd_chain := fl_chain w;
        nd_version := NodeInfo.user_agent node;
        nd_protocol_version := NodeInfo.protocol_version node;
        nd_services := NodeInfo.services node;
        nd_start_height := NodeInfo.start_height node;
        nd_client_name := client_name version_info;
        nd_client_version := client_version version_info;
        nd_version_major := version_major version_info;
        nd_version_minor := version_minor version_info;
        nd_version_patch := version_patch version_info;
        nd_is_current_version := is_current;
        nd_geo := (fun k => (k, dict_get k geo)) <$> geo_keys;
        nd_status := NodeInfo.status node;
        nd_latency_ms := NodeInfo.latency_ms node;
        nd_last_seen := NodeInfo.last_seen node;
        nd_first_seen := NodeInfo.first_seen node;
        nd_times_seen := NodeInfo.times_seen node |}.

(** One iteration of the loop of [_save_to_database]. *)
Definition save_node (config : CrawlerConfig) (w : flush_surroundings) (node : NodeInfo)
    : save_outcome :=
  if require_version_for_save config && lacks_version node then Skipped
  else
    match (row ← build_row config w node;
           node_id ← fl_upsert_node w row;
           Ok (row, node_id)) with
    | Raise e => Failed e
    | Ok (row, node_id) =>
        if truthy node_id then
          let is_online := String.eqb (NodeInfo.status node) "up" in
          Snapshotted row
            {| sn_node_id := node_id;
               sn_is_online := is_online;
               sn_response_time_ms := if is_online then NodeInfo.latency_ms node else None;
               sn_block_height := if is_online then NodeInfo.start_height node else None |}
        else Upserted row
    end.

(** The loop of [_save_to_database]: what it does with every entry of
    [self.nodes]. *)
Definition _save_to_database (config : CrawlerConfig) (w : flush_surroundings)
    (c : Crawler) : gmap string save_outcome :=
  save_node config w <$> nodes c.

(** The row that an outcome wrote, if it wrote one. *)
Definition written (o : save_outcome) : option node_data :=
  match o with
  | Upserted row | Snapshotted row _ => Some row
  | _ => None
  end.

(** An entry without status "up" carries no user agent. *)
Definition only_up_has_user_agent (c : Crawler) : Prop :=
  forall k n, nodes c !! k = Some n -> NodeInfo.status n <> "up" ->
    NodeInfo.user_agent n = None.

(** The configuration of the examples with [require_version_for_save]
    set. *)
Definition strict_config : CrawlerConfig :=
  {| chain_config := dingo_chain; max_concurrent := 100;
     connection_timeout := 10; extended_timeout := 30;
     max_retries := 1; initial_retry_delay := 1;
     retry_backoff_multiplier := 2; getaddr_delay_ms := 100;
     fallback_protocol_versions := None; require_version_for_save := true |}.

(** The example pass over one key, under [strict_config]. *)
Definition strict_end `{Protocol} (net : nat -> peer) : pass :=
  let c := fst (crawl_begin "198.51.100.99:1" refused_start) in
  let c := crawl_acquired c in
  let run := _connect_and_handshake (dial_peers strict_config net)
               strict_config "198.51.100.99" 1 in
  mk_pass (crawl_record None 0 "198.51.100.99" 1 (fst run)
             (stats_add "peers_from_p2p" (retry_peers_from_p2p (snd run)) c))
          [mk_task "198.51.100.99" 1 Done] 100 ["198.51.100.99:1"]
          (dial_log (snd run)).

(** Surroundings of the flush for the examples: a pattern that never
    matches, a GeoIP lookup that knows nothing, a store that answers the
    id 1. *)
Definition plain_flush : flush_surroundings :=
  {| fl_chain := "dingocoin";
     fl_re_search := fun _ => None;
     fl_geoip_lookup := fun _ => Ok [];
     fl_upsert_node := fun _ => Ok (JInt 1);
     fl_dynamic_current_version := None |}.

(** The configuration of the examples with no slot for a dial. *)
Definition stalled_config : CrawlerConfig :=
  {| chain_config := dingo_chain; max_concurrent := 0;
     connection_timeout := 10; extended_timeout := 30;
     max_retries := 1; initial_retry_delay := 1;
     retry_backoff_multiplier := 2; getaddr_delay_ms := 100;
     fallback_protocol_versions := None; require_version_for_save := false |}.

(** A crawler whose only pending key has been crawled already. *)
Definition readmitted_start : Crawler :=
  mk_Crawler ∅ {[ "198.51.100.99:1" ]} {[ "198.51.100.99:1" ]} ∅.

(** The pass over [readmitted_start] once its only task has returned. *)
Definition readmitted_end : pass :=
  mk_pass (fst (crawl_begin "198.51.100.99:1" readmitted_start))
          [mk_task "198.51.100.99" 1 Done] 100 [] [].

(** A peer of another network: it accepts the connection after 50 ms and
    answers with a verack message under the magic bytes f9 be b4 d9. *)
Definition foreign_peer `{Protocol} (t : Q) : peer :=
  {| start_clock := t; connecting := Ok (1 # 20)%Q;
     reads :=
       [RData (1 # 10)%Q
          (create_verack_message
             (mk_ChainConfig "Bitcoin" [Byte.xf9; Byte.xbe; Byte.xb4; Byte.xd9]
                70015 8333 "27.0.0"))];
     drain_error := fun _ => None |}.

(** An answer to [getpeerinfo] with one peer whose address lacks the port. *)
Definition broken_peerinfo : rpc_answers :=
  {| ans_connectioncount := Ok (JDict [("result", JInt 1); ("error", JNull)]);
     ans_peerinfo :=
       Ok (JDict [("result", JList [JDict [("addr", JStr "[2001:db8::1]")]]);
                  ("error", JNull)]);
     ans_addednodeinfo := Ok (JDict [("result", JList []); ("error", JNull)]) |}.

(** * Properties *)

Example normalize_doc_1 : _normalize_version "1.18.0" = Some [1; 18; 0; 0].
Proof. reflexivity. Qed.
Example normalize_doc_2 : _normalize_version "1.16.0.9" = Some [1; 16; 0; 9].
Proof. reflexivity. Qed.
Example normalize_doc_3 : _normalize_version "v1.18.0" = Some [1; 18; 0; 0].
Proof. reflexivity. Qed.
Example normalize_rc : _normalize_version "1.18.0rc1" = Some [1; 18; 1; 0].
Proof. reflexivity. Qed.

Example valid_ip_ex1 : _is_valid_ip None "8.8.8.8" = true.
Proof. reflexivity. Qed.
Example valid_ip_ex2 : _is_valid_ip None (dotted_quad 10 0 0 1) = false.
Proof. reflexivity. Qed.
Example valid_ip_ex3 : _is_valid_ip (Some "development") "10.0.0.1" = true.
Proof. reflexivity. Qed.
Example valid_ip_ex4 : _is_valid_ip None "fd12:3456::1" = true.
Proof. reflexivity. Qed.
Example valid_ip_ex5 : dotted_quad 10 0 0 1 = "10.0.0.1".
Proof. reflexivity. Qed.

(** ** Facts about the string built-ins *)

Lemma string_app_cons c (s t : string) : String c s +:+ t = String c (s +:+ t).
Proof. reflexivity. Qed.

Lemma string_app_nil (t : string) : EmptyString +:+ t = t.
Proof. reflexivity. Qed.

Ltac simpl_app := rewrite ?string_app_cons, ?string_app_nil; simpl.

Lemma rev_onto_rev_onto s a b :
  Py.rev_onto (Py.rev_onto s a) b = Py.rev_onto a (s +:+ b).
Proof.
  revert a b. induction s as [|c s IH]; intros a b; simpl_app.
  - reflexivity.
  - rewrite IH. reflexivity.
Qed.

Lemma string_app_empty_r (s : string) : s +:+ EmptyString = s.
Proof. induction s as [|c s IH]; simpl_app; [reflexivity|]. rewrite IH. reflexivity. Qed.

Lemma srev_involutive s : Py.srev (Py.srev s) = s.
Proof.
  unfold Py.srev. rewrite rev_onto_rev_onto. simpl. apply string_app_empty_r.
Qed.

Lemma all_chars_rev_onto p s a :
  all_chars p (Py.rev_onto s a) = all_chars p s && all_chars p a.
Proof.
  revert a. induction s as [|c s IH]; intros a; simpl.
  - reflexivity.
  - rewrite IH. simpl. destruct (p c), (all_chars p s); reflexivity.
Qed.

Lemma all_chars_app p s t :
  all_chars p (s +:+ t) = all_chars p s && all_chars p t.
Proof.
  induction s as [|c s IH]; simpl_app; [reflexivity|].
  rewrite IH. destruct (p c); reflexivity.
Qed.

Lemma all_chars_impl (p q : ascii -> bool) s :
  (forall c, p c = true -> q c = true) ->
  all_chars p s = true -> all_chars q s = true.
Proof.
  intros Hpq. induction s as [|c s IH]; simpl; [reflexivity|].
  intros [Hc Hs]%andb_prop. rewrite (Hpq _ Hc), (IH Hs). reflexivity.
Qed.

Lemma lstrip_by_none p s :
  all_chars (fun c => negb (p c)) s = true -> Py.lstrip_by p s = s.
Proof.
  destruct s as [|c s]; simpl; [reflexivity|].
  intros [Hc _]%andb_prop. apply negb_true_iff in Hc. rewrite Hc. reflexivity.
Qed.

Lemma rstrip_by_none p s :
  all_chars (fun c => negb (p c)) s = true -> Py.rstrip_by p s = s.
Proof.
  intros H. unfold Py.rstrip_by. rewrite lstrip_by_none.
  - apply srev_involutive.
  - unfold Py.srev. rewrite all_chars_rev_onto, H. reflexivity.
Qed.

Lemma strip_none s :
  all_chars (fun c => negb (Py.isspace c)) s = true -> Py.strip s = s.
Proof.
  intros H. unfold Py.strip. rewrite (lstrip_by_none _ _ H).
  apply rstrip_by_none, H.
Qed.

Lemma isdigit_cases c :
  Py.isdigit c = true ->
  c = "0"%char \/ c = "1"%char \/ c = "2"%char \/ c = "3"%char \/ c = "4"%char \/
  c = "5"%char \/ c = "6"%char \/ c = "7"%char \/ c = "8"%char \/ c = "9"%char.
Proof.
  destruct c as [[] [] [] [] [] [] [] []]; vm_compute; intros H;
    try discriminate H; tauto.
Qed.

Lemma isdigit_not_space c : Py.isdigit c = true -> negb (Py.isspace c) = true.
Proof.
  intros H. destruct (isdigit_cases c H) as [->|[->|[->|[->|[->|[->|[->|[->|[->| ->]]]]]]]]];
    reflexivity.
Qed.

Lemma isdigit_not_char c (x : ascii) :
  Py.isdigit x = false -> Py.isdigit c = true -> Ascii.eqb c x = false.
Proof.
  intros Hx Hc. destruct (Ascii.eqb_spec c x) as [->|]; congruence.
Qed.

Lemma mem_char_digits x s :
  Py.isdigit x = false -> all_chars Py.isdigit s = true -> Py.mem_char x s = false.
Proof.
  intros Hx. induction s as [|c s IH]; simpl; [reflexivity|].
  intros [Hc Hs]%andb_prop. rewrite (IH Hs), orb_false_r.
  rewrite Ascii.eqb_sym. apply isdigit_not_char; assumption.
Qed.

Lemma mem_char_app x s t :
  Py.mem_char x (s +:+ t) = Py.mem_char x s || Py.mem_char x t.
Proof.
  induction s as [|c s IH]; simpl_app; [reflexivity|].
  rewrite IH, orb_assoc. reflexivity.
Qed.

Lemma split_no_sep sep s : Py.mem_char sep s = false -> Py.split sep s = [s].
Proof.
  induction s as [|c s IH]; simpl; [reflexivity|].
  intros [Hc Hs]%orb_false_elim. rewrite Ascii.eqb_sym, Hc, (IH Hs). reflexivity.
Qed.

Lemma split_app sep s t :
  Py.mem_char sep s = false ->
  Py.split sep (s +:+ String sep t) = s :: Py.split sep t.
Proof.
  induction s as [|c s IH]; simpl_app.
  - intros _. rewrite Ascii.eqb_refl. reflexivity.
  - intros [Hc Hs]%orb_false_elim. rewrite Ascii.eqb_sym, Hc, (IH Hs). reflexivity.
Qed.

Lemma string_of_uint_digits d : all_chars Py.isdigit (NilEmpty.string_of_uint d) = true.
Proof. induction d; simpl; auto. Qed.

Lemma int_body_string_of_uint d acc :
  Py.int_body acc (NilEmpty.string_of_uint d) = Some (uint_value d acc).
Proof.
  revert acc. induction d; intros acc; simpl; try reflexivity;
    rewrite IHd; do 2 f_equal;
    match goal with |- context [Py.digit_val ?c] =>
      let v := eval vm_compute in (Py.digit_val c) in
      change (Py.digit_val c) with v
    end; lia.
Qed.

Lemma of_uint_acc_value d p : Z.pos (Pos.of_uint_acc d p) = uint_value d (Z.pos p).
Proof.
  revert p. induction d; intros p; simpl; try reflexivity;
    rewrite IHd; f_equal; lia.
Qed.

Lemma of_uint_value d : Z.of_N (Pos.of_uint d) = uint_value d 0.
Proof.
  induction d; simpl; try reflexivity; try assumption;
    apply of_uint_acc_value.
Qed.

Lemma int_unsigned_digits s :
  s <> EmptyString -> all_chars Py.isdigit s = true ->
  Py.int_unsigned s = Py.int_body 0 s.
Proof.
  destruct s as [|c s]; [congruence|]. simpl.
  intros _ [Hc _]%andb_prop. rewrite Hc. reflexivity.
Qed.

Lemma int_digits s :
  s <> EmptyString -> all_chars Py.isdigit s = true -> Py.int s = Py.int_body 0 s.
Proof.
  intros Hne Hd. unfold Py.int.
  rewrite strip_none by (eapply all_chars_impl; [apply isdigit_not_space | exact Hd]).
  rewrite <- (int_unsigned_digits s Hne Hd).
  destruct s as [|c s]; [congruence|].
  simpl in Hd. apply andb_prop in Hd as [Hc _].
  rewrite (isdigit_not_char c "+" eq_refl Hc), (isdigit_not_char c "-" eq_refl Hc).
  reflexivity.
Qed.

Lemma string_of_uint_nonempty d : d <> Decimal.Nil -> NilEmpty.string_of_uint d <> EmptyString.
Proof. destruct d; simpl; congruence. Qed.

Lemma NilZero_string_of_uint_nonnil d :
  d <> Decimal.Nil -> NilZero.string_of_uint d = NilEmpty.string_of_uint d.
Proof. destruct d; simpl; congruence. Qed.

Lemma N_to_uint_nonnil n : N.to_uint n <> Decimal.Nil.
Proof.
  destruct n; simpl; [discriminate|]. apply DecimalPos.Unsigned.to_uint_nonnil.
Qed.

(** The decimal numeral of a natural number. *)
Lemma decimal_digits n :
  all_chars Py.isdigit (NilZero.string_of_uint (N.to_uint n)) = true.
Proof.
  rewrite NilZero_string_of_uint_nonnil by apply N_to_uint_nonnil.
  apply string_of_uint_digits.
Qed.

Lemma int_decimal n :
  Py.int (NilZero.string_of_uint (N.to_uint n)) = Some (Z.of_N n).
Proof.
  rewrite NilZero_string_of_uint_nonnil by apply N_to_uint_nonnil.
  rewrite int_digits.
  - rewrite int_body_string_of_uint, <- of_uint_value.
    change (Pos.of_uint (N.to_uint n)) with (N.of_uint (N.to_uint n)).
    rewrite DecimalN.Unsigned.of_to. reflexivity.
  - apply string_of_uint_nonempty, N_to_uint_nonnil.
  - apply string_of_uint_digits.
Qed.

(** ** [_normalize_version] *)

Lemma normalize_part_total part : is_Some (normalize_part part).
Proof.
  unfold normalize_part.
  assert (Hd : all_chars Py.isdigit (Py.filter_chars Py.isdigit part) = true).
  { induction part as [|c s IH]; simpl; [reflexivity|].
    destruct (Py.isdigit c) eqn:Hc; simpl; rewrite ?Hc; assumption. }
  destruct (Py.filter_chars Py.isdigit part) as [|c s] eqn:E; [eauto|].
  rewrite int_digits by (congruence || assumption).
  clear E. revert Hd. generalize 0. generalize (String c s). clear.
  intros s. induction s as [|c s IH]; intros acc; simpl; [eauto|].
  intros [Hc Hs]%andb_prop. rewrite Hc. apply IH, Hs.
Qed.

Lemma mapM_normalize_part_total parts :
  exists l, mapM normalize_part parts = Some l /\ length l = length parts.
Proof.
  induction parts as [|p ps [l [IH Hl]]]; simpl; [eauto|].
  destruct (normalize_part_total p) as [z Hz]. rewrite Hz, IH. simpl.
  eexists; split; [reflexivity|]. simpl. congruence.
Qed.

(** [_normalize_version] never raises and returns exactly four components. *)
Lemma _normalize_version_total version :
  exists t, _normalize_version version = Some t /\ length t = 4%nat.
Proof.
  unfold _normalize_version.
  destruct (mapM_normalize_part_total
              (take 4 (Py.split "." (Py.lstrip "V" (Py.lstrip "v" (Py.strip version))))))
    as [l [-> Hl]].
  simpl. eexists; split; [reflexivity|].
  unfold pad4. rewrite length_take, length_app, length_replicate. lia.
Qed.

Lemma _versions_match_refl v : _versions_match v v = Some true.
Proof.
  unfold _versions_match.
  destruct (_normalize_version_total v) as [t [-> _]]. simpl.
  rewrite bool_decide_eq_true_2; reflexivity.
Qed.

(** C3 (the code differs from its own comment). [_normalize_version] joins
    every digit of a component, not only the leading ones: on ["1.18.0rc1"]
    the third component ["0rc1"] becomes [int("01") = 1], so the version
    normalizes to (1, 18, 1, 0) and does not match ["1.18.0"], although the
    comment in the source says that ["1.18.0rc1"] is handled as ["0"]. The
    other three equalities of the claim hold. *)
Theorem C3_normalize_version_rc_suffix :
  _normalize_version "1.18.0rc1" = Some [1; 18; 1; 0] /\
  _normalize_version "1.18.0" = Some [1; 18; 0; 0] /\
  _versions_match "1.18.0rc1" "1.18.0" = Some false /\
  normalize_part "rc1" = Some 1 /\
  _versions_match "1.18.0" "1.18.0.0" = Some true /\
  _versions_match "v1.18.0" "1.18.0" = Some true.
Proof. repeat split; reflexivity. Qed.

(** ** [_is_valid_ip] *)





Lemma is_development_unset : is_development None = false.
Proof. reflexivity. Qed.

Lemma is_development_set : is_development (Some "development") = true.
Proof. reflexivity. Qed.

(** On a textual IPv6 address only the four prefixes are looked at. *)
Lemma _is_valid_ip_ipv6 node_env ip :
  Py.contains ":" ip = true ->
  _is_valid_ip node_env ip =
  negb (Py.startswith "::1" ip || Py.startswith "fe80:" ip
        || Py.startswith "fc00:" ip || Py.startswith "fd00:" ip).
Proof.
  intros H. unfold _is_valid_ip, _is_valid_ip_try. rewrite H.
  destruct (_ || _); reflexivity.
Qed.

(** C9, as the code has it. For every string containing [":"],
    [_is_valid_ip] returns false exactly when the text starts with ["::1"],
    ["fe80:"], ["fc00:"] or ["fd00:"], whatever NODE_ENV is; every other
    IPv6 text is accepted, for instance [fd12:3456::1] (inside fc00::/7 and
    fd00::/8) and [fe9f::1] (inside fe80::/10). *)
Theorem C9_ipv6_prefix_filter :
  forall (node_env : option string) (ip : string),
    Py.contains ":" ip = true ->
    (_is_valid_ip node_env ip = false <->
     Py.startswith "::1" ip = true \/ Py.startswith "fe80:" ip = true \/
     Py.startswith "fc00:" ip = true \/ Py.startswith "fd00:" ip = true).
Proof.
  intros node_env ip H. rewrite (_is_valid_ip_ipv6 _ _ H).
  rewrite negb_false_iff, !orb_true_iff. tauto.
Qed.

Lemma C9_ipv6_prefix_filter_witness :
  Py.contains ":" "fe80::1" = true /\
  (_is_valid_ip None "fe80::1" = false <->
   Py.startswith "::1" "fe80::1" = true \/ Py.startswith "fe80:" "fe80::1" = true \/
   Py.startswith "fc00:" "fe80::1" = true \/ Py.startswith "fd00:" "fe80::1" = true).
Proof.
  split; [reflexivity|].
  apply (C9_ipv6_prefix_filter None "fe80::1"). reflexivity.
Defined.

(** C9, as the claim states it, fails: [fd12:3456::1] lies in fc00::/7 (and
    in fd00::/8) and [fe9f::1] lies in fe80::/10, yet both are accepted. *)
Lemma C9_counterexample :
  Py.contains ":" "fd12:3456::1" = true /\
  _is_valid_ip None "fd12:3456::1" = true /\
  Py.contains ":" "fe9f::1" = true /\
  _is_valid_ip None "fe9f::1" = true.
Proof. repeat split; reflexivity. Qed.

(** ** [_seed_from_database] *)

(** The subtraction in [minutes_since] always mixes the aware
    [datetime.now(timezone.utc)] with the naive
    [last_seen_dt.replace(tzinfo=None)], so it raises. *)
Lemma minutes_since_raises now d :
  datetime_sub (datetime_now_utc now) (datetime_replace_tzinfo_None d) = Raise TypeError.
Proof. reflexivity. Qed.

Lemma seed_decision_raises fromisoformat now status last_seen :
  exists e, seed_decision fromisoformat now status last_seen = Raise e.
Proof.
  unfold seed_decision.
  destruct last_seen as [s|d|b]; simpl.
  - destruct (fromisoformat _) as [d|e]; simpl; eauto.
  - eauto.
  - eauto.
Qed.

(** Every row is to be crawled, whatever its status and age. *)
Lemma should_crawl_always fromisoformat now node :
  should_crawl fromisoformat now node = true.
Proof.
  unfold should_crawl.
  destruct (last_seen_truthy _); [|reflexivity].
  destruct (db_last_seen node) as [ls|]; [|reflexivity].
  destruct (seed_decision_raises fromisoformat now (default "unknown" (db_status node)) ls)
    as [e ->].
  reflexivity.
Qed.

Lemma seed_one_pending_mono fromisoformat now p2p_port c node k :
  k ∈ pending c -> k ∈ pending (seed_one fromisoformat now p2p_port c node).
Proof.
  unfold seed_one. intros H.
  destruct (db_ip node) as [ip|]; [|assumption].
  destruct (String.eqb ip EmptyString); [assumption|].
  destruct (should_crawl _ _ _); [|assumption].
  simpl. set_solver.
Qed.

Lemma seed_fold_pending_mono fromisoformat now p2p_port rows c k :
  k ∈ pending c ->
  k ∈ pending (fold_left (seed_one fromisoformat now p2p_port) rows c).
Proof.
  revert c. induction rows as [|r rows IH]; intros c H; simpl; [assumption|].
  apply IH, seed_one_pending_mono, H.
Qed.

(** Every row with a non-empty ip is admitted. *)
Lemma _seed_from_database_admits_all fromisoformat now p2p_port rows c node ip :
  node ∈ rows -> db_ip node = Some ip -> ip <> EmptyString ->
  _node_key ip (default p2p_port (db_port node))
    ∈ pending (_seed_from_database fromisoformat now p2p_port (Ok rows) c).
Proof.
  intros Hin Hip Hne. simpl. revert c.
  induction rows as [|r rows IH]; intros c; simpl.
  - inversion Hin.
  - apply elem_of_cons in Hin as [<-|Hin].
    + apply seed_fold_pending_mono. unfold seed_one. rewrite Hip.
      destruct (String.eqb_spec ip EmptyString); [congruence|].
      rewrite should_crawl_always. simpl. set_solver.
    + apply IH, Hin.
Qed.

(** C4 (the code differs from its own comments). A row with status "down"
    last seen five minutes before the pass is admitted to [pending], although
    the source means to re-check "down" nodes only every 30 minutes: computing
    [minutes_since] subtracts a naive datetime from an aware one, the
    [TypeError] is swallowed by [except Exception] and [should_crawl] is set.
    [fromisoformat] here parses the timestamp of the row as Python does. *)
Theorem C4_down_node_seen_five_minutes_ago_is_admitted :
  let last_seen := {| dt_seconds := 1767225600; dt_utcoffset := Some 0%Q |} in
  let fromisoformat := fun s : string =>
    if String.eqb s "2026-01-01T00:00:00+00:00" then Ok last_seen else Raise ValueError in
  let now := (1767225600 + 300)%Q in
  let row := {| db_ip := Some "203.0.113.7"; db_port := Some 8333;
                db_status := Some "down";
                db_last_seen := Some (LsStr "2026-01-01T00:00:00Z") |} in
  let c := mk_Crawler ∅ ∅ ∅ ∅ in
  datetime_sub (datetime_now_utc now) last_seen = Ok 300%Q /\
  seed_decision fromisoformat now "down" (LsStr "2026-01-01T00:00:00Z") = Raise TypeError /\
  should_crawl fromisoformat now row = true /\
  pending (_seed_from_database fromisoformat now 33117 (Ok [row]) c)
    = {[ "203.0.113.7:8333" ]}.
Proof.
  repeat split.
Qed.

(** ** [_mark_rpc_node_as_up] *)

Lemma get_local_node_info_ips answer info :
  get_local_node_info answer = Some info ->
  Forall (fun a => fst a <> EmptyString) (local_addresses info).
Proof.
  unfold get_local_node_info.
  destruct answer as [[ni|]|e]; try discriminate.
  destruct (member_get_default (localaddresses ni) []) as [addrs|]; [|discriminate].
  intros [= <-]. simpl.
  induction addrs as [|[[ip|] [port|]] l IH]; simpl; auto.
  destruct (String.eqb_spec ip EmptyString); simpl; auto.
  destruct (port =? 0)%Z; simpl; auto.
Qed.

Lemma first_reachable_In test addrs a :
  first_reachable test addrs = Some a -> a ∈ addrs.
Proof.
  induction addrs as [|[ip port] l IH]; simpl; [discriminate|].
  destruct (test ip port).
  - intros [= <-]. left.
  - intros H. right. auto.
Qed.

Lemma not_selected_nonempty (l : list (string * Z)) a :
  Forall (fun a => fst a <> EmptyString) l -> a ∈ l -> not_selected (Some a) = false.
Proof.
  intros Hall Hin. rewrite Forall_forall in Hall. specialize (Hall a Hin).
  destruct a as [ip port]. simpl in *. destruct (String.eqb_spec ip EmptyString); congruence.
Qed.

Lemma select_local_address_preferred test addresses :
  Forall (fun a => fst a <> EmptyString) addresses ->
  select_local_address test addresses = preferred_address test addresses.
Proof.
  intros Hall. unfold select_local_address, preferred_address.
  set (v4 := filter _ addresses). set (v6 := filter (fun a => Py.contains ":" (fst a)) addresses).
  assert (H4 : forall a, a ∈ v4 -> not_selected (Some a) = false).
  { intros a Ha. apply (not_selected_nonempty addresses); [assumption|].
    unfold v4 in Ha. apply list_elem_of_filter in Ha. tauto. }
  assert (H6 : forall a, a ∈ v6 -> not_selected (Some a) = false).
  { intros a Ha. apply (not_selected_nonempty addresses); [assumption|].
    unfold v6 in Ha. apply list_elem_of_filter in Ha. tauto. }
  destruct (first_reachable test v4) as [a|] eqn:E4.
  - rewrite (H4 a) by (eapply first_reachable_In; eassumption).
    rewrite (H4 a) by (eapply first_reachable_In; eassumption). reflexivity.
  - simpl. destruct (first_reachable test v6) as [a|] eqn:E6.
    + rewrite (H6 a) by (eapply first_reachable_In; eassumption). reflexivity.
    + simpl. destruct v4, v6; reflexivity.
Qed.

Lemma preferred_address_In test addresses a :
  preferred_address test addresses = Some a -> a ∈ addresses.
Proof.
  unfold preferred_address.
  set (v4 := filter _ addresses). set (v6 := filter (fun a => Py.contains ":" (fst a)) addresses).
  assert (H4 : forall a, a ∈ v4 -> a ∈ addresses)
    by (intros x Hx; unfold v4 in Hx; apply list_elem_of_filter in Hx; tauto).
  assert (H6 : forall a, a ∈ v6 -> a ∈ addresses)
    by (intros x Hx; unfold v6 in Hx; apply list_elem_of_filter in Hx; tauto).
  destruct (first_reachable test v4) eqn:E4.
  { intros [= <-]. eauto using first_reachable_In. }
  destruct (first_reachable test v6) eqn:E6.
  { intros [= <-]. eauto using first_reachable_In. }
  destruct v4 as [|x v4]; simpl.
  - destruct v6 as [|y v6]; simpl; [discriminate|].
    intros [= <-]. apply H6. left.
  - intros [= <-]. apply H4. left.
Qed.

Lemma preferred_address_nonempty test addresses :
  addresses <> [] -> is_Some (preferred_address test addresses).
Proof.
  intros Hne. unfold preferred_address.
  destruct (first_reachable test _); [eauto|].
  destruct (first_reachable test _); [eauto|].
  destruct addresses as [|a l]; [congruence|].
  rewrite !filter_cons. simpl.
  destruct (Py.contains ":" (fst a)); simpl.
  - destruct (head (filter _ l)); eauto.
  - eauto.
Qed.

Lemma discard_fold_nodes (addresses : list (string * Z)) c :
  let c' := fold_left
    (fun c (other : string * Z) =>
       set_pending (fun p => p ∖ {[_node_key (fst other) (snd other)]}) c)
    addresses c in
  nodes c' = nodes c /\ crawled c' = crawled c /\ stats c' = stats c /\
  pending c' = pending c ∖ address_keys addresses.
Proof.
  revert c. induction addresses as [|a l IH]; intros c; simpl.
  - repeat split. unfold address_keys. simpl. set_solver.
  - destruct (IH (set_pending (fun p => p ∖ {[_node_key (fst a) (snd a)]}) c))
      as (Hn & Hc & Hs & Hp).
    simpl in *. rewrite Hn, Hc, Hs, Hp. repeat split.
    unfold address_keys. simpl. set_solver.
Qed.

(** C7, as the code has it. Given RPC local-node info with a non-empty
    address list, [_mark_rpc_node_as_up] selects exactly one of the listed
    addresses: the first IPv4 address that accepts the 3-second TCP connect,
    else the first IPv6 address that accepts it, else the first listed IPv4
    address, else the first listed IPv6 address. It records that address as
    status "up" without a handshake, adds the key of that address (and no
    other) to [crawled], and removes the keys of all the local addresses
    from [pending]. *)
Theorem C7_mark_rpc_node_as_up :
  forall (test : string -> Z -> bool) (now : Q)
         (answer : result (option network_info)) (info : local_info) (c : Crawler),
    get_local_node_info answer = Some info ->
    local_addresses info <> [] ->
    exists ip port,
      preferred_address test (local_addresses info) = Some (ip, port) /\
      (ip, port) ∈ local_addresses info /\
      let key := _node_key ip port in
      let c' := _mark_rpc_node_as_up test now (Some answer) c in
      nodes c' = <[key := rpc_node_info now info ip port]> (nodes c) /\
      NodeInfo.status (rpc_node_info now info ip port) = "up" /\
      crawled c' = {[key]} ∪ crawled c /\
      pending c' = pending c ∖ address_keys (local_addresses info).
Proof.
  intros test now answer info c Hinfo Hne.
  pose proof (get_local_node_info_ips _ _ Hinfo) as Hips.
  destruct (preferred_address_nonempty test _ Hne) as [[ip port] Hsel].
  exists ip, port. split; [exact Hsel|].
  pose proof (preferred_address_In _ _ _ Hsel) as Hin.
  split; [exact Hin|].
  unfold _mark_rpc_node_as_up. rewrite Hinfo.
  rewrite (select_local_address_preferred _ _ Hips), Hsel.
  destruct (local_addresses info) as [|a l] eqn:E; [congruence|].
  rewrite <- E in *. clear E a l.
  match goal with |- context [fold_left ?f ?l ?c0] =>
    destruct (discard_fold_nodes l c0) as (Hn & Hc & Hs & Hp) end.
  cbv zeta. rewrite Hn, Hc, Hp. simpl.
  repeat split.
  assert (_node_key ip port ∈ address_keys (local_addresses info)).
  { unfold address_keys. apply elem_of_list_to_set, list_elem_of_fmap.
    exists (ip, port). split; [reflexivity | exact Hin]. }
  set_solver.
Qed.

Lemma C7_mark_rpc_node_as_up_witness :
  let test := fun (ip : string) (_ : Z) => String.eqb ip "2001:db8::5" in
  let ni := {| localaddresses := Value [(Some "198.51.100.7", Some 33117);
                                        (Some "2001:db8::5", Some 33117)];
               protocolversion := Value 70015; subversion := Value "/Dingocoin:1.18.0/";
               connections := Value 8 |} in
  let info := {| local_addresses := [("198.51.100.7", 33117); ("2001:db8::5", 33117)];
                 li_version := Some 70015; li_subversion := Some "/Dingocoin:1.18.0/";
                 li_connections := Some 8 |} in
  let c := mk_Crawler ∅ ∅ ∅ ∅ in
  get_local_node_info (Ok (Some ni)) = Some info /\
  local_addresses info <> [] /\
  exists ip port,
    preferred_address test (local_addresses info) = Some (ip, port) /\
    (ip, port) ∈ local_addresses info /\
    let key := _node_key ip port in
    let c' := _mark_rpc_node_as_up test 0%Q (Some (Ok (Some ni))) c in
    nodes c' = <[key := rpc_node_info 0%Q info ip port]> (nodes c) /\
    NodeInfo.status (rpc_node_info 0%Q info ip port) = "up" /\
    crawled c' = {[key]} ∪ crawled c /\
    pending c' = pending c ∖ address_keys (local_addresses info).
Proof.
  intros test ni info c.
  split; [reflexivity|]. split; [simpl; discriminate|].
  apply (C7_mark_rpc_node_as_up test 0%Q (Ok (Some ni)) info c).
  - reflexivity.
  - simpl. discriminate.
Defined.

Example local_node_prefers_reachable_ipv6 :
  select_local_address (fun (ip : string) (_ : Z) => String.eqb ip "2001:db8::5")
    [("198.51.100.7", 33117); ("2001:db8::5", 33117)]
  = Some ("2001:db8::5", 33117).
Proof. reflexivity. Qed.

(** C7, as the claim states it, fails twice on one input. The local node
    lists an IPv6 address first and an IPv4 address second, and neither
    accepts a connection: the code falls back to the IPv4 address, which is
    not the first listed one; and the other address stays out of [crawled]. *)
Lemma C7_counterexample :
  let test := fun (_ : string) (_ : Z) => false in
  let ni := {| localaddresses := Value [(Some "2001:db8::5", Some 33117);
                                        (Some "198.51.100.7", Some 33117)];
               protocolversion := Value 70015; subversion := Value "/Dingocoin:1.18.0/";
               connections := Value 8 |} in
  let c := mk_Crawler ∅ {[ "2001:db8::5:33117"; "198.51.100.7:33117" ]} ∅ ∅ in
  let c' := _mark_rpc_node_as_up test 0%Q (Some (Ok (Some ni))) c in
  get_local_node_info (Ok (Some ni))
    = Some {| local_addresses := [("2001:db8::5", 33117); ("198.51.100.7", 33117)];
              li_version := Some 70015; li_subversion := Some "/Dingocoin:1.18.0/";
              li_connections := Some 8 |} /\
  select_local_address test [("2001:db8::5", 33117); ("198.51.100.7", 33117)]
    = Some ("198.51.100.7", 33117) /\
  crawled c' = {[ "198.51.100.7:33117" ]} /\
  ("2001:db8::5:33117" ∉ crawled c') /\
  pending c' = ∅.
Proof.
  repeat split.
  - vm_compute. intros H. discriminate H.
Qed.

(** ** [_try_connect_with_protocol] *)

Lemma parse_version_loop_fuel `{Protocol} cc fuel remaining h s :
  (length remaining < fuel)%nat ->
  parse_version_loop cc fuel remaining h s =
  parse_version_loop cc (S (length remaining)) remaining h s.
Proof.
  remember (length remaining) as n eqn:Hn.
  revert fuel remaining h s Hn.
  induction n as [n IH] using lt_wf_ind.
  intros fuel remaining h s Hn Hlt.
  destruct fuel as [|fuel]; [lia|].
  destruct remaining as [|b remaining]; [reflexivity|].
  cbn [parse_version_loop].
  destruct (parse_message (b :: remaining) (magic_bytes cc))
    as [[[command payload] rest]|e] eqn:Hp; [|reflexivity].
  apply parse_message_consumes in Hp.
  assert (Hrest : forall h s,
    parse_version_loop cc fuel rest h s = parse_version_loop cc n rest h s).
  { intros h0 s0.
    rewrite (IH (length rest)) by (subst n; simpl in *; lia).
    symmetry. apply (IH (length rest)); subst n; simpl in *; lia. }
  destruct (String.eqb command "version").
  - destruct (parse_version_payload payload) as [vd|e]; [|reflexivity].
    destruct (send (create_verack_message cc) s) as [[[]|e] s']; [|reflexivity].
    apply Hrest.
  - destruct (String.eqb command "verack"); apply Hrest.
Qed.

Lemma parse_addr_loop_fuel `{Protocol} cc fuel remaining :
  (length remaining < fuel)%nat ->
  parse_addr_loop cc fuel remaining =
  parse_addr_loop cc (S (length remaining)) remaining.
Proof.
  remember (length remaining) as n eqn:Hn.
  revert fuel remaining Hn.
  induction n as [n IH] using lt_wf_ind.
  intros fuel remaining Hn Hlt.
  destruct fuel as [|fuel]; [lia|].
  destruct remaining as [|b remaining]; [reflexivity|].
  cbn [parse_addr_loop].
  destruct (parse_message (b :: remaining) (magic_bytes cc))
    as [[[command payload] rest]|e] eqn:Hp; [|reflexivity].
  apply parse_message_consumes in Hp.
  destruct (String.eqb command "addr"); [reflexivity|].
  rewrite (IH (length rest)) by (subst n; simpl in *; lia).
  symmetry. apply (IH (length rest)); subst n; simpl in *; lia.
Qed.






Example frame_roundtrip :
  frame_parse (frame [Byte.xc0; Byte.xc0; Byte.xc0; Byte.xc0] "verack" [] ++ [Byte.x01])%list
              [Byte.xc0; Byte.xc0; Byte.xc0; Byte.xc0]
  = Ok ("verack", [], [Byte.x01]).
Proof. reflexivity. Qed.

Example version_roundtrip :
  version_parse (version_payload (VersionPayload.mk 70015 1 4000000 "/Dingocoin:1.18.0/"))
  = Ok (VersionPayload.mk 70015 1 4000000 "/Dingocoin:1.18.0/").
Proof. reflexivity. Qed.

Example addr_roundtrip :
  addr_parse (addr_payload [(203%N, 0%N, 113%N, 7%N, 33117)])
  = Ok [NetAddr.mk "203.0.113.7" 33117 0 0].
Proof. reflexivity. Qed.



Example talking_peer_is_up :
  let r := fst (_try_connect_with_protocol (dingo_config 3 None) "198.51.100.5" 8333
                  70015 10 (talking_peer 0 [(203%N, 0%N, 113%N, 7%N, 33117)])) in
  (NodeInfo.status <$> returned r) = Some "up" /\
  (NodeInfo.protocol_version <$> returned r) = Some (Some 70015) /\
  (NodeInfo.user_agent <$> returned r) = Some (Some "/Dingocoin:1.18.0/") /\
  (NodeInfo.peers <$> returned r) = Some [NetAddr.mk "203.0.113.7" 33117 0 0] /\
  peers_from_p2p r = 1.
Proof. vm_compute. repeat split. Qed.

Lemma parse_version_loop_versioned `{Protocol} cc fuel remaining h s h' s' :
  parse_version_loop cc fuel remaining h s = (Ok h', s') ->
  (received_version h = true -> versioned (node_info h)) ->
  received_version h' = true -> versioned (node_info h').
Proof.
  revert remaining h s.
  induction fuel as [|fuel IH]; intros remaining h s; simpl.
  - intros [= <- <-]. auto.
  - destruct remaining as [|b remaining]; [intros [= <- <-]; auto|].
    destruct (parse_message (b :: remaining) (magic_bytes cc))
      as [[[command payload] rest]|e].
    + destruct (String.eqb command "version").
      * destruct (parse_version_payload payload) as [vd|e].
        -- destruct (send (create_verack_message cc) s) as [[[]|e] s0] eqn:Hsend.
           ++ intros Hloop _. eapply IH; [exact Hloop|].
              intros _. split; simpl; eauto.
           ++ destruct e; try discriminate.
              intros [= <- <-] _ _. split; simpl; eauto.
        -- destruct e; try discriminate. intros [= <- <-]. auto.
      * destruct (String.eqb command "verack"); intros Hloop Hh; eapply IH; eauto.
    + destruct e; try discriminate. intros [= <- <-]. auto.
Qed.

(** A dial that returns status "up" has captured the version data. *)
Lemma dial_up_versioned `{Protocol} config ip port pv timeout p n :
  returned (fst (_try_connect_with_protocol config ip port pv timeout p)) = Some n ->
  NodeInfo.status n = "up" -> versioned n.
Proof.
  unfold _try_connect_with_protocol.
  destruct (connecting p) as [d|e]; [|discriminate].
  destruct (Qltb d timeout); [|discriminate].
  unfold converse, mbind, io_bind.
  destruct (send _ _) as [[[]|e] s1]; [|discriminate].
  destruct (read_version timeout s1) as [[data|e] s2]; [|discriminate].
  cbn [time].
  destruct data as [|b data].
  { cbn. intros [= <-]. discriminate. }
  destruct (parse_version_loop _ _ _ _ s2) as [[h|e] s3] eqn:Hparse; [|discriminate].
  destruct (received_version h) eqn:Hrv; cbn [negb].
  2:{ cbn. intros [= <-]. discriminate. }
  assert (Hv : versioned (node_info h)).
  { eapply parse_version_loop_versioned; [exact Hparse| |exact Hrv].
    discriminate. }
  destruct (sleep _ s3) as [[[]|e] s4]; [|discriminate].
  destruct (send _ s4) as [[[]|e] s5]; [|discriminate].
  unfold io_try.
  destruct (read_addr _ s5) as [[[peers|]|e] s6]; cbn;
    intros [= <-] _; exact Hv.
Qed.

(** ** [_connect_and_handshake] *)

Lemma last_returned_snoc log c : last_returned (log ++ [c]) = dial_returned c.
Proof. unfold last_returned. rewrite last_snoc. reflexivity. Qed.

(** Where the loops stand with respect to the log: either the function has
    returned the result of the last call, which was "up", or [last_result]
    is what the last call returned, which was not "up". *)
Definition retry_outcome_ok (o : option NodeInfo * retry + retry) : Prop :=
  match o with
  | inl (r, st) => r = last_returned (dial_log st) /\ has_status "up" r = true
  | inr st => last_result st = last_returned (dial_log st) /\
              has_status "up" (last_result st) = false
  end.

Lemma try_protocols_ok dial config ip port attempt protocol_versions st :
  retry_outcome_ok (inr st) ->
  retry_outcome_ok (try_protocols dial config ip port attempt protocol_versions st).
Proof.
  revert st. induction protocol_versions as [|pv rest IH]; intros st Hst; simpl.
  - exact Hst.
  - match goal with |- context [dial ?a ?b ?c ?e ?f] => set (d := dial a b c e f) end.
    destruct (has_status "up" (returned d)) eqn:Hup.
    + simpl. rewrite last_returned_snoc. simpl. auto.
    + destruct (has_status "reachable" (returned d)) eqn:Hr.
      * apply IH. simpl. rewrite last_returned_snoc. auto.
      * destruct (returned d) as [n|] eqn:Hret.
        -- apply IH. simpl. rewrite last_returned_snoc. auto.
        -- simpl. rewrite last_returned_snoc. auto.
Qed.

Lemma try_attempts_ok dial config ip port protocol_versions attempts st :
  retry_outcome_ok (inr st) ->
  retry_outcome_ok (try_attempts dial config ip port protocol_versions attempts st).
Proof.
  revert st. induction attempts as [|attempt rest IH]; intros st Hst; simpl.
  - exact Hst.
  - match goal with |- context [try_protocols _ _ _ _ _ _ ?s] => set (st1 := s) end.
    assert (H1 : retry_outcome_ok (inr st1))
      by (unfold st1; destruct (0 <? attempt)%nat; simpl; exact Hst).
    pose proof (try_protocols_ok dial config ip port attempt protocol_versions st1 H1) as Hp.
    destruct (try_protocols _ _ _ _ _ _ st1) as [[r st2]|st2].
    + exact Hp.
    + apply IH, Hp.
Qed.

(** What [_connect_and_handshake] returns, in every case: the result of its
    last dial when that is "up" or "reachable", else [None]. *)
Lemma _connect_and_handshake_last dial config ip port :
  let '(r, st) := _connect_and_handshake dial config ip port in
  r = if has_status "up" (last_returned (dial_log st))
      then last_returned (dial_log st)
      else reachable_or_none (last_returned (dial_log st)).
Proof.
  unfold _connect_and_handshake.
  match goal with |- context [try_attempts ?a ?b ?c ?d ?e ?f ?g] =>
    pose proof (try_attempts_ok a b c d e f g (conj eq_refl eq_refl)) as H;
    destruct (try_attempts a b c d e f g) as [[r st]|st] end.
  - simpl in H. destruct H as [-> Hup]. rewrite Hup. reflexivity.
  - simpl in H. destruct H as [H Hup]. unfold reachable_or_none.
    destruct (has_status "reachable" (last_result st)) eqn:Hr;
      rewrite <- H, Hr, Hup; reflexivity.
Qed.

Lemma no_up_last log :
  no_up log = true -> has_status "up" (last_returned log) = false.
Proof.
  unfold no_up, last_returned. intros H.
  destruct (last log) as [c|] eqn:E; [|reflexivity].
  apply last_Some in E as [l' ->].
  rewrite forallb_app in H. simpl in H.
  apply andb_prop in H as [_ H]. rewrite andb_true_r in H.
  apply negb_true_iff in H. exact H.
Qed.

(** C1, as the code has it. When [_connect_and_handshake] ends without any
    dial having returned "up", it returns what its last dial returned if that
    is a [NodeInfo] with status "reachable", and [None] otherwise: the
    variable is [last_result], overwritten by every dial, so a "reachable"
    seen on an earlier attempt is dropped when a later dial fails to
    connect. *)
Theorem C1_returns_last_dial :
  forall (dial : dialer) (config : CrawlerConfig) (ip : string) (port : Z),
    no_up (dial_log (snd (_connect_and_handshake dial config ip port))) = true ->
    fst (_connect_and_handshake dial config ip port)
    = reachable_or_none
        (last_returned (dial_log (snd (_connect_and_handshake dial config ip port)))).
Proof.
  intros dial config ip port Hno.
  pose proof (_connect_and_handshake_last dial config ip port) as H.
  destruct (_connect_and_handshake dial config ip port) as [r st].
  simpl in *. rewrite (no_up_last _ Hno) in H. exact H.
Qed.

Lemma C1_returns_last_dial_witness :
  let config := dingo_config 1 None in
  let dial := dial_peers config (fun _ => mute_peer 0) in
  no_up (dial_log (snd (_connect_and_handshake dial config "198.51.100.5" 8333))) = true /\
  fst (_connect_and_handshake dial config "198.51.100.5" 8333)
  = reachable_or_none
      (last_returned (dial_log (snd (_connect_and_handshake dial config "198.51.100.5" 8333)))).
Proof.
  intros config dial. split; [reflexivity|].
  apply (C1_returns_last_dial dial config "198.51.100.5" 8333). reflexivity.
Defined.

(** C1, as the claim states it, fails. With one retry and no fallback
    version, a target that accepts the first connection without answering
    and refuses the second one is dialed twice, "reachable" then
    unreachable, and the function returns [None], not the "reachable"
    result. *)
Lemma C1_counterexample :
  let config := dingo_config 1 None in
  let net := fun n : nat => if (n =? 0)%nat then mute_peer 0 else refusing_peer 2 in
  let run := _connect_and_handshake (dial_peers config net) config "198.51.100.5" 8333 in
  map (fun c => NodeInfo.status <$> dial_returned c) (dial_log (snd run))
    = [Some "reachable"; None] /\
  map dialed_timeout (dial_log (snd run)) = [10%Q; 30%Q] /\
  slept (snd run) = [(1 * 2 ^ (1 - 1))%Q] /\
  fst run = None.
Proof. vm_compute. repeat split. Qed.

(** Protocol fallback: a peer that is mute to the primary version and
    answers the fallback one is "up" on the first attempt. *)
Example fallback_gives_up :
  let config := dingo_config 3 (Some [70014]) in
  let net := fun n : nat => if (n =? 0)%nat then mute_peer 0 else talking_peer 11 [] in
  let run := _connect_and_handshake (dial_peers config net) config "198.51.100.5" 8333 in
  (NodeInfo.status <$> fst run) = Some "up" /\
  map dialed_protocol_version (dial_log (snd run)) = [70015; 70014] /\
  slept (snd run) = [].
Proof. vm_compute. repeat split. Qed.

(** ** Keys *)

Lemma rsplit1_app sep a b :
  Py.mem_char sep b = false ->
  Py.rsplit1 sep (a +:+ String sep b) = Some (a, b).
Proof.
  intros Hb.
  assert (Hnone : Py.rsplit1 sep b = None).
  { induction b as [|c b IH]; simpl in *; [reflexivity|].
    apply orb_false_elim in Hb as [Hc Hb]. rewrite (IH Hb).
    rewrite Ascii.eqb_sym, Hc. reflexivity. }
  induction a as [|c a IH]; simpl_app.
  - rewrite Hnone, Ascii.eqb_refl. reflexivity.
  - rewrite IH. reflexivity.
Qed.

Lemma str_chars n :
  all_chars (fun c => Py.isdigit c || Ascii.eqb c "-") (Py.str n) = true.
Proof.
  unfold Py.str.
  assert (Hu : forall d, all_chars (fun c => Py.isdigit c || Ascii.eqb c "-")
                           (NilZero.string_of_uint d) = true).
  { intros d. apply all_chars_impl with (p := Py.isdigit).
    - intros c Hc. rewrite Hc. reflexivity.
    - destruct d; try apply (string_of_uint_digits (_ d)). reflexivity. }
  destruct (Z.to_int n) as [d|d]; simpl; [apply Hu|].
  apply Hu.
Qed.

Lemma str_no_colon n : Py.mem_char ":" (Py.str n) = false.
Proof.
  pose proof (str_chars n) as H.
  induction (Py.str n) as [|c s IH]; cbn [Py.mem_char all_chars] in *; [reflexivity|].
  apply andb_prop in H as [Hc Hs]. rewrite (IH Hs), orb_false_r.
  apply orb_prop in Hc as [Hc|Hc].
  - rewrite Ascii.eqb_sym. apply isdigit_not_char; [reflexivity|exact Hc].
  - apply Ascii.eqb_eq in Hc as ->. reflexivity.
Qed.

Lemma int_str n : Py.int (Py.str n) = Some n.
Proof.
  unfold Py.str.
  destruct n as [|p|p]; simpl Z.to_int.
  - reflexivity.
  - change (NilZero.string_of_int (Decimal.Pos (Pos.to_uint p)))
      with (NilZero.string_of_uint (N.to_uint (N.pos p))).
    rewrite int_decimal. reflexivity.
  - change (NilZero.string_of_int (Decimal.Neg (Pos.to_uint p)))
      with (String "-" (NilZero.string_of_uint (N.to_uint (N.pos p)))).
    pose proof (int_decimal (N.pos p)) as Hd.
    pose proof (decimal_digits (N.pos p)) as Hdig.
    set (s := NilZero.string_of_uint (N.to_uint (N.pos p))) in *.
    assert (Hne : s <> EmptyString).
    { unfold s. rewrite NilZero_string_of_uint_nonnil by apply N_to_uint_nonnil.
      apply string_of_uint_nonempty, N_to_uint_nonnil. }
    unfold Py.int in *.
    rewrite strip_none in Hd
      by (eapply all_chars_impl; [apply isdigit_not_space | exact Hdig]).
    rewrite strip_none.
    2:{ simpl. eapply all_chars_impl; [apply isdigit_not_space | exact Hdig]. }
    simpl.
    destruct s as [|c s']; [congruence|].
    simpl in Hdig. apply andb_prop in Hdig as [Hc _].
    rewrite (isdigit_not_char c "+" eq_refl Hc), (isdigit_not_char c "-" eq_refl Hc) in Hd.
    rewrite Hd. reflexivity.
Qed.

(** ** [_crawl_node] *)

Lemma admit_peers_frame node_env peers c :
  nodes (admit_peers node_env peers c) = nodes c /\
  crawled (admit_peers node_env peers c) = crawled c /\
  stats (admit_peers node_env peers c) = stats c.
Proof.
  unfold admit_peers. revert c.
  induction peers as [|peer peers IH]; intros c; simpl; [auto|].
  match goal with |- context [fold_left ?f peers ?c1] =>
    destruct (IH c1) as (Hn & Hc & Hs) end.
  rewrite Hn, Hc, Hs.
  destruct (_ && _); [destruct (_is_valid_ip _ _)|]; auto.
Qed.

(** The keys in [pending] after the peers have been looked at. *)
Lemma admit_peers_pending node_env peers c k :
  k ∈ pending (admit_peers node_env peers c) <->
  k ∈ pending c \/
  ((k ∉ crawled c) /\
   exists peer, peer ∈ peers /\ k = _node_key (NetAddr.ip peer) (NetAddr.port peer) /\
                _is_valid_ip node_env (NetAddr.ip peer) = true).
Proof.
  unfold admit_peers. revert c.
  induction peers as [|peer peers IH]; intros c; simpl.
  - split; [auto|]. intros [H|(_ & p & Hp & _)]; [exact H|]. inversion Hp.
  - rewrite IH. clear IH.
    set (pk := _node_key (NetAddr.ip peer) (NetAddr.port peer)).
    destruct (bool_decide (pk ∈ crawled c)) eqn:Hcr;
      [apply bool_decide_eq_true in Hcr | apply bool_decide_eq_false in Hcr];
      (destruct (bool_decide (pk ∈ pending c)) eqn:Hpe;
       [apply bool_decide_eq_true in Hpe | apply bool_decide_eq_false in Hpe]);
      simpl; try destruct (_is_valid_ip node_env (NetAddr.ip peer)) eqn:Hv; simpl;
      (split;
       [ intros [H|(Hk & p & Hp & Hpk & Hpv)];
         [ first [ left; exact H
                 | apply elem_of_union in H as [H|H];
                   [ apply elem_of_singleton in H; subst k; right; split; [exact Hcr|];
                     exists peer; split; [left|]; auto
                   | left; exact H ] ]
         | right; split; [exact Hk|]; exists p; split; [right; exact Hp|]; auto ]
       | intros [H|(Hk & p & Hp & Hpk & Hpv)];
         [ left; set_solver
         | apply elem_of_cons in Hp as [->|Hp];
           [ fold pk in Hpk; subst k;
             first [ contradiction | left; set_solver | congruence ]
           | right; split; [exact Hk|]; exists p; auto ] ] ]).
Qed.

(** C10. When the part of [_crawl_node] that records the dial result finds
    the key already in [nodes] and the result has status "reachable", the
    entry keeps its version, protocol_version, services, start_height,
    user_agent and peers (and its ip, port and first_seen); latency_ms and
    status are taken from the result, last_seen is the current time and
    times_seen grows by one. No other entry of [nodes] changes. *)
Theorem C10_reachable_keeps_version_fields :
  forall (node_env : option string) (now : Q) (ip : string) (port : Z)
         (node_info existing : NodeInfo) (c : Crawler),
    nodes c !! _node_key ip port = Some existing ->
    NodeInfo.status node_info = "reachable" ->
    exists updated,
      nodes (crawl_record node_env now ip port (Some node_info) c) !! _node_key ip port
        = Some updated /\
      NodeInfo.version updated = NodeInfo.version existing /\
      NodeInfo.protocol_version updated = NodeInfo.protocol_version existing /\
      NodeInfo.services updated = NodeInfo.services existing /\
      NodeInfo.start_height updated = NodeInfo.start_height existing /\
      NodeInfo.user_agent updated = NodeInfo.user_agent existing /\
      NodeInfo.peers updated = NodeInfo.peers existing /\
      NodeInfo.ip updated = NodeInfo.ip existing /\
      NodeInfo.port updated = NodeInfo.port existing /\
      NodeInfo.first_seen updated = NodeInfo.first_seen existing /\
      NodeInfo.latency_ms updated = NodeInfo.latency_ms node_info /\
      NodeInfo.status updated = "reachable" /\
      NodeInfo.last_seen updated = datetime_now_utc now /\
      NodeInfo.times_seen updated = NodeInfo.times_seen existing + 1 /\
      forall k, k <> _node_key ip port ->
        nodes (crawl_record node_env now ip port (Some node_info) c) !! k = nodes c !! k.
Proof.
  intros node_env now ip port node_info existing c Hex Hst.
  unfold crawl_record. cbn [nodes stats_add set_crawled].
  rewrite Hex.
  destruct (admit_peers_frame node_env (NodeInfo.peers node_info)
    (set_nodes (fun m => <[_node_key ip port := update_existing now node_info existing]> m)
       (stats_add "connections_successful" 1
          (set_crawled (fun s => {[_node_key ip port]} ∪ s) c)))) as (Hn & _ & _).
  rewrite Hn. cbn [nodes set_nodes stats_add set_crawled].
  exists (update_existing now node_info existing).
  split; [apply lookup_insert_eq|].
  unfold update_existing. rewrite Hst. cbn.
  repeat split.
  intros k Hk. apply lookup_insert_ne. congruence.
Qed.

Lemma C10_reachable_keeps_version_fields_witness :
  let key := _node_key "198.51.100.5" 33117 in
  let c := mk_Crawler {[ key := seen_up_node ]} ∅ ∅ ∅ in
  let node_info := reachable_node 600 "198.51.100.5" 33117 42 in
  nodes c !! key = Some seen_up_node /\
  NodeInfo.status node_info = "reachable" /\
  exists updated,
    nodes (crawl_record None 600 "198.51.100.5" 33117 (Some node_info) c) !! key
      = Some updated /\
    NodeInfo.version updated = NodeInfo.version seen_up_node /\
    NodeInfo.protocol_version updated = NodeInfo.protocol_version seen_up_node /\
    NodeInfo.services updated = NodeInfo.services seen_up_node /\
    NodeInfo.start_height updated = NodeInfo.start_height seen_up_node /\
    NodeInfo.user_agent updated = NodeInfo.user_agent seen_up_node /\
    NodeInfo.peers updated = NodeInfo.peers seen_up_node /\
    NodeInfo.ip updated = NodeInfo.ip seen_up_node /\
    NodeInfo.port updated = NodeInfo.port seen_up_node /\
    NodeInfo.first_seen updated = NodeInfo.first_seen seen_up_node /\
    NodeInfo.latency_ms updated = NodeInfo.latency_ms node_info /\
    NodeInfo.status updated = "reachable" /\
    NodeInfo.last_seen updated = datetime_now_utc 600 /\
    NodeInfo.times_seen updated = NodeInfo.times_seen seen_up_node + 1 /\
    forall k, k <> key ->
      nodes (crawl_record None 600 "198.51.100.5" 33117 (Some node_info) c) !! k
        = nodes c !! k.
Proof.
  intros key c node_info.
  split; [reflexivity|]. split; [reflexivity|].
  apply (C10_reachable_keeps_version_fields None 600 "198.51.100.5" 33117
           node_info seen_up_node c); reflexivity.
Defined.

Lemma _node_key_rsplit ip port :
  Py.rsplit1 ":" (_node_key ip port) = Some (ip, Py.str port).
Proof. unfold _node_key. simpl_app. apply rsplit1_app, str_no_colon. Qed.

(** [_crawl_pending] recovers the target from a key written by [_node_key]. *)
Lemma key_target_node_key ip port : key_target (_node_key ip port) = Some (ip, port).
Proof. unfold key_target. rewrite _node_key_rsplit, int_str. reflexivity. Qed.

Lemma _node_key_inj ip port ip' port' :
  _node_key ip port = _node_key ip' port' -> ip = ip' /\ port = port'.
Proof.
  intros H. apply (f_equal key_target) in H.
  rewrite !key_target_node_key in H. injection H. auto.
Qed.

Lemma crawl_record_pending node_env now ip port node_info c k :
  k ∈ pending (crawl_record node_env now ip port node_info c) <->
  k ∈ pending c \/
  ((k ∉ {[_node_key ip port]} ∪ crawled c) /\
   exists n peer, node_info = Some n /\ peer ∈ NodeInfo.peers n /\
     k = _node_key (NetAddr.ip peer) (NetAddr.port peer) /\
     _is_valid_ip node_env (NetAddr.ip peer) = true).
Proof.
  unfold crawl_record.
  destruct node_info as [n|].
  - rewrite admit_peers_pending.
    destruct (nodes _ !! _) as [existing|]; cbn;
      (split; intros [H|(Hk & H)]; [left; exact H| | left; exact H|]).
    + right. split; [exact Hk|]. destruct H as (peer & ?). exists n, peer. auto.
    + right. split; [exact Hk|]. destruct H as (n' & peer & [= <-] & ?). eauto.
    + right. split; [exact Hk|]. destruct H as (peer & ?). exists n, peer. auto.
    + right. split; [exact Hk|]. destruct H as (n' & peer & [= <-] & ?). eauto.
  - destruct (nodes _ !! _) as [existing|]; cbn;
      (split; [auto | intros [H|(_ & n & peer & Hn & _)]; [exact H | discriminate]]).
Qed.




Example private_peer_not_admitted :
  pending (crawl_record None 0 "198.51.100.5" 33117
             (Some (NodeInfo.set_peers [NetAddr.mk "10.0.0.1" 8333 1 0;
                                        NetAddr.mk "203.0.113.7" 33117 1 0] seen_up_node))
             (mk_Crawler ∅ ∅ ∅ ∅))
  = {[ "203.0.113.7:33117" ]}.
Proof. vm_compute. reflexivity. Qed.

(** ** A crawl pass *)

Lemma set_phase_keys i ph ts : task_key <$> set_phase i ph ts = task_key <$> ts.
Proof.
  unfold set_phase. destruct (ts !! i) as [t|] eqn:E; [|reflexivity].
  rewrite list_fmap_insert. apply list_insert_id.
  rewrite list_lookup_fmap, E. reflexivity.
Qed.

Lemma set_phase_lookup i ph ts j t' :
  set_phase i ph ts !! j = Some t' ->
  (j = i /\ exists t, ts !! i = Some t /\ t' = mk_task (task_ip t) (task_port t) ph) \/
  (j <> i /\ ts !! j = Some t').
Proof.
  unfold set_phase. destruct (ts !! i) as [t|] eqn:E.
  - intros [(-> & <- & _)|(Hne & H)]%list_lookup_insert_Some.
    + left. eauto.
    + right. auto.
  - intros H. right. split; [|exact H]. intros ->. congruence.
Qed.

Lemma set_phase_lookup_eq i ph ts t :
  ts !! i = Some t ->
  set_phase i ph ts !! i = Some (mk_task (task_ip t) (task_port t) ph).
Proof.
  intros E. unfold set_phase. rewrite E.
  apply list_lookup_insert_Some. left. repeat split.
  eapply lookup_lt_Some, E.
Qed.

Lemma set_phase_lookup_ne i ph ts j : j <> i -> set_phase i ph ts !! j = ts !! j.
Proof.
  intros Hne. unfold set_phase. destruct (ts !! i); [|reflexivity].
  apply list_lookup_insert_ne. congruence.
Qed.

Lemma task_keys_distinct ts i j t t' :
  NoDup (task_key <$> ts) -> ts !! i = Some t -> ts !! j = Some t' ->
  task_key t = task_key t' -> i = j.
Proof.
  intros Hnd Hi Hj Hk.
  apply (NoDup_lookup (task_key <$> ts) i j (task_key t) Hnd).
  - rewrite list_lookup_fmap, Hi. reflexivity.
  - rewrite list_lookup_fmap, Hj, Hk. reflexivity.
Qed.

Lemma crawl_record_crawled node_env now ip port node_info c :
  crawled (crawl_record node_env now ip port node_info c)
  = {[_node_key ip port]} ∪ crawled c.
Proof.
  unfold crawl_record. destruct node_info as [n|].
  - match goal with |- context [admit_peers ?e ?p ?c0] =>
      destruct (admit_peers_frame e p c0) as (_ & -> & _) end.
    destruct (nodes _ !! _); reflexivity.
  - destruct (nodes _ !! _); reflexivity.
Qed.

Lemma py_prefix_sublist {A} n (l : list A) : py_prefix n l `sublist_of` l.
Proof. unfold py_prefix. destruct (0 <=? n)%Z; apply sublist_take. Qed.

Lemma batch_task_keys batch targets :
  Forall is_node_key batch ->
  mapM key_target batch = Some targets ->
  task_key <$> ((fun x : string * Z => mk_task (fst x) (snd x) Ready) <$> targets) = batch.
Proof.
  intros Hall Hm. apply mapM_Some_1 in Hm. revert Hall.
  induction Hm as [|x [ip port] l l' Hx Hm IH]; intros Hall; [reflexivity|].
  apply Forall_cons in Hall as [(ip0 & port0 & ->) Hall].
  rewrite key_target_node_key in Hx. injection Hx as <- <-.
  simpl. f_equal. apply IH, Hall.
Qed.

Lemma keys_invariant_start config c :
  (forall k, k ∈ pending c -> is_node_key k) ->
  keys_invariant (pass_start config c).
Proof.
  intros Hp. unfold keys_invariant, pass_start. simpl.
  split; [constructor|]. split; [constructor|].
  split; [intros k Hk; inversion Hk|].
  split; [intros i t Hi; rewrite lookup_nil in Hi; discriminate|exact Hp].
Qed.

Lemma keys_invariant_step `{Protocol} config node_env ps ps' :
  pass_step config node_env ps ps' -> keys_invariant ps -> keys_invariant ps'.
Proof.
  intros Hstep (Hhs & Hkeys & Hlog & Hact & Hpend).
  destruct Hstep as [ps order targets Hdone Hne Hperm Hmap
                    |ps i t c go Hi Hph Hbegin
                    |ps i t Hi Hph Hperm
                    |ps i t net now node_info st Hi Hph Hrun];
    unfold keys_invariant; cbn [handshakes tasks crawler].
  - (* a new batch *)
    assert (Hsub : py_prefix (max_concurrent config) order `sublist_of` order)
      by apply py_prefix_sublist.
    assert (Hnd : NoDup (py_prefix (max_concurrent config) order)).
    { eapply sublist_NoDup; [|exact Hsub]. rewrite Hperm. apply NoDup_elements. }
    assert (Hall : Forall is_node_key (py_prefix (max_concurrent config) order)).
    { apply Forall_forall. intros k Hk. apply Hpend.
      apply elem_of_elements. rewrite <- Hperm.
      eapply sublist_subseteq; [exact Hsub|exact Hk]. }
    rewrite (batch_task_keys _ _ Hall Hmap).
    repeat split; try assumption.
    + intros k Hk. destruct (Hlog k Hk) as [Hc|(j & t & Hj & _ & Hd)]; [left; exact Hc|].
      rewrite Forall_forall in Hdone.
      assert (Hin : t ∈ tasks ps) by (eapply list_elem_of_lookup_2; exact Hj).
      specialize (Hdone t Hin). congruence.
    + intros j t Hj [Hw|Hd];
        apply list_lookup_fmap_Some in Hj as (x & -> & _); simpl in *; discriminate.
  - (* the test of [crawled] *)
    unfold crawl_begin in Hbegin. injection Hbegin as <- <-.
    rewrite set_phase_keys. cbn [crawled pending set_pending].
    repeat split; try assumption.
    + intros k Hk. destruct (Hlog k Hk) as [Hc|(j & t0 & Hj & Hk0 & Hd)]; [left; exact Hc|].
      right. exists j, t0. repeat split; try assumption.
      rewrite set_phase_lookup_ne; [exact Hj|]. intros ->. congruence.
    + intros j t' Hj Hp'.
      apply set_phase_lookup in Hj as [(-> & t0 & Hi0 & ->)|(Hne & Hj)].
      * rewrite Hi in Hi0. injection Hi0 as <-.
        change (task_key (mk_task (task_ip t) (task_port t) _)) with (task_key t).
        destruct (bool_decide (task_key t ∈ crawled (crawler ps))) eqn:Hb;
          cbn in Hp'; [destruct Hp'; discriminate|].
        apply bool_decide_eq_false in Hb. exact Hb.
      * eapply Hact; eassumption.
    + intros k Hk. apply Hpend. set_solver.
  - (* the semaphore *)
    rewrite set_phase_keys. cbn [crawled pending crawl_acquired stats_add].
    assert (Hfresh : task_key t ∉ handshakes ps).
    { intros Hin. destruct (Hlog _ Hin) as [Hc|(j & t0 & Hj & Hk0 & Hd)].
      - eapply Hact; [exact Hi|left; exact Hph|exact Hc].
      - assert (j = i) by (eapply task_keys_distinct; eassumption).
        subst j. congruence. }
    repeat split; try assumption.
    + constructor; assumption.
    + intros k [->|Hk]%elem_of_cons.
      * right. exists i, (mk_task (task_ip t) (task_port t) Dialing).
        repeat split. apply set_phase_lookup_eq, Hi.
      * destruct (Hlog k Hk) as [Hc|(j & t0 & Hj & Hk0 & Hd)]; [left; exact Hc|].
        right. exists j, t0. repeat split; try assumption.
        rewrite set_phase_lookup_ne; [exact Hj|]. intros ->. congruence.
    + intros j t' Hj Hp'.
      apply set_phase_lookup in Hj as [(-> & t0 & Hi0 & ->)|(Hne & Hj)].
      * rewrite Hi in Hi0. injection Hi0 as <-.
        exact (Hact i t Hi (or_introl Hph)).
      * eapply Hact; eassumption.
  - (* the dial result is recorded *)
    rewrite set_phase_keys, crawl_record_crawled.
    cbn [crawled pending stats_add].
    repeat split; try assumption.
    + intros k Hk. destruct (Hlog k Hk) as [Hc|(j & t0 & Hj & Hk0 & Hd)].
      * left. set_solver.
      * destruct (decide (j = i)) as [->|Hne].
        -- left. rewrite Hi in Hj. injection Hj as <-. subst k.
           unfold task_key. set_solver.
        -- right. exists j, t0. repeat split; try assumption.
           rewrite set_phase_lookup_ne; [exact Hj|exact Hne].
    + intros j t' Hj Hp'.
      apply set_phase_lookup in Hj as [(-> & t0 & Hi0 & ->)|(Hne & Hj)].
      * cbn in Hp'. destruct Hp'; discriminate.
      * intros [Hin|Hin]%elem_of_union.
        -- apply elem_of_singleton in Hin.
           apply Hne. eapply task_keys_distinct; eassumption.
        -- eapply Hact; eassumption.
    + intros k Hk. apply crawl_record_pending in Hk
        as [Hk|(_ & n & peer & _ & _ & -> & _)].
      * apply Hpend. exact Hk.
      * eexists _, _. reflexivity.
Qed.

Lemma keys_invariant_reachable `{Protocol} config node_env c ps :
  (forall k, k ∈ pending c -> is_node_key k) ->
  rtc (pass_step config node_env) (pass_start config c) ps ->
  keys_invariant ps.
Proof.
  intros Hp Hrtc. revert ps Hrtc.
  apply (rtc_ind_r (fun ps => keys_invariant ps)).
  - apply keys_invariant_start, Hp.
  - intros ps1 ps2 _ Hstep IH. eapply keys_invariant_step; eassumption.
Qed.

Lemma try_protocols_dials dial config ip port attempt pvs st :
  new_dials_ok ip port (length pvs) st
    (try_protocols dial config ip port attempt pvs st).
Proof.
  revert st. induction pvs as [|pv rest IH]; intros st; simpl.
  - exists []. rewrite app_nil_r. split; [reflexivity|]. split; [simpl; lia|constructor].
  - match goal with |- context [dial ?a ?b ?c ?e ?f] => set (d := dial a b c e f) end.
    set (timeout := if has_status "reachable" (last_result st) && (0 <? attempt)%nat
                    then extended_timeout config else connection_timeout config).
    set (call := mk_dial_call ip port pv timeout (returned d)).
    assert (Hone : forall st1, dial_log st1 = (dial_log st ++ [call])%list ->
              new_dials_ok ip port (length rest) st1
                (try_protocols dial config ip port attempt rest st1) ->
              new_dials_ok ip port (S (length rest)) st
                (try_protocols dial config ip port attempt rest st1)).
    { intros st1 Hst1 Hok. unfold new_dials_ok in *.
      destruct (try_protocols dial config ip port attempt rest st1) as [[r st2]|st2];
        destruct Hok as (new & Hlog & Hlen & Hall);
        (exists (call :: new); rewrite Hlog, Hst1, <- app_assoc; simpl;
         repeat split; [lia|constructor; [reflexivity|exact Hall]]). }
    assert (Hstop : exists new, (dial_log st ++ [call])%list = (dial_log st ++ new)%list /\
                      (length new <= S (length rest))%nat /\
                      Forall (fun c => dial_key c = _node_key ip port) new).
    { exists [call]. repeat split; [simpl; lia|]. constructor; [reflexivity|constructor]. }
    destruct (has_status "up" (returned d)); [exact Hstop|].
    destruct (has_status "reachable" (returned d)); [apply Hone; [reflexivity|apply IH]|].
    destruct (returned d); [apply Hone; [reflexivity|apply IH]|exact Hstop].
Qed.

Lemma try_attempts_dials dial config ip port pvs attempts st :
  new_dials_ok ip port (length attempts * length pvs) st
    (try_attempts dial config ip port pvs attempts st).
Proof.
  revert st. induction attempts as [|attempt rest IH]; intros st; simpl.
  - exists []. rewrite app_nil_r. split; [reflexivity|]. split; [simpl; lia|constructor].
  - match goal with |- context [try_protocols _ _ _ _ _ _ ?s] => set (st1 := s) end.
    assert (Hlog1 : dial_log st1 = dial_log st)
      by (unfold st1; destruct (0 <? attempt)%nat; reflexivity).
    pose proof (try_protocols_dials dial config ip port attempt pvs st1) as Hp.
    destruct (try_protocols dial config ip port attempt pvs st1) as [[r st2]|st2].
    + destruct Hp as (new & Hlog & Hlen & Hall). exists new.
      rewrite Hlog, Hlog1. repeat split; [lia|exact Hall].
    + destruct Hp as (new & Hlog & Hlen & Hall).
      specialize (IH st2). unfold new_dials_ok in *.
      destruct (try_attempts dial config ip port pvs rest st2) as [[r st3]|st3];
        destruct IH as (new' & Hlog' & Hlen' & Hall');
        (exists (new ++ new')%list; rewrite Hlog', Hlog, Hlog1, <- app_assoc;
         repeat split;
         [rewrite length_app; lia | apply Forall_app; split; assumption]).
Qed.

(** One call of [_connect_and_handshake] dials its own target only, and at
    most [dial_bound] times. *)
Lemma _connect_and_handshake_dials dial config ip port :
  (length (dial_log (snd (_connect_and_handshake dial config ip port)))
     <= dial_bound config)%nat /\
  Forall (fun c => dial_key c = _node_key ip port)
    (dial_log (snd (_connect_and_handshake dial config ip port))).
Proof.
  unfold _connect_and_handshake, dial_bound.
  match goal with |- context [try_attempts ?a ?b ?c ?d ?e ?f ?g] =>
    pose proof (try_attempts_dials a b c d e f g) as H;
    destruct (try_attempts a b c d e f g) as [[r st]|st] end;
    destruct H as (new & Hlog & Hlen & Hall); simpl in Hlog; subst new;
    rewrite length_seq in Hlen; simpl in Hlen.
  - simpl. split; [exact Hlen|exact Hall].
  - destruct (has_status "reachable" (last_result st)); simpl; split; assumption.
Qed.

Lemma dials_for_app k l l' : dials_for k (l ++ l') = (dials_for k l ++ dials_for k l')%list.
Proof. apply filter_app. Qed.

Lemma dials_for_none k l :
  Forall (fun c => dial_key c <> k) l -> dials_for k l = [].
Proof.
  unfold dials_for. induction 1 as [|c l Hc Hl IH]; [reflexivity|].
  rewrite filter_cons_False by exact Hc. exact IH.
Qed.

Lemma dials_for_length k l : (length (dials_for k l) <= length l)%nat.
Proof. apply length_filter. Qed.

(** All along a pass the dialer has been called for crawled keys only, and
    at most [dial_bound] times for each. *)
Lemma dials_invariant_step `{Protocol} config node_env ps ps' :
  pass_step config node_env ps ps' ->
  keys_invariant ps ->
  (Forall (fun c => dial_key c ∈ crawled (crawler ps)) (dials ps) /\
   forall k, (length (dials_for k (dials ps)) <= dial_bound config)%nat) ->
  (Forall (fun c => dial_key c ∈ crawled (crawler ps')) (dials ps') /\
   forall k, (length (dials_for k (dials ps')) <= dial_bound config)%nat).
Proof.
  intros Hstep (_ & _ & _ & Hact & _) [Hcr Hb].
  destruct Hstep as [ps order targets Hdone Hne Hperm Hmap
                    |ps i t c go Hi Hph Hbegin
                    |ps i t Hi Hph Hperm
                    |ps i t net now node_info st Hi Hph Hrun];
    cbn [crawler dials].
  - auto.
  - unfold crawl_begin in Hbegin. injection Hbegin as <- _. auto.
  - auto.
  - pose proof (_connect_and_handshake_dials (dial_peers config net) config
                  (task_ip t) (task_port t)) as [Hlen Hall].
    rewrite Hrun in Hlen, Hall. simpl in Hlen, Hall.
    rewrite crawl_record_crawled. cbn [crawled stats_add]. split.
    + apply Forall_app. split.
      * eapply Forall_impl; [exact Hcr|]. intros c Hc. set_solver.
      * eapply Forall_impl; [exact Hall|]. intros c Hc. simpl in Hc. rewrite Hc.
        set_solver.
    + intros k. rewrite dials_for_app, length_app.
      destruct (decide (k = task_key t)) as [->|Hne].
      * rewrite (dials_for_none (task_key t) (dials ps)).
        -- simpl. etransitivity; [apply dials_for_length|exact Hlen].
        -- eapply Forall_impl; [exact Hcr|]. intros c Hc Heq. simpl in Hc.
           rewrite Heq in Hc. exact (Hact i t Hi (or_intror Hph) Hc).
      * rewrite (dials_for_none k (dial_log st)).
        -- simpl. rewrite Nat.add_0_r. apply Hb.
        -- eapply Forall_impl; [exact Hall|]. intros c Hc. simpl in Hc.
           unfold task_key in Hne. congruence.
Qed.

(** C2, as the code has it. In a pass that starts with keys written by
    [_node_key] in [pending], whatever the order in which the coroutines of
    a batch run between their awaits and whatever the peers answer,
    [_connect_and_handshake] is called at most once for every key: the keys
    for which it was called are pairwise distinct. The dialer itself,
    [_try_connect_with_protocol], is called by [_connect_and_handshake] once
    per attempt and protocol version: for every key it is called at most
    (max_retries + 1) * (1 + number of fallback versions) times in the
    pass, which is more than once in general. *)
Theorem C2_one_handshake_per_key `{Protocol} :
  forall (config : CrawlerConfig) (node_env : option string) (c : Crawler) (ps : pass),
    (forall k, k ∈ pending c -> is_node_key k) ->
    rtc (pass_step config node_env) (pass_start config c) ps ->
    NoDup (handshakes ps) /\
    forall k, (length (dials_for k (dials ps)) <= dial_bound config)%nat.
Proof.
  intros config node_env c ps Hp Hrtc.
  enough (Hinv : keys_invariant ps /\
                 Forall (fun d => dial_key d ∈ crawled (crawler ps)) (dials ps) /\
                 forall k, (length (dials_for k (dials ps)) <= dial_bound config)%nat).
  { destruct Hinv as ((Hnd & _) & _ & Hb). split; assumption. }
  revert ps Hrtc.
  apply (rtc_ind_r (fun ps => keys_invariant ps /\
           Forall (fun d => dial_key d ∈ crawled (crawler ps)) (dials ps) /\
           forall k, (length (dials_for k (dials ps)) <= dial_bound config)%nat)).
  - split; [apply keys_invariant_start, Hp|]. simpl. split; [constructor|].
    intros k. simpl. lia.
  - intros ps1 ps2 _ Hstep (Hk & Hd). split.
    + eapply keys_invariant_step; eassumption.
    + eapply dials_invariant_step; eassumption.
Qed.

(** The example pass is a run of the crawler. *)
Lemma solo_pass_runs net :
  rtc (pass_step refused_config None) (pass_start refused_config refused_start)
      (solo_end net).
Proof.
  eapply rtc_l.
  { apply (step_batch refused_config None (pass_start refused_config refused_start)
             ["198.51.100.99:1"] [("198.51.100.99", 1)]).
    - constructor.
    - simpl. intros E. apply (f_equal (fun s => elements s)) in E.
      rewrite elements_singleton, elements_empty in E. discriminate.
    - simpl. rewrite elements_singleton. reflexivity.
    - reflexivity. }
  eapply rtc_l.
  { eapply (step_begin refused_config None _ 0%nat); [reflexivity|reflexivity|reflexivity]. }
  eapply rtc_l.
  { eapply (step_acquire refused_config None _ 0%nat); [vm_compute; reflexivity|reflexivity|].
    simpl. lia. }
  eapply rtc_l.
  { eapply (step_finish refused_config None _ 0%nat _ net 0%Q);
      [vm_compute; reflexivity|reflexivity|apply surjective_pairing]. }
  apply rtc_refl.
Qed.

Lemma refused_pass_runs :
  rtc (pass_step refused_config None) (pass_start refused_config refused_start) refused_end.
Proof. apply solo_pass_runs. Qed.

Lemma refused_start_keys k : k ∈ pending refused_start -> is_node_key k.
Proof.
  unfold refused_start. cbn [pending]. intros Hk.
  apply elem_of_singleton in Hk. subst k.
  exists "198.51.100.99", 1. reflexivity.
Qed.

Lemma C2_one_handshake_per_key_witness :
  (forall k, k ∈ pending refused_start -> is_node_key k) /\
  rtc (pass_step refused_config None) (pass_start refused_config refused_start) refused_end /\
  NoDup (handshakes refused_end) /\
  forall k, (length (dials_for k (dials refused_end)) <= dial_bound refused_config)%nat.
Proof.
  split; [exact refused_start_keys|]. split; [exact refused_pass_runs|].
  exact (C2_one_handshake_per_key refused_config None refused_start refused_end
           refused_start_keys refused_pass_runs).
Defined.

(** C2, as the claim states it, fails. In the example pass, over the single
    key 198.51.100.99:1 refused at every connect, with one retry, the dialer
    [_try_connect_with_protocol] is called twice for that key. *)
Lemma C2_counterexample :
  rtc (pass_step refused_config None) (pass_start refused_config refused_start) refused_end /\
  dial_key <$> dials refused_end = ["198.51.100.99:1"; "198.51.100.99:1"] /\
  handshakes refused_end = ["198.51.100.99:1"].
Proof.
  split; [exact refused_pass_runs|]. split; vm_compute; reflexivity.
Qed.

(** ** Version data of the nodes that are "up" *)

Lemma try_protocols_log (P : option NodeInfo -> Prop) dial config ip port attempt pvs st :
  (forall n ip port pv timeout, P (returned (dial n ip port pv timeout))) ->
  Forall (fun c => P (dial_returned c)) (dial_log st) ->
  match try_protocols dial config ip port attempt pvs st with
  | inl (_, st') | inr st' => Forall (fun c => P (dial_returned c)) (dial_log st')
  end.
Proof.
  intros HP. revert st. induction pvs as [|pv rest IH]; intros st Hst; simpl.
  - exact Hst.
  - match goal with |- context [dial ?a ?b ?c ?e ?f] => set (d := dial a b c e f) end.
    assert (Hst' : Forall (fun c => P (dial_returned c))
                     (dial_log st ++ [mk_dial_call ip port pv
                        (if has_status "reachable" (last_result st) && (0 <? attempt)%nat
                         then extended_timeout config else connection_timeout config)
                        (returned d)])).
    { apply Forall_app. split; [exact Hst|]. constructor; [apply HP|constructor]. }
    destruct (has_status "up" (returned d)); [exact Hst'|].
    destruct (has_status "reachable" (returned d)); [apply IH; exact Hst'|].
    destruct (returned d); [apply IH; exact Hst'|exact Hst'].
Qed.

Lemma try_attempts_log (P : option NodeInfo -> Prop) dial config ip port pvs attempts st :
  (forall n ip port pv timeout, P (returned (dial n ip port pv timeout))) ->
  Forall (fun c => P (dial_returned c)) (dial_log st) ->
  match try_attempts dial config ip port pvs attempts st with
  | inl (_, st') | inr st' => Forall (fun c => P (dial_returned c)) (dial_log st')
  end.
Proof.
  intros HP. revert st. induction attempts as [|attempt rest IH]; intros st Hst; simpl.
  - exact Hst.
  - match goal with |- context [try_protocols _ _ _ _ _ _ ?s] => set (st1 := s) end.
    assert (H1 : Forall (fun c => P (dial_returned c)) (dial_log st1))
      by (unfold st1; destruct (0 <? attempt)%nat; exact Hst).
    pose proof (try_protocols_log P dial config ip port attempt pvs st1 HP H1) as Hp.
    destruct (try_protocols _ _ _ _ _ _ st1) as [[r st2]|st2]; [exact Hp|].
    apply IH, Hp.
Qed.

(** Whatever holds of everything the dialer returns holds of what the last
    dial of [_connect_and_handshake] returned. *)
Lemma last_returned_of_dialer (P : option NodeInfo -> Prop) dial config ip port :
  (forall n ip port pv timeout, P (returned (dial n ip port pv timeout))) ->
  P None ->
  P (last_returned (dial_log (snd (_connect_and_handshake dial config ip port)))).
Proof.
  intros HP HNone.
  assert (Hall : Forall (fun c => P (dial_returned c))
                   (dial_log (snd (_connect_and_handshake dial config ip port)))).
  { unfold _connect_and_handshake.
    match goal with |- context [try_attempts ?a ?b ?c ?d ?e ?f ?g] =>
      pose proof (try_attempts_log P a b c d e f g HP (Forall_nil_2 _)) as H;
      destruct (try_attempts a b c d e f g) as [[r st]|st] end.
    - exact H.
    - destruct (has_status "reachable" (last_result st)); exact H. }
  unfold last_returned.
  destruct (last _) as [c|] eqn:E; [|exact HNone].
  rewrite Forall_forall in Hall. apply Hall.
  apply last_Some in E as [l' ->]. apply elem_of_app. right. left.
Qed.

(** What [_connect_and_handshake] returns with status "up" comes from a
    completed handshake. *)
Lemma _connect_and_handshake_up_versioned `{Protocol} config net ip port n :
  fst (_connect_and_handshake (dial_peers config net) config ip port) = Some n ->
  NodeInfo.status n = "up" -> versioned n.
Proof.
  intros Hr Hup.
  pose proof (_connect_and_handshake_last (dial_peers config net) config ip port) as Hlast.
  pose proof (last_returned_of_dialer
    (fun x => forall n, x = Some n -> NodeInfo.status n = "up" -> versioned n)
    (dial_peers config net) config ip port) as Hall.
  destruct (_connect_and_handshake (dial_peers config net) config ip port) as [r st].
  simpl in *. subst r.
  assert (Hl : last_returned (dial_log st) = Some n).
  { destruct (has_status "up" (last_returned (dial_log st))); [symmetry; exact Hlast|].
    unfold reachable_or_none in Hlast.
    destruct (has_status "reachable" (last_returned (dial_log st)));
      [symmetry; exact Hlast|discriminate]. }
  apply (Hall) with (n := n); try assumption.
  - intros m ip' port' pv timeout n' Hn' Hup'. unfold dial_peers in Hn'.
    eapply dial_up_versioned; eassumption.
  - discriminate.
Qed.

Lemma crawl_record_nodes_fresh node_env now ip port node_info c :
  nodes c !! _node_key ip port = None ->
  nodes (crawl_record node_env now ip port node_info c)
  = <[_node_key ip port := match node_info with
                           | Some n => n
                           | None => node_info_unreachable now ip port
                           end]> (nodes c).
Proof.
  intros Hfresh. unfold crawl_record.
  destruct node_info as [n|].
  - match goal with |- context [admit_peers ?e ?p ?c0] =>
      destruct (admit_peers_frame e p c0) as (-> & _ & _) end.
    cbn [nodes stats_add set_crawled]. rewrite Hfresh. reflexivity.
  - cbn [nodes stats_add set_crawled]. rewrite Hfresh. reflexivity.
Qed.

Lemma nodes_invariant_step `{Protocol} config node_env ps ps' :
  pass_step config node_env ps ps' ->
  keys_invariant ps ->
  dom (nodes (crawler ps)) ⊆ crawled (crawler ps) /\ up_nodes_versioned (crawler ps) ->
  dom (nodes (crawler ps')) ⊆ crawled (crawler ps') /\ up_nodes_versioned (crawler ps').
Proof.
  intros Hstep (_ & _ & _ & Hact & _) [Hdom Hup].
  destruct Hstep as [ps order targets Hdone Hne Hperm Hmap
                    |ps i t c go Hi Hph Hbegin
                    |ps i t Hi Hph Hperm
                    |ps i t net now node_info st Hi Hph Hrun];
    cbn [crawler].
  - auto.
  - unfold crawl_begin in Hbegin. injection Hbegin as <- _. auto.
  - auto.
  - assert (Hfresh : nodes (crawler ps) !! task_key t = None).
    { apply not_elem_of_dom. intros Hin. apply Hdom in Hin.
      exact (Hact i t Hi (or_intror Hph) Hin). }
    unfold up_nodes_versioned.
    rewrite crawl_record_crawled.
    rewrite crawl_record_nodes_fresh by exact Hfresh.
    cbn [nodes crawled stats_add]. split.
    + rewrite dom_insert. set_solver.
    + intros k n Hk Hst.
      apply lookup_insert_Some in Hk as [[_ <-]|[_ Hk]].
      * destruct node_info as [n0|]; [|discriminate Hst].
        eapply _connect_and_handshake_up_versioned; [|exact Hst].
        rewrite Hrun. reflexivity.
      * eapply Hup; eassumption.
Qed.

Lemma rpc_node_info_fields now info ip port :
  NodeInfo.status (rpc_node_info now info ip port) = "up" /\
  NodeInfo.user_agent (rpc_node_info now info ip port) = li_subversion info /\
  NodeInfo.protocol_version (rpc_node_info now info ip port) = li_version info.
Proof. repeat split. Qed.

Lemma get_local_node_info_fields ni info :
  get_local_node_info (Ok (Some ni)) = Some info ->
  li_subversion info = member_get_default (subversion ni) EmptyString /\
  li_version info = member_get (protocolversion ni).
Proof.
  unfold get_local_node_info.
  destruct (member_get_default (localaddresses ni) []) as [addrs|]; [|discriminate].
  intros [= <-]. split; reflexivity.
Qed.

(** What [_mark_rpc_node_as_up] does to [nodes]: nothing, or it writes the
    entry of the local node under one key, which it adds to [crawled]. *)
Lemma _mark_rpc_node_as_up_writes test now answer c :
  let c' := _mark_rpc_node_as_up test now (Some answer) c in
  (nodes c' = nodes c /\ crawled c' = crawled c) \/
  exists ni info ip port,
    answer = Ok (Some ni) /\ get_local_node_info answer = Some info /\
    nodes c' = <[_node_key ip port := rpc_node_info now info ip port]> (nodes c) /\
    crawled c' = {[_node_key ip port]} ∪ crawled c.
Proof.
  unfold _mark_rpc_node_as_up.
  destruct (get_local_node_info answer) as [info|] eqn:Hinfo; [|left; split; reflexivity].
  destruct answer as [[ni|]|e]; try discriminate Hinfo.
  destruct (local_addresses info) as [|a l] eqn:Ha; [left; split; reflexivity|].
  destruct (select_local_address test (a :: l)) as [[ip port]|];
    [|left; split; reflexivity].
  match goal with |- context [fold_left ?f ?l0 ?c0] =>
    destruct (discard_fold_nodes l0 c0) as (Hn & Hc & _ & _) end.
  cbv zeta. rewrite Hn, Hc. cbn [nodes crawled set_nodes set_pending set_crawled].
  right. exists ni, info, ip, port. repeat split.
Qed.

Lemma _mark_rpc_node_as_up_entries test now answer c k n :
  nodes (_mark_rpc_node_as_up test now (Some answer) c) !! k = Some n ->
  nodes c !! k = Some n \/
  exists ni,
    answer = Ok (Some ni) /\ NodeInfo.status n = "up" /\
    NodeInfo.user_agent n = member_get_default (subversion ni) EmptyString /\
    NodeInfo.protocol_version n = member_get (protocolversion ni).
Proof.
  destruct (_mark_rpc_node_as_up_writes test now answer c)
    as [[-> _]|(ni & info & ip & port & -> & Hinfo & -> & _)]; [auto|].
  intros [[_ <-]|[_ Hk]]%lookup_insert_Some; [|auto].
  right. exists ni. split; [reflexivity|].
  destruct (get_local_node_info_fields ni info Hinfo) as [Hs Hv].
  destruct (rpc_node_info_fields now info ip port) as (H1 & H2 & H3).
  rewrite H1, H2, H3, Hs, Hv. repeat split.
Qed.

(** What [_mark_rpc_node_as_up] leaves when it starts from an empty
    [nodes]: the only entry is the local node, whose key is in [crawled];
    that entry carries version data when [getnetworkinfo] reported a
    protocol version, and a subversion that is not null. *)
Lemma _mark_rpc_node_as_up_nodes test now answer c :
  nodes c = ∅ ->
  let c' := _mark_rpc_node_as_up test now (Some answer) c in
  dom (nodes c') ⊆ crawled c' /\
  ((forall ni, answer = Ok (Some ni) ->
      is_Some (member_get (protocolversion ni)) /\ subversion ni <> Null) ->
   up_nodes_versioned c').
Proof.
  intros Hempty c'. split.
  - subst c'.
    destruct (_mark_rpc_node_as_up_writes test now answer c)
      as [[-> _]|(ni & info & ip & port & _ & _ & -> & ->)]; rewrite Hempty.
    + rewrite dom_empty. apply empty_subseteq.
    + rewrite dom_insert, dom_empty. set_solver.
  - intros Hv k n Hk _.
    apply _mark_rpc_node_as_up_entries in Hk as [Hk|(ni & -> & _ & Hua & Hpv)].
    + rewrite Hempty, lookup_empty in Hk. discriminate Hk.
    + destruct (Hv ni eq_refl) as [Hp Hs]. split; [rewrite Hpv; exact Hp|].
      rewrite Hua. destruct (subversion ni); [eauto|contradiction|eauto].
Qed.

(** C5, as the code has it. (1) A [NodeInfo] with status "up" returned by
    [_try_connect_with_protocol] has non-null protocol_version and
    user_agent. (2) An entry of [nodes] that [_mark_rpc_node_as_up] writes
    has status "up", as user_agent what [network_info.get("subversion", "")]
    gives (the empty string when [getnetworkinfo] carries no subversion,
    null when it carries null) and as protocol_version what
    [network_info.get("protocolversion")] gives (null when the answer does
    not carry one): it need not carry either. (3) Started from an empty
    [nodes], as [run_single_pass] starts it, [_mark_rpc_node_as_up] leaves
    every key of [nodes] in [crawled], and every "up" entry with both fields
    when the answer holds a protocolversion and no null subversion. (4) In a
    crawl that starts with [pending] holding keys written by [_node_key],
    with every key of [nodes] in [crawled] and with every "up" entry
    carrying both fields, every "up" entry carries both at every point of
    the crawl, the flush included. *)
Theorem C5_up_nodes_carry_version `{Protocol} :
  (forall (config : CrawlerConfig) (ip : string) (port protocol_version : Z)
          (timeout : Q) (p : peer) (n : NodeInfo),
     returned (fst (_try_connect_with_protocol config ip port protocol_version timeout p))
       = Some n ->
     NodeInfo.status n = "up" ->
     is_Some (NodeInfo.protocol_version n) /\ is_Some (NodeInfo.user_agent n)) /\
  (forall (test : string -> Z -> bool) (now : Q) (answer : result (option network_info))
          (c : Crawler) (k : string) (n : NodeInfo),
     nodes (_mark_rpc_node_as_up test now (Some answer) c) !! k = Some n ->
     nodes c !! k = Some n \/
     exists ni,
       answer = Ok (Some ni) /\ NodeInfo.status n = "up" /\
       NodeInfo.user_agent n = member_get_default (subversion ni) EmptyString /\
       NodeInfo.protocol_version n = member_get (protocolversion ni)) /\
  (forall (test : string -> Z -> bool) (now : Q) (answer : result (option network_info))
          (c : Crawler),
     nodes c = ∅ ->
     let c' := _mark_rpc_node_as_up test now (Some answer) c in
     dom (nodes c') ⊆ crawled c' /\
     ((forall ni, answer = Ok (Some ni) ->
         is_Some (member_get (protocolversion ni)) /\ subversion ni <> Null) ->
      up_nodes_versioned c')) /\
  (forall (config : CrawlerConfig) (node_env : option string) (c : Crawler) (ps : pass),
     (forall k, k ∈ pending c -> is_node_key k) ->
     dom (nodes c) ⊆ crawled c ->
     up_nodes_versioned c ->
     rtc (pass_step config node_env) (pass_start config c) ps ->
     forall k n, nodes (crawler ps) !! k = Some n -> NodeInfo.status n = "up" ->
       is_Some (NodeInfo.protocol_version n) /\ is_Some (NodeInfo.user_agent n)).
Proof.
  split; [intros; eapply dial_up_versioned; eassumption|].
  split; [intros test now answer c k n; apply _mark_rpc_node_as_up_entries|].
  split; [intros test now answer c; apply _mark_rpc_node_as_up_nodes|].
  intros config node_env c ps Hp Hdom Hup Hrtc.
  enough (Hinv : keys_invariant ps /\
                 dom (nodes (crawler ps)) ⊆ crawled (crawler ps) /\
                 up_nodes_versioned (crawler ps)).
  { destruct Hinv as (_ & _ & Hv). exact Hv. }
  revert ps Hrtc.
  apply (rtc_ind_r (fun ps => keys_invariant ps /\
                      dom (nodes (crawler ps)) ⊆ crawled (crawler ps) /\
                      up_nodes_versioned (crawler ps))).
  - split; [apply keys_invariant_start, Hp|]. split; assumption.
  - intros ps1 ps2 _ Hstep (Hk & Hn). split.
    + eapply keys_invariant_step; eassumption.
    + eapply nodes_invariant_step; eassumption.
Qed.

Lemma C5_up_nodes_carry_version_witness :
  let net := fun _ : nat => talking_peer 0 [(203%N, 0%N, 113%N, 7%N, 33117)] in
  (forall k, k ∈ pending refused_start -> is_node_key k) /\
  dom (nodes refused_start) ⊆ crawled refused_start /\
  up_nodes_versioned refused_start /\
  rtc (pass_step refused_config None) (pass_start refused_config refused_start)
      (solo_end net) /\
  (exists n, nodes (crawler (solo_end net)) !! "198.51.100.99:1" = Some n /\
     NodeInfo.status n = "up" /\
     is_Some (NodeInfo.protocol_version n) /\ is_Some (NodeInfo.user_agent n)).
Proof.
  intros net.
  assert (Hdom : dom (nodes refused_start) ⊆ crawled refused_start).
  { unfold refused_start. cbn [nodes crawled]. rewrite dom_empty. reflexivity. }
  assert (Hup : up_nodes_versioned refused_start).
  { intros k n Hk. unfold refused_start in Hk. cbn [nodes] in Hk.
    rewrite lookup_empty in Hk. discriminate Hk. }
  split; [exact refused_start_keys|]. split; [exact Hdom|]. split; [exact Hup|].
  split; [apply solo_pass_runs|].
  destruct (nodes (crawler (solo_end net)) !! "198.51.100.99:1") as [n|] eqn:E;
    [|vm_compute in E; discriminate E].
  assert (Hst : NodeInfo.status n = "up")
    by (vm_compute in E; injection E as <-; reflexivity).
  exists n. split; [reflexivity|]. split; [exact Hst|].
  exact (proj2 (proj2 (proj2 C5_up_nodes_carry_version)) refused_config None refused_start
           (solo_end net) refused_start_keys Hdom Hup (solo_pass_runs net)
           "198.51.100.99:1" n E Hst).
Defined.

(** C5, as the claim states it, fails for the local node, in two ways. When
    the answer of [getnetworkinfo] carries no [protocolversion],
    [_mark_rpc_node_as_up] writes an entry with status "up" whose
    protocol_version is null; when it carries a null [subversion], the entry
    has a null user_agent. With nothing to crawl, that is the entry the
    flush reads. *)
Lemma C5_counterexample :
  let ni := {| localaddresses := Value [(Some "198.51.100.7", Some 33117)];
               protocolversion := Absent; subversion := Value "/Dingocoin:1.18.0/";
               connections := Value 8 |} in
  let ni' := {| localaddresses := Value [(Some "198.51.100.7", Some 33117)];
                protocolversion := Value 70015; subversion := Null;
                connections := Value 8 |} in
  let c := _mark_rpc_node_as_up (fun _ _ => true) 0 (Some (Ok (Some ni)))
             (mk_Crawler ∅ ∅ ∅ ∅) in
  let c' := _mark_rpc_node_as_up (fun _ _ => true) 0 (Some (Ok (Some ni')))
              (mk_Crawler ∅ ∅ ∅ ∅) in
  pending c = ∅ /\
  (exists n, nodes c !! "198.51.100.7:33117" = Some n /\
             NodeInfo.status n = "up" /\
             NodeInfo.protocol_version n = None) /\
  pending c' = ∅ /\
  (exists n, nodes c' !! "198.51.100.7:33117" = Some n /\
             NodeInfo.status n = "up" /\
             NodeInfo.user_agent n = None).
Proof.
  intros ni ni' c c'. split; [reflexivity|]. split.
  - eexists. split; [vm_compute; reflexivity|]. split; reflexivity.
  - split; [reflexivity|].
    eexists. split; [vm_compute; reflexivity|]. split; reflexivity.
Qed.

(** The condition on [crawled] cannot be dropped. An entry that is in
    [nodes] without its key in [crawled] is updated when its key is crawled:
    a handshake sets its status to "up" and copies the version fields, but
    not [user_agent], which stays null if it was. *)
Example stale_entry_goes_up_without_user_agent :
  let net := fun _ : nat => talking_peer 0 [] in
  let c := mk_Crawler {[ "198.51.100.99:1" := reachable_node 0 "198.51.100.99" 1 50 ]}
                      {[ "198.51.100.99:1" ]} ∅ ∅ in
  let run := _connect_and_handshake (dial_peers refused_config net) refused_config
               "198.51.100.99" 1 in
  let c' := crawl_record None 0 "198.51.100.99" 1 (fst run) c in
  up_nodes_versioned c /\
  exists n, nodes c' !! "198.51.100.99:1" = Some n /\
            NodeInfo.status n = "up" /\
            is_Some (NodeInfo.protocol_version n) /\
            NodeInfo.user_agent n = None.
Proof.
  intros net c run c'. split.
  - intros k n Hk Hst. unfold c in Hk. cbn [nodes] in Hk.
    apply lookup_singleton_Some in Hk as [_ <-]. discriminate Hst.
  - destruct (nodes c' !! "198.51.100.99:1") as [n|] eqn:E;
      [|vm_compute in E; discriminate E].
    exists n. split; [reflexivity|].
    vm_compute in E. injection E as <-. repeat split. eauto.
Qed.

(** ** [_crawl_node] as steps of the pass *)

(** A coroutine that the event loop runs from start to end, with a free slot
    of the semaphore, does what [_crawl_node] does. *)
Lemma _crawl_node_steps `{Protocol} config node_env net now ps i t :
  tasks ps !! i = Some t -> task_phase t = Ready -> (0 < permits ps)%Z ->
  exists ps',
    rtc (pass_step config node_env) ps ps' /\
    crawler ps' = _crawl_node (dial_peers config net) config node_env now
                    (task_ip t) (task_port t) (crawler ps).
Proof.
  intros Hi Hph Hperm. unfold _crawl_node.
  destruct (crawl_begin (_node_key (task_ip t) (task_port t)) (crawler ps))
    as [c go] eqn:Hbegin.
  pose proof (step_begin config node_env ps i t c go Hi Hph Hbegin) as Hs1.
  destruct go.
  - set (ps1 := mk_pass c (set_phase i Waiting (tasks ps)) (permits ps)
                        (handshakes ps) (dials ps)) in *.
    assert (Hi1 : tasks ps1 !! i = Some (mk_task (task_ip t) (task_port t) Waiting))
      by (apply set_phase_lookup_eq, Hi).
    pose proof (step_acquire config node_env ps1 i _ Hi1 eq_refl Hperm) as Hs2.
    set (ps2 := mk_pass (crawl_acquired (crawler ps1)) (set_phase i Dialing (tasks ps1))
                        (permits ps1 - 1) _ (dials ps1)) in *.
    assert (Hi2 : tasks ps2 !! i = Some (mk_task (task_ip t) (task_port t) Dialing))
      by (apply (set_phase_lookup_eq i Dialing (tasks ps1) _ Hi1)).
    destruct (_connect_and_handshake (dial_peers config net) config (task_ip t) (task_port t))
      as [node_info st] eqn:Hrun.
    pose proof (step_finish config node_env ps2 i _ net now node_info st Hi2 eq_refl Hrun)
      as Hs3.
    eexists. split.
    + eapply rtc_l; [exact Hs1|]. eapply rtc_l; [exact Hs2|].
      eapply rtc_l; [exact Hs3|]. apply rtc_refl.
    + reflexivity.
  - eexists. split; [eapply rtc_once; exact Hs1|]. reflexivity.
Qed.

(** ** A key that is advertised while it is being dialed *)

(** Both keys of [duo_start] are dialed in one batch. The first peer answers
    while the second one is still being dialed and advertises it: the key of
    the second one goes back to [pending]. The next batch takes it, finds it
    in [crawled] and returns: each key was handed to
    [_connect_and_handshake] once. *)
Ltac normalize_pass :=
  match goal with
  | |- rtc _ ?s _ =>
      let s' := eval vm_compute in s in
      replace s with s' by (vm_compute; reflexivity)
  end.

Example readmitted_key_is_not_dialed_again :
  exists mid last_,
    rtc (pass_step refused_config None) (pass_start refused_config duo_start) mid /\
    rtc (pass_step refused_config None) mid last_ /\
    (task_phase <$> tasks mid) = [Done; Dialing] /\
    pending (crawler mid) = {[ "203.0.113.7:33117" ]} /\
    (task_phase <$> tasks last_) = [Done] /\
    pending (crawler last_) = ∅ /\
    crawled (crawler last_) = {[ "198.51.100.5:33117"; "203.0.113.7:33117" ]} /\
    handshakes last_ = ["203.0.113.7:33117"; "198.51.100.5:33117"].
Proof.
  eexists. eexists. split; [|split].
  - eapply rtc_l.
    { apply (step_batch refused_config None (pass_start refused_config duo_start)
               (elements (pending duo_start))
               [("198.51.100.5", 33117); ("203.0.113.7", 33117)]).
      - constructor.
      - intros E. apply (f_equal (fun s => elements s)) in E.
        vm_compute in E. discriminate E.
      - reflexivity.
      - vm_compute. reflexivity. }
    normalize_pass. eapply rtc_l.
    { eapply (step_begin refused_config None _ 0%nat); [reflexivity|reflexivity|reflexivity]. }
    normalize_pass. eapply rtc_l.
    { eapply (step_begin refused_config None _ 1%nat); [reflexivity|reflexivity|reflexivity]. }
    normalize_pass. eapply rtc_l.
    { eapply (step_acquire refused_config None _ 0%nat);
        [reflexivity|reflexivity|simpl; lia]. }
    normalize_pass. eapply rtc_l.
    { eapply (step_acquire refused_config None _ 1%nat);
        [reflexivity|reflexivity|simpl; lia]. }
    normalize_pass. eapply rtc_l.
    { eapply (step_finish refused_config None _ 0%nat _
                (fun _ => talking_peer 0 [(203%N, 0%N, 113%N, 7%N, 33117)]) 0%Q);
        [reflexivity|reflexivity|apply surjective_pairing]. }
    normalize_pass. apply rtc_refl.
  - eapply rtc_l.
    { eapply (step_finish refused_config None _ 1%nat _ (fun _ => refusing_peer 0) 0%Q);
        [reflexivity|reflexivity|apply surjective_pairing]. }
    normalize_pass. eapply rtc_l.
    { eapply (step_batch refused_config None _ ["203.0.113.7:33117"]
                [("203.0.113.7", 33117)]).
      - repeat constructor.
      - intros E. apply (f_equal (fun s => elements s)) in E.
        vm_compute in E. discriminate E.
      - vm_compute. reflexivity.
      - vm_compute. reflexivity. }
    normalize_pass. eapply rtc_l.
    { eapply (step_begin refused_config None _ 0%nat); [reflexivity|reflexivity|reflexivity]. }
    normalize_pass. apply rtc_refl.
  - repeat (split; [vm_compute; reflexivity|]). vm_compute; reflexivity.
Qed.

(** * Properties of the retry loop, the pass, the seeders and the flush *)

(** X1. For a port between 0 and 65535, the key written by _node_key for
    (ip, port) is split back by _crawl_pending (rsplit at the last colon,
    int of the port) into the same ip and port, also when the ip is an IPv6
    address full of colons; two targets with the same key are the same
    target. *)
Theorem X1_node_key_round_trip :
  forall (ip ip' : string) (port port' : Z),
    0 <= port < 65536 -> 0 <= port' < 65536 ->
    key_target (_node_key ip port) = Some (ip, port) /\
    (_node_key ip port = _node_key ip' port' -> ip = ip' /\ port = port').
Proof.
  intros ip ip' port port' _ _. split.
  - apply key_target_node_key.
  - apply _node_key_inj.
Qed.

Lemma X1_node_key_round_trip_witness :
  0 <= 33117 < 65536 /\
  key_target (_node_key "2400:6180:10:200::1167:7000" 33117)
    = Some ("2400:6180:10:200::1167:7000", 33117) /\
  (_node_key "2400:6180:10:200::1167:7000" 33117 = _node_key "2400:6180:10:200::1167:7000" 33117 ->
   "2400:6180:10:200::1167:7000" = "2400:6180:10:200::1167:7000" /\ 33117 = 33117).
Proof.
  assert (Hport : 0 <= 33117 < 65536) by lia.
  split; [exact Hport|].
  exact (X1_node_key_round_trip "2400:6180:10:200::1167:7000" "2400:6180:10:200::1167:7000"
           33117 33117 Hport Hport).
Defined.

(** ** Versions written as dotted numerals *)

Lemma decimal_nonempty n : decimal n <> EmptyString.
Proof.
  unfold decimal. rewrite NilZero_string_of_uint_nonnil by apply N_to_uint_nonnil.
  apply string_of_uint_nonempty, N_to_uint_nonnil.
Qed.

Lemma filter_chars_all p s : all_chars p s = true -> Py.filter_chars p s = s.
Proof.
  induction s as [|c s IH]; simpl; [reflexivity|].
  intros [Hc Hs]%andb_prop. rewrite Hc, (IH Hs). reflexivity.
Qed.

Lemma normalize_part_decimal n : normalize_part (decimal n) = Some (Z.of_N n).
Proof.
  unfold normalize_part. rewrite filter_chars_all by apply decimal_digits.
  pose proof (decimal_nonempty n) as Hne. pose proof (int_decimal n) as Hi.
  fold (decimal n) in Hi. destruct (decimal n); [congruence|exact Hi].
Qed.

Lemma split_dotted l : l <> [] -> Py.split "." (dotted l) = decimal <$> l.
Proof.
  assert (Hd : forall n, Py.mem_char "." (decimal n) = false)
    by (intros n; apply mem_char_digits; [reflexivity | apply decimal_digits]).
  induction l as [|n l IH]; [congruence|]. intros _.
  destruct l as [|m l].
  - simpl. apply split_no_sep, Hd.
  - change (dotted (n :: m :: l)) with (decimal n +:+ "." +:+ dotted (m :: l)).
    rewrite string_app_cons, string_app_nil.
    rewrite split_app by apply Hd. rewrite IH by congruence. reflexivity.
Qed.

Lemma dotted_chars l : all_chars digit_or_dot (dotted l) = true.
Proof.
  assert (Hd : forall n, all_chars digit_or_dot (decimal n) = true).
  { intros n. eapply all_chars_impl; [|apply decimal_digits].
    intros c Hc. unfold digit_or_dot. rewrite Hc. reflexivity. }
  induction l as [|n l IH]; [reflexivity|].
  destruct l as [|m l]; [apply Hd|].
  change (dotted (n :: m :: l)) with (decimal n +:+ "." +:+ dotted (m :: l)).
  rewrite !all_chars_app, Hd, IH. reflexivity.
Qed.

Lemma digit_or_dot_plain c :
  digit_or_dot c = true ->
  negb (Py.isspace c) = true /\ negb (Py.mem_char c "v") = true /\
  negb (Py.mem_char c "V") = true.
Proof.
  unfold digit_or_dot. intros [H|H]%orb_prop.
  - destruct (isdigit_cases c H) as [->|[->|[->|[->|[->|[->|[->|[->|[->| ->]]]]]]]]];
      repeat split; reflexivity.
  - apply Ascii.eqb_eq in H as ->. repeat split; reflexivity.
Qed.

(** A string of digits and dots is left as it is by the three strips. *)
Lemma strips_plain s :
  all_chars digit_or_dot s = true ->
  Py.lstrip "V" (Py.lstrip "v" (Py.strip s)) = s.
Proof.
  intros H.
  rewrite strip_none
    by (eapply all_chars_impl; [|exact H]; intros c Hc; apply digit_or_dot_plain, Hc).
  unfold Py.lstrip.
  rewrite (lstrip_by_none (fun c => Py.mem_char c "v") s)
    by (eapply all_chars_impl; [|exact H]; intros c Hc; apply digit_or_dot_plain, Hc).
  apply lstrip_by_none.
  eapply all_chars_impl; [|exact H]. intros c Hc. apply digit_or_dot_plain, Hc.
Qed.

Lemma mapM_normalize_decimal l :
  mapM normalize_part (decimal <$> l) = Some (Z.of_N <$> l).
Proof.
  induction l as [|n l IH]; [reflexivity|].
  cbn [fmap list_fmap mapM]. change (list_fmap N string decimal l) with (decimal <$> l).
  rewrite normalize_part_decimal, IH. reflexivity.
Qed.

Lemma take4_pad4 (l : list Z) :
  take 4 (pad4 (take 4 l)) = take 4 (l ++ [0; 0; 0; 0]).
Proof.
  unfold pad4.
  destruct l as [|a [|b [|c [|d l]]]]; reflexivity.
Qed.

Lemma _normalize_version_plain s :
  all_chars digit_or_dot s = true ->
  _normalize_version s =
  (normalized ← mapM normalize_part (take 4 (Py.split "." s));
   Some (take 4 (pad4 normalized))).
Proof. intros H. unfold _normalize_version. rewrite strips_plain by exact H. reflexivity. Qed.

Lemma _normalize_version_dotted l :
  l <> [] ->
  _normalize_version (dotted l) = Some (take 4 ((Z.of_N <$> l) ++ [0; 0; 0; 0])).
Proof.
  intros Hne. rewrite _normalize_version_plain by apply dotted_chars.
  rewrite split_dotted by exact Hne.
  rewrite <- fmap_take, mapM_normalize_decimal. cbn [mbind option_bind].
  rewrite fmap_take, take4_pad4. reflexivity.
Qed.

(** X2. For a version written as decimal numerals joined by dots (at least
    one component, each below 10^9), _normalize_version returns its first
    four components, padded with zeros, and ignores a leading v;
    _versions_match of two such versions is true exactly when their first
    four zero-padded components agree, so components after the fourth never
    count. *)
Theorem X2_versions_as_dotted_numerals :
  forall l l' : list N,
    l <> [] -> l' <> [] ->
    Forall (fun n => (n < 1000000000)%N) l -> Forall (fun n => (n < 1000000000)%N) l' ->
    _normalize_version (dotted l) = Some (take 4 ((Z.of_N <$> l) ++ [0; 0; 0; 0])) /\
    _normalize_version ("v" +:+ dotted l) = _normalize_version (dotted l) /\
    _versions_match (dotted l) (dotted l')
      = Some (bool_decide (take 4 (l ++ [0; 0; 0; 0]%N) = take 4 (l' ++ [0; 0; 0; 0]%N))).
Proof.
  intros l l' Hl Hl' _ _.
  split; [apply _normalize_version_dotted, Hl|]. split.
  - unfold _normalize_version at 1.
    assert (Hs : Py.lstrip "V" (Py.lstrip "v" (Py.strip ("v" +:+ dotted l))) = dotted l).
    { rewrite strip_none.
      - rewrite string_app_cons, string_app_nil. unfold Py.lstrip at 2.
        cbn [Py.lstrip_by Py.mem_char]. rewrite Ascii.eqb_refl. cbn [orb].
        fold (Py.lstrip "v" (dotted l)).
        pose proof (strips_plain (dotted l) (dotted_chars l)) as Hp.
        rewrite strip_none in Hp; [exact Hp|].
        eapply all_chars_impl; [|apply dotted_chars].
        intros c Hc. apply digit_or_dot_plain, Hc.
      - rewrite string_app_cons, string_app_nil. cbn [all_chars].
        apply andb_true_intro. split; [reflexivity|].
        eapply all_chars_impl; [|apply dotted_chars].
        intros c Hc. apply digit_or_dot_plain, Hc. }
    rewrite Hs. symmetry. apply _normalize_version_plain, dotted_chars.
  - unfold _versions_match.
    rewrite !_normalize_version_dotted by assumption. cbn [mbind option_bind].
    f_equal. apply bool_decide_ext.
    change [0; 0; 0; 0] with (Z.of_N <$> [0; 0; 0; 0]%N).
    rewrite <- !fmap_app, <- !fmap_take.
    split; [|intros ->; reflexivity].
    intros E. apply (inj (fmap Z.of_N)) in E. exact E.
Qed.

Lemma X2_versions_as_dotted_numerals_witness :
  [1; 18; 0]%N <> [] /\ [1; 18; 0; 0; 7]%N <> [] /\
  Forall (fun n => (n < 1000000000)%N) [1; 18; 0]%N /\
  Forall (fun n => (n < 1000000000)%N) [1; 18; 0; 0; 7]%N /\
  _normalize_version (dotted [1; 18; 0]%N) = Some [1; 18; 0; 0] /\
  _versions_match (dotted [1; 18; 0]%N) (dotted [1; 18; 0; 0; 7]%N) = Some true.
Proof.
  assert (H3 : Forall (fun n => (n < 1000000000)%N) [1; 18; 0]%N) by (repeat constructor).
  assert (H5 : Forall (fun n => (n < 1000000000)%N) [1; 18; 0; 0; 7]%N) by (repeat constructor).
  assert (N3 : [1; 18; 0]%N <> []) by discriminate.
  assert (N5 : [1; 18; 0; 0; 7]%N <> []) by discriminate.
  destruct (X2_versions_as_dotted_numerals [1; 18; 0]%N [1; 18; 0; 0; 7]%N N3 N5 H3 H5)
    as (Ha & _ & Hc).
  split; [exact N3|]. split; [exact N5|]. split; [exact H3|]. split; [exact H5|].
  split; [exact Ha|exact Hc].
Defined.

(** ** Only digits and dots count *)

Lemma filter_chars_app p s t :
  Py.filter_chars p (s +:+ t) = Py.filter_chars p s +:+ Py.filter_chars p t.
Proof.
  induction s as [|c s IH]; simpl_app; [reflexivity|].
  rewrite IH. destruct (p c); reflexivity.
Qed.

Lemma filter_chars_rev_onto p s a :
  Py.filter_chars p (Py.rev_onto s a)
  = Py.rev_onto (Py.filter_chars p s) (Py.filter_chars p a).
Proof.
  revert a. induction s as [|c s IH]; intros a; simpl; [reflexivity|].
  rewrite IH. simpl. destruct (p c); reflexivity.
Qed.

Lemma filter_chars_lstrip_by (keep p : ascii -> bool) s :
  (forall c, p c = true -> keep c = false) ->
  Py.filter_chars keep (Py.lstrip_by p s) = Py.filter_chars keep s.
Proof.
  intros Hp. induction s as [|c s IH]; simpl; [reflexivity|].
  destruct (p c) eqn:Hc; [|reflexivity].
  rewrite (Hp c Hc). exact IH.
Qed.

Lemma filter_chars_rstrip_by (keep p : ascii -> bool) s :
  (forall c, p c = true -> keep c = false) ->
  Py.filter_chars keep (Py.rstrip_by p s) = Py.filter_chars keep s.
Proof.
  intros Hp. unfold Py.rstrip_by, Py.srev.
  rewrite filter_chars_rev_onto, filter_chars_lstrip_by by exact Hp.
  rewrite filter_chars_rev_onto. simpl.
  apply (srev_involutive (Py.filter_chars keep s)).
Qed.

Lemma filter_chars_filter_chars (p q : ascii -> bool) s :
  (forall c, p c = true -> q c = true) ->
  Py.filter_chars p (Py.filter_chars q s) = Py.filter_chars p s.
Proof.
  intros Hpq. induction s as [|c s IH]; simpl; [reflexivity|].
  destruct (q c) eqn:Hq; simpl.
  - rewrite IH. reflexivity.
  - destruct (p c) eqn:Hc; [|exact IH]. rewrite (Hpq c Hc) in Hq. discriminate.
Qed.

Lemma all_chars_filter_chars p s : all_chars p (Py.filter_chars p s) = true.
Proof.
  induction s as [|c s IH]; simpl; [reflexivity|].
  destruct (p c) eqn:Hc; simpl; rewrite ?Hc; exact IH.
Qed.

Lemma split_nonempty sep s : Py.split sep s <> [].
Proof.
  destruct s as [|c s]; simpl; [discriminate|].
  destruct (Ascii.eqb c sep); [discriminate|]. destruct (Py.split sep s); discriminate.
Qed.

Lemma split_filter_chars (keep : ascii -> bool) sep s :
  keep sep = true ->
  Py.split sep (Py.filter_chars keep s) = Py.filter_chars keep <$> Py.split sep s.
Proof.
  intros Hsep. induction s as [|c s IH]; [reflexivity|].
  cbn [Py.split Py.filter_chars].
  pose proof (split_nonempty sep s) as Hne0.
  destruct (Ascii.eqb_spec c sep) as [->|Hne].
  - rewrite Hsep. cbn [Py.split]. rewrite Ascii.eqb_refl, IH. reflexivity.
  - destruct (keep c) eqn:Hc.
    + cbn [Py.split]. destruct (Ascii.eqb_spec c sep); [contradiction|].
      rewrite IH. destruct (Py.split sep s) as [|p ps]; [contradiction|].
      cbn [fmap list_fmap Py.filter_chars]. rewrite Hc. reflexivity.
    + rewrite IH. destruct (Py.split sep s) as [|p ps]; [contradiction|].
      cbn [fmap list_fmap Py.filter_chars]. rewrite Hc. reflexivity.
Qed.

Lemma normalize_part_filter part :
  normalize_part (Py.filter_chars digit_or_dot part) = normalize_part part.
Proof.
  unfold normalize_part. rewrite filter_chars_filter_chars; [reflexivity|].
  intros c Hc. unfold digit_or_dot. rewrite Hc. reflexivity.
Qed.

Lemma isspace_not_digit_or_dot c : Py.isspace c = true -> digit_or_dot c = false.
Proof.
  intros H. destruct (digit_or_dot c) eqn:E; [|reflexivity].
  apply digit_or_dot_plain in E as (E & _). rewrite H in E. discriminate.
Qed.

(** X3. _normalize_version reads nothing but the digits and the dots of its
    argument: deleting every other character from the version leaves the
    result unchanged. *)
Theorem X3_only_digits_and_dots_count :
  forall version : string,
    _normalize_version version
    = _normalize_version (Py.filter_chars digit_or_dot version).
Proof.
  intros version.
  rewrite (_normalize_version_plain (Py.filter_chars digit_or_dot version))
    by apply all_chars_filter_chars.
  unfold _normalize_version.
  set (s := Py.lstrip "V" (Py.lstrip "v" (Py.strip version))).
  assert (Hs : Py.filter_chars digit_or_dot s = Py.filter_chars digit_or_dot version).
  { unfold s, Py.lstrip, Py.strip.
    rewrite !filter_chars_lstrip_by, filter_chars_rstrip_by, filter_chars_lstrip_by;
      try reflexivity; try apply isspace_not_digit_or_dot.
    - intros c Hc. destruct (digit_or_dot c) eqn:E; [|reflexivity].
      apply digit_or_dot_plain in E as (_ & E & _). rewrite Hc in E. discriminate.
    - intros c Hc. destruct (digit_or_dot c) eqn:E; [|reflexivity].
      apply digit_or_dot_plain in E as (_ & _ & E). rewrite Hc in E. discriminate. }
  rewrite <- Hs, split_filter_chars by reflexivity.
  rewrite <- fmap_take.
  assert (Hm : forall parts, mapM normalize_part (Py.filter_chars digit_or_dot <$> parts)
                             = mapM normalize_part parts).
  { induction parts as [|p ps IH]; [reflexivity|].
    cbn [fmap list_fmap mapM].
    change (list_fmap string string (Py.filter_chars digit_or_dot) ps)
      with (Py.filter_chars digit_or_dot <$> ps).
    rewrite normalize_part_filter, IH. reflexivity. }
  rewrite Hm. reflexivity.
Qed.

(** ** [_seed_from_database], all of it *)

Lemma stat_stats_add k k' n c :
  stat k (stats_add k' n c) = if decide (k = k') then stat k c + n else stat k c.
Proof.
  unfold stat, stats_add. cbn [stats].
  destruct (decide (k = k')) as [->|Hne].
  - rewrite lookup_insert_eq. reflexivity.
  - rewrite lookup_insert_ne by congruence. reflexivity.
Qed.

Lemma seed_one_effect fromisoformat now p2p_port c node :
  seed_one fromisoformat now p2p_port c node =
  match db_row_key p2p_port node with
  | Some key => stats_add "peers_from_db" 1 (set_pending (fun p => {[key]} ∪ p) c)
  | None => c
  end.
Proof.
  unfold seed_one, db_row_key.
  destruct (db_ip node) as [ip|]; [|reflexivity].
  destruct (String.eqb ip EmptyString); [reflexivity|].
  rewrite should_crawl_always. reflexivity.
Qed.

Lemma seed_fold_effect fromisoformat now p2p_port rows c :
  let c' := fold_left (seed_one fromisoformat now p2p_port) rows c in
  let keys := omap (db_row_key p2p_port) rows in
  pending c' = list_to_set keys ∪ pending c /\
  stat "peers_from_db" c' = stat "peers_from_db" c + Z.of_nat (length keys) /\
  nodes c' = nodes c /\ crawled c' = crawled c /\
  (forall k, k <> "peers_from_db" -> stats c' !! k = stats c !! k).
Proof.
  cbv zeta. revert c. induction rows as [|node rows IH]; intros c.
  - cbn [fold_left]. change (omap (db_row_key p2p_port) []) with (@nil string).
    cbn [length]. repeat split; try reflexivity; [set_solver|lia].
  - cbn [fold_left]. rewrite seed_one_effect.
    change (omap (db_row_key p2p_port) (node :: rows))
      with (match db_row_key p2p_port node with
            | Some k => k :: omap (db_row_key p2p_port) rows
            | None => omap (db_row_key p2p_port) rows
            end).
    destruct (db_row_key p2p_port node) as [key|]; [|apply IH].
    destruct (IH (stats_add "peers_from_db" 1 (set_pending (fun p => {[key]} ∪ p) c)))
      as (Hp & Hs & Hn & Hc & Ho).
    rewrite Hp, Hs, Hn, Hc. cbn [pending nodes crawled stats_add set_pending length].
    repeat split.
    + rewrite list_to_set_cons. set_solver.
    + rewrite stat_stats_add, decide_True by reflexivity.
      unfold stat. cbn [stats set_pending]. lia.
    + intros k Hk. rewrite Ho by exact Hk. cbn [stats stats_add set_pending].
      rewrite lookup_insert_ne by congruence. reflexivity.
Qed.

(** X4. When the store returns rows, _seed_from_database adds to pending the
    key of every row with a non-empty ip (under the port of the row, or the
    p2p port of the chain when the row has none), whatever its status and
    last_seen, and adds the number of these rows, repeated keys included, to
    peers_from_db; nodes, crawled and the other counters are left alone.
    When the store raises, the crawler is unchanged. *)
Theorem X4_seed_from_database_effect :
  forall (fromisoformat : string -> result datetime) (now : Q) (p2p_port : Z)
         (rows : list db_node) (c : Crawler),
    let c' := _seed_from_database fromisoformat now p2p_port (Ok rows) c in
    let keys := omap (db_row_key p2p_port) rows in
    pending c' = list_to_set keys ∪ pending c /\
    stat "peers_from_db" c' = stat "peers_from_db" c + Z.of_nat (length keys) /\
    nodes c' = nodes c /\ crawled c' = crawled c /\
    (forall k, k <> "peers_from_db" -> stats c' !! k = stats c !! k) /\
    (forall e, _seed_from_database fromisoformat now p2p_port (Raise e) c = c).
Proof.
  intros fromisoformat now p2p_port rows c. cbv zeta.
  destruct (seed_fold_effect fromisoformat now p2p_port rows c) as (Hp & Hs & Hn & Hc & Ho).
  repeat split; try assumption.
Qed.

(** ** The retry loop, dial by dial *)

Lemma try_protocols_slept dial config ip port attempt pvs st :
  match try_protocols dial config ip port attempt pvs st with
  | inl (_, st') | inr st' => slept st' = slept st
  end.
Proof.
  revert st. induction pvs as [|pv rest IH]; intros st; simpl; [reflexivity|].
  match goal with |- context [dial ?a ?b ?c ?e ?f] => set (d := dial a b c e f) end.
  destruct (has_status "up" (returned d)); [reflexivity|].
  destruct (has_status "reachable" (returned d)).
  - match goal with |- context [try_protocols _ _ _ _ _ _ ?s] => specialize (IH s) end.
    destruct (try_protocols _ _ _ _ _ _ _) as [[r st']|st']; exact IH.
  - destruct (returned d); [|reflexivity].
    match goal with |- context [try_protocols _ _ _ _ _ _ ?s] => specialize (IH s) end.
    destruct (try_protocols _ _ _ _ _ _ _) as [[r st']|st']; exact IH.
Qed.

Lemma try_attempts_slept dial config ip port pvs b n st :
  match try_attempts dial config ip port pvs (seq b n) st with
  | inl (_, st') =>
      exists m, (m < n)%nat /\
        slept st' = (slept st ++ (backoff_delay config <$> filter (fun k => (0 < k)%nat) (seq b (S m))))%list
  | inr st' =>
      slept st' = (slept st ++ (backoff_delay config <$> filter (fun k => (0 < k)%nat) (seq b n)))%list
  end.
Proof.
  revert b st. induction n as [|n IH]; intros b st.
  - simpl. rewrite app_nil_r. reflexivity.
  - cbn [seq try_attempts].
    match goal with |- context [try_protocols _ _ _ _ _ _ ?s] => set (st1 := s) end.
    assert (H1 : slept st1 = (slept st ++ (backoff_delay config <$>
                     filter (fun k => (0 < k)%nat) [b]))%list).
    { unfold st1. destruct b as [|b]; simpl.
      - rewrite app_nil_r. reflexivity.
      - reflexivity. }
    pose proof (try_protocols_slept dial config ip port b pvs st1) as Hp.
    destruct (try_protocols dial config ip port b pvs st1) as [[r st2]|st2].
    + exists 0%nat. split; [lia|]. rewrite Hp, H1. reflexivity.
    + specialize (IH (S b) st2).
      assert (Hcons : forall l, filter (fun k => (0 < k)%nat) (b :: l)
                  = (filter (fun k => (0 < k)%nat) [b] ++ filter (fun k => (0 < k)%nat) l)%list).
      { intros l. change (b :: l) with ([b] ++ l)%list. apply filter_app. }
      destruct (try_attempts dial config ip port pvs (seq (S b) n) st2) as [[r st3]|st3].
      * destruct IH as (m & Hm & IH). exists (S m). split; [lia|].
        rewrite IH, Hp, H1. change (seq b (S (S m))) with (b :: seq (S b) (S m)).
        rewrite (Hcons (seq (S b) (S m))).
        rewrite fmap_app, app_assoc. reflexivity.
      * rewrite IH, Hp, H1. rewrite (Hcons (seq (S b) n)).
        rewrite fmap_app, app_assoc. reflexivity.
Qed.

Lemma filter_positive_seq n :
  filter (fun k => (0 < k)%nat) (seq 0 (S n)) = seq 1 n.
Proof.
  cbn [seq]. rewrite filter_cons_False by lia.
  assert (H : forall b, (0 < b)%nat -> filter (fun k => (0 < k)%nat) (seq b n) = seq b n).
  { induction n as [|n IH]; intros b Hb; [reflexivity|].
    cbn [seq]. rewrite filter_cons_True by exact Hb. f_equal. apply IH. lia. }
  apply H. lia.
Qed.

Lemma _connect_and_handshake_inr dial config ip port st :
  try_attempts dial config ip port (protocol_versions config) (seq 0 (attempts config))
    (mk_retry None None [] [] 0) = inr st ->
  snd (_connect_and_handshake dial config ip port) = st.
Proof.
  intros E. unfold _connect_and_handshake. fold (protocol_versions config) (attempts config).
  rewrite E. destruct (has_status "reachable" (last_result st)); reflexivity.
Qed.

Lemma _connect_and_handshake_inl dial config ip port r st :
  try_attempts dial config ip port (protocol_versions config) (seq 0 (attempts config))
    (mk_retry None None [] [] 0) = inl (r, st) ->
  _connect_and_handshake dial config ip port = (r, st).
Proof.
  intros E. unfold _connect_and_handshake. fold (protocol_versions config) (attempts config).
  rewrite E. reflexivity.
Qed.

(** X5. The delays that _connect_and_handshake sleeps are, in order,
    initial_retry_delay * retry_backoff_multiplier^(attempt - 1) for attempt
    = 1, 2, ... up to some attempt that is at most max_retries; nothing is
    slept before the first attempt. When no dial returned status up, the
    delay of every attempt from 1 to max_retries was slept. *)
Theorem X5_backoff_schedule :
  forall (dial : dialer) (config : CrawlerConfig) (ip : string) (port : Z),
    let st := snd (_connect_and_handshake dial config ip port) in
    (exists a, (a <= Z.to_nat (max_retries config))%nat /\
               slept st = backoff_delay config <$> seq 1 a) /\
    (no_up (dial_log st) = true ->
     slept st = backoff_delay config <$> seq 1 (Z.to_nat (max_retries config))).
Proof.
  intros dial config ip port. cbv zeta.
  pose proof (try_attempts_slept dial config ip port (protocol_versions config) 0
                (attempts config) (mk_retry None None [] [] 0)) as Hs.
  pose proof (try_attempts_ok dial config ip port (protocol_versions config)
                (seq 0 (attempts config)) (mk_retry None None [] [] 0)) as Hok.
  destruct (try_attempts dial config ip port (protocol_versions config)
              (seq 0 (attempts config)) (mk_retry None None [] [] 0))
    as [[r st]|st] eqn:E.
  - rewrite (_connect_and_handshake_inl _ _ _ _ _ _ E). cbn [snd].
    destruct Hs as (m & Hm & Hs). cbn [slept app] in Hs.
    rewrite filter_positive_seq in Hs. split.
    + exists m. split; [unfold attempts in Hm; lia|exact Hs].
    + intros Hno. apply no_up_last in Hno.
      destruct Hok as [Hr Hup]; [split; reflexivity|].
      rewrite <- Hr, Hup in Hno. discriminate.
  - rewrite (_connect_and_handshake_inr _ _ _ _ _ E).
    cbn [slept app] in Hs.
    assert (Hall : slept st = backoff_delay config <$> seq 1 (Z.to_nat (max_retries config))).
    { rewrite Hs. unfold attempts.
      destruct (Z.to_nat (max_retries config + 1)) as [|n] eqn:En.
      - replace (Z.to_nat (max_retries config)) with 0%nat by lia. reflexivity.
      - rewrite filter_positive_seq.
        replace (Z.to_nat (max_retries config)) with n by lia. reflexivity. }
    split; [|intros _; exact Hall].
    exists (Z.to_nat (max_retries config)). split; [lia|exact Hall].
Qed.

(** ** A target that refuses every connection *)

Lemma try_protocols_refused dial config ip port attempt pvs pv st :
  (forall n pv timeout, returned (dial n ip port pv timeout) = None) ->
  last_result st = None ->
  exists st',
    try_protocols dial config ip port attempt (pv :: pvs) st = inr st' /\
    last_result st' = None /\
    last_error st' = Some "TCP connection failed" /\
    dial_log st' = (dial_log st ++ [mk_dial_call ip port pv (connection_timeout config) None])%list.
Proof.
  intros Hd Hl. cbn [try_protocols]. rewrite Hl, Hd. cbn [has_status andb].
  eexists. split; [reflexivity|]. cbn. repeat split.
Qed.

Lemma try_attempts_refused dial config ip port pvs pv attempts st :
  (forall n pv timeout, returned (dial n ip port pv timeout) = None) ->
  last_result st = None ->
  exists st',
    try_attempts dial config ip port (pv :: pvs) attempts st = inr st' /\
    last_result st' = None /\
    last_error st' = match attempts with
                     | [] => last_error st
                     | _ :: _ => Some "TCP connection failed"
                     end /\
    dial_log st' = (dial_log st ++ replicate (length attempts)
                      (mk_dial_call ip port pv (connection_timeout config) None))%list.
Proof.
  intros Hd. revert st. induction attempts as [|a rest IH]; intros st Hl.
  - exists st. cbn. rewrite app_nil_r. repeat split. exact Hl.
  - cbn [try_attempts].
    match goal with |- context [try_protocols _ _ _ _ _ _ ?s] => set (st1 := s) end.
    assert (H1 : last_result st1 = None /\ dial_log st1 = dial_log st)
      by (unfold st1; destruct (0 <? a)%nat; split; assumption || reflexivity).
    destruct H1 as [Hl1 Hlog1].
    destruct (try_protocols_refused dial config ip port a pvs pv st1 Hd Hl1)
      as (st2 & -> & Hl2 & He2 & Hlog2).
    destruct (IH st2 Hl2) as (st3 & -> & Hl3 & He3 & Hlog3).
    exists st3. split; [reflexivity|]. split; [exact Hl3|]. split.
    + rewrite He3. destruct rest; [exact He2|reflexivity].
    + rewrite Hlog3, Hlog2, Hlog1, <- app_assoc. reflexivity.
Qed.

(** X6. When every dial of the target returns None (the connection fails),
    _connect_and_handshake returns None after exactly max_retries + 1 dials,
    each with the primary protocol version and connection_timeout: the
    fallback protocol versions are never tried. *)
Theorem X6_refused_target_is_dialed_once_per_attempt :
  forall (dial : dialer) (config : CrawlerConfig) (ip : string) (port : Z),
    (forall n pv timeout, returned (dial n ip port pv timeout) = None) ->
    fst (_connect_and_handshake dial config ip port) = None /\
    dial_log (snd (_connect_and_handshake dial config ip port))
    = replicate (Z.to_nat (max_retries config + 1))
        (mk_dial_call ip port (protocol_version (chain_config config))
           (connection_timeout config) None).
Proof.
  intros dial config ip port Hd.
  destruct (try_attempts_refused dial config ip port
              (default [] (fallback_protocol_versions config))
              (protocol_version (chain_config config))
              (seq 0 (Z.to_nat (max_retries config + 1)))
              (mk_retry None None [] [] 0) Hd eq_refl)
    as (st & E & Hl & _ & Hlog).
  unfold _connect_and_handshake. rewrite E, Hl. cbn [has_status fst snd].
  split; [reflexivity|]. rewrite Hlog, length_seq. reflexivity.
Qed.

Lemma X6_refused_target_is_dialed_once_per_attempt_witness :
  let dial := dial_peers (dingo_config 2 (Some [70014; 70013])) (fun _ => refusing_peer 0) in
  (forall n pv timeout, returned (dial n "198.51.100.99" 33117 pv timeout) = None) /\
  fst (_connect_and_handshake dial (dingo_config 2 (Some [70014; 70013])) "198.51.100.99" 33117)
    = None /\
  dial_log (snd (_connect_and_handshake dial (dingo_config 2 (Some [70014; 70013]))
                   "198.51.100.99" 33117))
  = replicate 3 (mk_dial_call "198.51.100.99" 33117 70015 10%Q None).
Proof.
  intros dial.
  assert (Hd : forall n pv timeout, returned (dial n "198.51.100.99" 33117 pv timeout) = None)
    by (intros; reflexivity).
  split; [exact Hd|].
  exact (X6_refused_target_is_dialed_once_per_attempt dial
           (dingo_config 2 (Some [70014; 70013])) "198.51.100.99" 33117 Hd).
Defined.

(** ** A target that accepts the connection and never completes the handshake *)

Lemma reachable_not_up x : has_status "reachable" x = true -> has_status "up" x = false.
Proof.
  destruct x as [n|]; [|discriminate]. simpl.
  intros H%String.eqb_eq. rewrite H. reflexivity.
Qed.

Lemma try_protocols_reachable dial config ip port attempt pvs st :
  (forall n pv timeout,
     timeout = connection_timeout config \/ timeout = extended_timeout config ->
     has_status "reachable" (returned (dial n ip port pv timeout)) = true) ->
  has_status "reachable" (last_result st) = true ->
  exists st',
    try_protocols dial config ip port attempt pvs st = inr st' /\
    has_status "reachable" (last_result st') = true /\
    dialed_protocol_version <$> dial_log st'
      = ((dialed_protocol_version <$> dial_log st) ++ pvs)%list /\
    dialed_timeout <$> dial_log st'
      = ((dialed_timeout <$> dial_log st) ++
         replicate (length pvs) (if (0 <? attempt)%nat then extended_timeout config
                                 else connection_timeout config))%list.
Proof.
  intros Hd. revert st. induction pvs as [|pv rest IH]; intros st Hl.
  - exists st. cbn. rewrite !app_nil_r. repeat split. exact Hl.
  - cbn [try_protocols]. rewrite Hl. cbn [andb].
    match goal with |- context [dial ?a ?b ?c ?e ?f] =>
      assert (Hr : has_status "reachable" (returned (dial a b c e f)) = true)
        by (apply Hd; destruct (0 <? attempt)%nat; auto);
      set (d := dial a b c e f) in * end.
    rewrite (reachable_not_up _ Hr), Hr.
    match goal with |- context [try_protocols _ _ _ _ _ _ ?s] =>
      destruct (IH s Hr) as (st' & -> & Hl' & Hpv & Hto) end.
    exists st'. split; [reflexivity|]. split; [exact Hl'|].
    cbn [dial_log] in Hpv, Hto. rewrite Hpv, Hto, !fmap_app, <- !app_assoc. cbn.
    split; reflexivity.
Qed.

Lemma try_protocols_reachable_first dial config ip port pv pvs st :
  (forall n pv timeout,
     timeout = connection_timeout config \/ timeout = extended_timeout config ->
     has_status "reachable" (returned (dial n ip port pv timeout)) = true) ->
  exists st',
    try_protocols dial config ip port 0 (pv :: pvs) st = inr st' /\
    has_status "reachable" (last_result st') = true /\
    dialed_protocol_version <$> dial_log st'
      = ((dialed_protocol_version <$> dial_log st) ++ pv :: pvs)%list /\
    dialed_timeout <$> dial_log st'
      = ((dialed_timeout <$> dial_log st) ++
         replicate (S (length pvs)) (connection_timeout config))%list.
Proof.
  intros Hd. cbn [try_protocols]. rewrite andb_false_r.
  match goal with |- context [dial ?a ?b ?c ?e ?f] =>
    assert (Hr : has_status "reachable" (returned (dial a b c e f)) = true)
      by (apply Hd; auto);
    set (d := dial a b c e f) in * end.
  rewrite (reachable_not_up _ Hr), Hr.
  match goal with |- context [try_protocols _ _ _ _ _ _ ?s] =>
    destruct (try_protocols_reachable dial config ip port 0 pvs s Hd Hr)
      as (st' & -> & Hl' & Hpv & Hto) end.
  exists st'. split; [reflexivity|]. split; [exact Hl'|].
  cbn [dial_log] in Hpv, Hto. rewrite Hpv, Hto, !fmap_app, <- !app_assoc. cbn.
  split; reflexivity.
Qed.

Lemma try_attempts_reachable dial config ip port pvs b n st :
  (forall n pv timeout,
     timeout = connection_timeout config \/ timeout = extended_timeout config ->
     has_status "reachable" (returned (dial n ip port pv timeout)) = true) ->
  has_status "reachable" (last_result st) = true ->
  exists st',
    try_attempts dial config ip port pvs (seq (S b) n) st = inr st' /\
    has_status "reachable" (last_result st') = true /\
    dialed_protocol_version <$> dial_log st'
      = ((dialed_protocol_version <$> dial_log st) ++ concat (replicate n pvs))%list /\
    dialed_timeout <$> dial_log st'
      = ((dialed_timeout <$> dial_log st) ++
         replicate (n * length pvs) (extended_timeout config))%list.
Proof.
  intros Hd. revert b st. induction n as [|n IH]; intros b st Hl.
  - exists st. cbn. rewrite !app_nil_r. repeat split. exact Hl.
  - cbn [seq try_attempts].
    change (0 <? S b)%nat with true. cbv iota.
    match goal with |- context [try_protocols _ _ _ _ _ _ ?s] =>
      destruct (try_protocols_reachable dial config ip port (S b) pvs s Hd Hl)
        as (st1 & -> & Hl1 & Hpv1 & Hto1) end.
    destruct (IH (S b) st1 Hl1) as (st2 & -> & Hl2 & Hpv2 & Hto2).
    exists st2. split; [reflexivity|]. split; [exact Hl2|].
    rewrite Hpv2, Hto2, Hpv1, Hto1. cbn [dial_log concat replicate].
    change (0 <? S b)%nat with true. cbv iota.
    rewrite <- !app_assoc, <- replicate_add. split; reflexivity.
Qed.

(** X7. When every dial of the target returns a node of status reachable
    (and max_retries is not negative), _connect_and_handshake dials every
    protocol version (the primary one, then the fallbacks in order) in each
    of the max_retries + 1 attempts, with connection_timeout during the
    first attempt and extended_timeout during all later ones, and returns
    what the last dial returned, a node of status reachable. *)
Theorem X7_half_open_target_gets_every_protocol_and_attempt :
  forall (dial : dialer) (config : CrawlerConfig) (ip : string) (port : Z),
    0 <= max_retries config ->
    (forall n pv timeout,
     timeout = connection_timeout config \/ timeout = extended_timeout config ->
     has_status "reachable" (returned (dial n ip port pv timeout)) = true) ->
    let '(r, st) := _connect_and_handshake dial config ip port in
    let pvs := protocol_versions config in
    has_status "reachable" r = true /\
    r = last_returned (dial_log st) /\
    dialed_protocol_version <$> dial_log st
      = concat (replicate (S (Z.to_nat (max_retries config))) pvs) /\
    dialed_timeout <$> dial_log st
      = (replicate (length pvs) (connection_timeout config) ++
         replicate (Z.to_nat (max_retries config) * length pvs) (extended_timeout config))%list.
Proof.
  intros dial config ip port Hmax Hd.
  pose proof (_connect_and_handshake_last dial config ip port) as Hlast.
  unfold _connect_and_handshake in *.
  replace (Z.to_nat (max_retries config + 1)) with (S (Z.to_nat (max_retries config))) in * by lia.
  cbn [seq try_attempts] in *. change (0 <? 0)%nat with false in *. cbv iota in *.
  destruct (try_protocols_reachable_first dial config ip port
              (protocol_version (chain_config config))
              (default [] (fallback_protocol_versions config))
              (mk_retry None None [] [] 0) Hd) as (st1 & E1 & Hl1 & Hpv1 & Hto1).
  rewrite E1 in *.
  destruct (try_attempts_reachable dial config ip port (protocol_versions config) 0
              (Z.to_nat (max_retries config)) st1 Hd Hl1) as (st2 & E2 & Hl2 & Hpv2 & Hto2).
  unfold protocol_versions in E2 at 1. rewrite E2 in *. rewrite Hl2 in *.
  cbv zeta. split; [exact Hl2|].
  assert (Hr : last_result st2 = last_returned (dial_log st2)).
  { unfold reachable_or_none in Hlast.
    destruct (has_status "up" (last_returned (dial_log st2))); [exact Hlast|].
    destruct (has_status "reachable" (last_returned (dial_log st2))); [exact Hlast|].
    rewrite Hlast in Hl2. discriminate. }
  split; [exact Hr|].
  rewrite Hpv2, Hto2, Hpv1, Hto1. cbn [dial_log fmap list_fmap app concat replicate].
  unfold protocol_versions. cbn [length]. split; reflexivity.
Qed.

Lemma X7_half_open_target_gets_every_protocol_and_attempt_witness :
  let config := dingo_config 1 (Some [70014]) in
  let dial := dial_peers config (fun _ => mute_peer 0) in
  0 <= max_retries config /\
  (forall n pv timeout,
     timeout = connection_timeout config \/ timeout = extended_timeout config ->
     has_status "reachable" (returned (dial n "198.51.100.5" 33117 pv timeout)) = true) /\
  dialed_protocol_version <$> dial_log (snd (_connect_and_handshake dial config "198.51.100.5" 33117))
    = [70015; 70014; 70015; 70014] /\
  dialed_timeout <$> dial_log (snd (_connect_and_handshake dial config "198.51.100.5" 33117))
    = [10%Q; 10%Q; 30%Q; 30%Q].
Proof.
  intros config dial.
  assert (Hmax : 0 <= max_retries config) by (cbn; lia).
  assert (Hd : forall n pv timeout,
     timeout = connection_timeout config \/ timeout = extended_timeout config ->
     has_status "reachable" (returned (dial n "198.51.100.5" 33117 pv timeout)) = true)
    by (intros n pv timeout [->| ->]; reflexivity).
  split; [exact Hmax|]. split; [exact Hd|].
  pose proof (X7_half_open_target_gets_every_protocol_and_attempt dial config
                "198.51.100.5" 33117 Hmax Hd) as H.
  destruct (_connect_and_handshake dial config "198.51.100.5" 33117) as [r st].
  destruct H as (_ & _ & Hpv & Hto). split; [exact Hpv|exact Hto].
Defined.

(** ** What [_connect_and_handshake] returns, and when it stops *)

Lemma no_up_app l l' : no_up (l ++ l') = no_up l && no_up l'.
Proof. apply forallb_app. Qed.

Lemma try_protocols_stops dial config ip port attempt pvs st :
  no_up (dial_log st) = true ->
  stops_at_up (try_protocols dial config ip port attempt pvs st).
Proof.
  revert st. induction pvs as [|pv rest IH]; intros st Hno; [exact Hno|].
  cbn [try_protocols].
  match goal with |- context [dial ?a ?b ?c ?e ?f] => set (d := dial a b c e f) end.
  destruct (has_status "up" (returned d)) eqn:Hup.
  - cbn [stops_at_up dial_log]. eexists _, _. split; [reflexivity|]. auto.
  - assert (Hno' : no_up (dial_log st ++
               [mk_dial_call ip port pv
                  (if has_status "reachable" (last_result st) && (0 <? attempt)%nat
                   then extended_timeout config else connection_timeout config)
                  (returned d)]) = true).
    { rewrite no_up_app, Hno. cbn. rewrite Hup. reflexivity. }
    destruct (has_status "reachable" (returned d)); [apply IH; exact Hno'|].
    destruct (returned d); [apply IH; exact Hno'|exact Hno'].
Qed.

Lemma try_attempts_stops dial config ip port pvs attempts st :
  no_up (dial_log st) = true ->
  stops_at_up (try_attempts dial config ip port pvs attempts st).
Proof.
  revert st. induction attempts as [|a rest IH]; intros st Hno; [exact Hno|].
  cbn [try_attempts].
  match goal with |- context [try_protocols _ _ _ _ _ _ ?s] => set (st1 := s) end.
  assert (H1 : no_up (dial_log st1) = true)
    by (unfold st1; destruct (0 <? a)%nat; exact Hno).
  pose proof (try_protocols_stops dial config ip port a pvs st1 H1) as Hp.
  destruct (try_protocols dial config ip port a pvs st1) as [[r st2]|st2]; [exact Hp|].
  apply IH, Hp.
Qed.

Lemma no_up_lookup log i c :
  no_up log = true -> log !! i = Some c -> has_status "up" (dial_returned c) = false.
Proof.
  intros Hno Hi. unfold no_up in Hno. rewrite forallb_forall in Hno.
  apply negb_true_iff, Hno, list_elem_of_In. eapply list_elem_of_lookup_2, Hi.
Qed.

(** X8. _connect_and_handshake returns None or a node whose status is up or
    reachable; a dial that returned status up is the last dial made, and
    what it returned is the result. *)
Theorem X8_handshake_stops_at_first_up :
  forall (dial : dialer) (config : CrawlerConfig) (ip : string) (port : Z),
    let '(r, st) := _connect_and_handshake dial config ip port in
    (r = None \/ has_status "up" r = true \/ has_status "reachable" r = true) /\
    (forall i c, dial_log st !! i = Some c ->
       has_status "up" (dial_returned c) = true ->
       S i = length (dial_log st) /\ r = dial_returned c).
Proof.
  intros dial config ip port.
  pose proof (_connect_and_handshake_last dial config ip port) as Hlast.
  pose proof (try_attempts_stops dial config ip port (protocol_versions config)
                (seq 0 (attempts config)) (mk_retry None None [] [] 0) eq_refl) as Hs.
  unfold _connect_and_handshake in *.
  fold (protocol_versions config) (attempts config) in *.
  destruct (try_attempts dial config ip port (protocol_versions config)
              (seq 0 (attempts config)) (mk_retry None None [] [] 0)) as [[r st]|st].
  - split.
    + destruct Hs as (_ & _ & _ & _ & _ & Hup). auto.
    + destruct Hs as (pre & c0 & Hlog & Hno & Hr & Hup).
      intros i c Hi Hc. rewrite Hlog in Hi |- *.
      apply lookup_app_Some in Hi as [Hi|[Hge Hi]].
      * rewrite (no_up_lookup pre i c Hno Hi) in Hc. discriminate.
      * apply list_lookup_singleton_Some in Hi as [Hi <-].
        rewrite length_app. cbn [length]. split; [lia|exact Hr].
  - cbn [stops_at_up] in Hs.
    assert (Hnone : forall i c, dial_log st !! i = Some c ->
              has_status "up" (dial_returned c) = true -> False).
    { intros i c Hi Hc. rewrite (no_up_lookup _ i c Hs Hi) in Hc. discriminate. }
    destruct (has_status "reachable" (last_result st)) eqn:Hre.
    + split; [auto|]. intros i c Hi Hc. destruct (Hnone i c Hi Hc).
    + split; [auto|]. intros i c Hi Hc. destruct (Hnone i c Hi Hc).
Qed.

(** ** The parameters of every dial *)

Lemma last_returned_lookup log :
  has_status "reachable" (last_returned log) = true ->
  exists j prev, length log = S j /\ log !! j = Some prev /\
                 has_status "reachable" (dial_returned prev) = true.
Proof.
  unfold last_returned. destruct (last log) as [c|] eqn:E; [|discriminate].
  intros H. apply last_Some in E as [l' ->].
  exists (length l'), c. rewrite length_app. cbn [length].
  split; [lia|]. split; [|exact H].
  rewrite lookup_app_r by lia. rewrite Nat.sub_diag. reflexivity.
Qed.

Lemma dial_params_snoc config ip port log pv timeout r (last_result : option NodeInfo) attempt :
  dial_params_ok config ip port log ->
  last_result = last_returned log ->
  pv ∈ protocol_versions config ->
  (log = [] -> pv = protocol_version (chain_config config)) ->
  timeout = (if has_status "reachable" last_result && (0 <? attempt)%nat
             then extended_timeout config else connection_timeout config) ->
  dial_params_ok config ip port (log ++ [mk_dial_call ip port pv timeout r]).
Proof.
  intros [Hall Hhead] Hlast Hpv Hfirst Hto. split.
  - intros i c Hi. apply lookup_app_Some in Hi as [Hi|[Hge Hi]].
    + destruct (Hall i c Hi) as (H1 & H2 & H3 & H4). repeat split; try assumption.
      destruct H4 as [H4|(H4 & j & prev & -> & Hj & Hp)]; [left; exact H4|].
      right. split; [exact H4|]. exists j, prev. repeat split; [|exact Hp].
      apply lookup_app_l_Some, Hj.
    + apply list_lookup_singleton_Some in Hi as [Hi <-]. cbn.
      repeat split; [exact Hpv|].
      destruct (has_status "reachable" last_result) eqn:Hre; [|left; exact Hto].
      destruct (0 <? attempt)%nat; [|left; exact Hto].
      right. split; [exact Hto|].
      rewrite Hlast in Hre. apply (last_returned_lookup log) in Hre
        as (j & prev & Hlen & Hj & Hp).
      exists j, prev. repeat split; [lia| |exact Hp].
      apply lookup_app_l_Some, Hj.
  - intros c Hc. destruct log as [|c0 log].
    + cbn in Hc. injection Hc as <-. cbn. split; [apply Hfirst; reflexivity|].
      rewrite Hto, Hlast. reflexivity.
    + apply Hhead. exact Hc.
Qed.

Lemma dial_params_nil config ip port : dial_params_ok config ip port [].
Proof.
  split; [intros i c Hl|intros c Hl]; rewrite lookup_nil in Hl; discriminate.
Qed.

Lemma try_protocols_params dial config ip port attempt pvs st :
  dial_params_ok config ip port (dial_log st) ->
  last_result st = last_returned (dial_log st) ->
  (forall pv, pv ∈ pvs -> pv ∈ protocol_versions config) ->
  (dial_log st = [] -> forall pv, head pvs = Some pv -> pv = protocol_version (chain_config config)) ->
  match try_protocols dial config ip port attempt pvs st with
  | inl (_, st') => dial_params_ok config ip port (dial_log st')
  | inr st' => dial_params_ok config ip port (dial_log st') /\
               last_result st' = last_returned (dial_log st')
  end.
Proof.
  revert st. induction pvs as [|pv rest IH]; intros st Hok Hlast Hsub Hfirst; [cbn; auto|].
  simpl try_protocols.
  match goal with |- context [dial ?a ?b ?c ?e ?f] => set (d := dial a b c e f) end.
  set (timeout := if has_status "reachable" (last_result st) && (0 <? attempt)%nat
                  then extended_timeout config else connection_timeout config).
  assert (Hok' : dial_params_ok config ip port
                   (dial_log st ++ [mk_dial_call ip port pv timeout (returned d)])).
  { eapply dial_params_snoc; try eassumption; [|intros E; apply (Hfirst E)|];
      [apply Hsub; left|reflexivity|reflexivity]. }
  destruct (has_status "up" (returned d)); [exact Hok'|].
  assert (Hrec : forall st1, dial_log st1 = (dial_log st ++ [mk_dial_call ip port pv timeout (returned d)])%list ->
            last_result st1 = returned d ->
            match try_protocols dial config ip port attempt rest st1 with
            | inl (_, st') => dial_params_ok config ip port (dial_log st')
            | inr st' => dial_params_ok config ip port (dial_log st') /\
                         last_result st' = last_returned (dial_log st')
            end).
  { intros st1 Hlog1 Hl1. apply IH.
    - rewrite Hlog1. exact Hok'.
    - rewrite Hlog1, Hl1, last_returned_snoc. reflexivity.
    - intros pv' Hpv'. apply Hsub. right. exact Hpv'.
    - rewrite Hlog1. intros E. destruct (dial_log st); discriminate E. }
  destruct (has_status "reachable" (returned d)); [apply Hrec; reflexivity|].
  destruct (returned d) eqn:Hd; [apply Hrec; reflexivity|].
  cbn [dial_log last_result]. split; [exact Hok'|].
  rewrite last_returned_snoc. reflexivity.
Qed.

Lemma try_attempts_params dial config ip port attempts st :
  dial_params_ok config ip port (dial_log st) ->
  last_result st = last_returned (dial_log st) ->
  match try_attempts dial config ip port (protocol_versions config) attempts st with
  | inl (_, st') | inr st' => dial_params_ok config ip port (dial_log st')
  end.
Proof.
  revert st. induction attempts as [|a rest IH]; intros st Hok Hlast; [exact Hok|].
  cbn [try_attempts].
  match goal with |- context [try_protocols _ _ _ _ _ _ ?s] => set (st1 := s) end.
  assert (H1 : dial_log st1 = dial_log st /\ last_result st1 = last_result st)
    by (unfold st1; destruct (0 <? a)%nat; split; reflexivity).
  destruct H1 as [Hlog1 Hl1].
  pose proof (try_protocols_params dial config ip port a (protocol_versions config) st1) as Hp.
  rewrite Hlog1, Hl1 in Hp. specialize (Hp Hok Hlast (fun _ H => H)).
  destruct (try_protocols dial config ip port a (protocol_versions config) st1)
    as [[r st2]|st2].
  - apply Hp. intros _ pv [= <-]. reflexivity.
  - destruct Hp as [Hok2 Hl2]; [intros _ pv [= <-]; reflexivity|].
    apply IH; assumption.
Qed.

(** X9. Every dial made by _connect_and_handshake is for the ip and port it
    was called with and uses the primary protocol version or one of the
    fallbacks; the first dial uses the primary version and
    connection_timeout; a dial uses extended_timeout only right after a dial
    that returned status reachable, and connection_timeout otherwise. *)
Theorem X9_parameters_of_every_dial :
  forall (dial : dialer) (config : CrawlerConfig) (ip : string) (port : Z) (i : nat)
         (c : dial_call),
    dial_log (snd (_connect_and_handshake dial config ip port)) !! i = Some c ->
    dialed_ip c = ip /\ dialed_port c = port /\
    dialed_protocol_version c ∈ protocol_versions config /\
    (i = 0%nat -> dialed_protocol_version c = protocol_version (chain_config config) /\
                  dialed_timeout c = connection_timeout config) /\
    (dialed_timeout c = connection_timeout config \/
     (dialed_timeout c = extended_timeout config /\
      exists j prev,
        i = S j /\
        dial_log (snd (_connect_and_handshake dial config ip port)) !! j = Some prev /\
        has_status "reachable" (dial_returned prev) = true)).
Proof.
  intros dial config ip port i c.
  assert (Hok : dial_params_ok config ip port
                  (dial_log (snd (_connect_and_handshake dial config ip port)))).
  { unfold _connect_and_handshake. fold (protocol_versions config).
    pose proof (try_attempts_params dial config ip port
                  (seq 0 (Z.to_nat (max_retries config + 1))) (mk_retry None None [] [] 0)) as H.
    destruct (try_attempts dial config ip port (protocol_versions config)
                (seq 0 (Z.to_nat (max_retries config + 1))) (mk_retry None None [] [] 0))
      as [[r st]|st].
    - apply H; [apply dial_params_nil|reflexivity].
    - destruct (has_status "reachable" (last_result st)); cbn [snd];
        (apply H; [apply dial_params_nil|reflexivity]). }
  intros Hi. destruct Hok as [Hall Hhead].
  destruct (Hall i c Hi) as (H1 & H2 & H3 & H4).
  split; [exact H1|]. split; [exact H2|]. split; [exact H3|]. split; [|exact H4].
  intros ->. apply Hhead, Hi.
Qed.

Lemma X9_parameters_of_every_dial_witness :
  let config := dingo_config 1 (Some [70014]) in
  let dial := dial_peers config (fun _ => mute_peer 0) in
  exists c,
    dial_log (snd (_connect_and_handshake dial config "198.51.100.5" 33117)) !! 2%nat = Some c /\
    dialed_ip c = "198.51.100.5" /\ dialed_port c = 33117 /\
    dialed_protocol_version c ∈ protocol_versions config.
Proof.
  intros config dial.
  destruct (dial_log (snd (_connect_and_handshake dial config "198.51.100.5" 33117)) !! 2%nat)
    as [c|] eqn:E; [|vm_compute in E; discriminate E].
  exists c. split; [reflexivity|].
  destruct (X9_parameters_of_every_dial dial config "198.51.100.5" 33117 2 c E)
    as (H1 & H2 & H3 & _).
  repeat split; assumption.
Defined.

(** ** Counters and the semaphore *)

Lemma dialing_cons t ts :
  dialing (t :: ts) = ((if decide (task_phase t = Dialing) then 1 else 0) + dialing ts)%nat.
Proof.
  unfold dialing. destruct (decide (task_phase t = Dialing)) as [H|H].
  - rewrite filter_cons_True by exact H. reflexivity.
  - rewrite filter_cons_False by exact H. reflexivity.
Qed.

Lemma dialing_set_phase i ph ts t :
  ts !! i = Some t ->
  (dialing (set_phase i ph ts) + (if decide (task_phase t = Dialing) then 1 else 0)
   = dialing ts + (if decide (ph = Dialing) then 1 else 0))%nat.
Proof.
  unfold set_phase. intros Hi. rewrite Hi.
  revert i Hi. induction ts as [|t0 ts IH]; intros i Hi; [discriminate|].
  destruct i as [|i].
  - injection Hi as ->. cbn [insert list_insert]. rewrite !dialing_cons. cbn [task_phase].
    destruct (decide (ph = Dialing)), (decide (task_phase t = Dialing)); lia.
  - change (<[S i:=mk_task (task_ip t) (task_port t) ph]> (t0 :: ts))
      with (t0 :: <[i:=mk_task (task_ip t) (task_port t) ph]> ts).
    rewrite !dialing_cons. specialize (IH i Hi).
    destruct (decide (ph = Dialing)), (decide (task_phase t = Dialing)),
      (decide (task_phase t0 = Dialing)); lia.
Qed.

Lemma dialing_none ts ph :
  ph <> Dialing -> Forall (fun t => task_phase t = ph) ts -> dialing ts = 0%nat.
Proof.
  intros Hph. induction 1 as [|t ts Ht _ IH]; [reflexivity|].
  rewrite dialing_cons, IH. rewrite decide_False by congruence. reflexivity.
Qed.

Lemma stat_admit_peers k node_env peers c : stat k (admit_peers node_env peers c) = stat k c.
Proof.
  unfold stat. destruct (admit_peers_frame node_env peers c) as (_ & _ & ->). reflexivity.
Qed.

Lemma stat_set_nodes k f c : stat k (set_nodes f c) = stat k c.
Proof. reflexivity. Qed.

Lemma stat_set_crawled k f c : stat k (set_crawled f c) = stat k c.
Proof. reflexivity. Qed.

Lemma stat_set_pending k f c : stat k (set_pending f c) = stat k c.
Proof. reflexivity. Qed.

Lemma crawl_record_stat k node_env now ip port node_info c :
  stat k (crawl_record node_env now ip port node_info c)
  = stat k c
    + (if decide (k = "connections_successful")
       then match node_info with Some _ => 1 | None => 0 end else 0)
    + (if decide (k = "connections_failed")
       then match node_info with Some _ => 0 | None => 1 end else 0)
    + (if decide (k = "nodes_discovered")
       then match nodes c !! _node_key ip port with Some _ => 0 | None => 1 end else 0).
Proof.
  unfold crawl_record. destruct node_info as [n|].
  - rewrite stat_admit_peers.
    cbn [nodes stats_add set_crawled].
    destruct (nodes c !! _node_key ip port);
      rewrite ?stat_stats_add, ?stat_set_nodes, ?stat_stats_add, ?stat_set_crawled;
      destruct (decide (k = "connections_successful")) as [E1|];
      destruct (decide (k = "connections_failed")) as [E2|];
      destruct (decide (k = "nodes_discovered")) as [E3|];
      try congruence; lia.
  - cbn [nodes stats_add set_crawled].
    destruct (nodes c !! _node_key ip port);
      rewrite ?stat_stats_add, ?stat_set_nodes, ?stat_stats_add, ?stat_set_crawled;
      destruct (decide (k = "connections_successful")) as [E1|];
      destruct (decide (k = "connections_failed")) as [E2|];
      destruct (decide (k = "nodes_discovered")) as [E3|];
      try congruence; lia.
Qed.

Ltac decide_keys :=
  repeat match goal with
    | |- context [decide (?a = ?b)] =>
        first [ rewrite (decide_True (P := a = b)) by reflexivity
              | rewrite (decide_False (P := a = b)) by discriminate ]
    end.

Lemma length_set_phase i ph ts : length (set_phase i ph ts) = length ts.
Proof. unfold set_phase. destruct (ts !! i); [apply length_insert|reflexivity]. Qed.

Lemma counters_invariant_step `{Protocol} config node_env c ps ps' :
  0 <= max_concurrent config ->
  pass_step config node_env ps ps' ->
  counters_invariant config c ps -> counters_invariant config c ps'.
Proof.
  intros Hmax Hstep (Ha & Hb & Hc & Hd).
  destruct Hstep as [ps order targets Hdone Hne Hperm Hmap
                    |ps i t c1 go Hi Hph Hbegin
                    |ps i t Hi Hph Hperm
                    |ps i t net now node_info st Hi Hph Hrun];
    unfold counters_invariant; cbn [crawler tasks permits handshakes].
  - rewrite (dialing_none (tasks ps) Done) in Hb, Hc by (discriminate || exact Hdone).
    rewrite (dialing_none _ Ready)
      by (discriminate || (apply Forall_fmap, Forall_forall; intros; reflexivity)).
    repeat split; try assumption.
    rewrite length_fmap. apply length_mapM in Hmap. rewrite <- Hmap.
    unfold py_prefix. destruct (Z.leb_spec 0 (max_concurrent config)); [|lia].
    rewrite length_take. lia.
  - unfold crawl_begin in Hbegin. injection Hbegin as <- _.
    pose proof (dialing_set_phase i (if go then Waiting else Done) (tasks ps) t Hi) as Hdi.
    rewrite decide_False in Hdi by congruence.
    rewrite decide_False in Hdi by (destruct go; discriminate).
    rewrite length_set_phase, !stat_set_pending.
    repeat split; try assumption; lia.
  - pose proof (dialing_set_phase i Dialing (tasks ps) t Hi) as Hdi.
    rewrite decide_False in Hdi by congruence.
    rewrite decide_True in Hdi by reflexivity.
    rewrite length_set_phase. unfold crawl_acquired. rewrite !stat_stats_add.
    decide_keys. cbn [length]. repeat split; try assumption; lia.
  - pose proof (dialing_set_phase i Done (tasks ps) t Hi) as Hdi.
    rewrite decide_True in Hdi by exact Hph.
    rewrite decide_False in Hdi by discriminate.
    rewrite length_set_phase.
    rewrite !crawl_record_stat, !stat_stats_add.
    decide_keys. repeat split; try assumption; destruct node_info; lia.
Qed.

Lemma counters_invariant_reachable `{Protocol} config node_env c ps :
  0 <= max_concurrent config ->
  rtc (pass_step config node_env) (pass_start config c) ps ->
  counters_invariant config c ps.
Proof.
  intros Hmax Hrtc. revert ps Hrtc.
  apply (rtc_ind_r (fun ps => counters_invariant config c ps)).
  - unfold counters_invariant, pass_start. cbn. repeat split; lia.
  - intros ps1 ps2 _ Hstep IH. eapply counters_invariant_step; eassumption.
Qed.

(** X10. At every point of a crawl (max_concurrent not negative),
    connections_attempted has grown by the number of calls of
    _connect_and_handshake, and this growth is the growth of
    connections_successful plus the growth of connections_failed plus the
    number of tasks that hold the semaphore; once every task of the batch
    has returned, attempted has grown by successful plus failed. *)
Theorem X10_connection_counters `{Protocol} :
  forall (config : CrawlerConfig) (node_env : option string) (c : Crawler) (ps : pass),
    0 <= max_concurrent config ->
    rtc (pass_step config node_env) (pass_start config c) ps ->
    stat "connections_attempted" (crawler ps)
      = stat "connections_attempted" c + Z.of_nat (length (handshakes ps)) /\
    stat "connections_attempted" (crawler ps) - stat "connections_attempted" c
      = (stat "connections_successful" (crawler ps) - stat "connections_successful" c)
        + (stat "connections_failed" (crawler ps) - stat "connections_failed" c)
        + Z.of_nat (dialing (tasks ps)) /\
    (Forall (fun t => task_phase t = Done) (tasks ps) ->
     stat "connections_attempted" (crawler ps) - stat "connections_attempted" c
      = (stat "connections_successful" (crawler ps) - stat "connections_successful" c)
        + (stat "connections_failed" (crawler ps) - stat "connections_failed" c)).
Proof.
  intros config node_env c ps Hmax Hrtc.
  destruct (counters_invariant_reachable config node_env c ps Hmax Hrtc) as (Ha & Hb & _).
  split; [exact Ha|]. split; [exact Hb|].
  intros Hdone. rewrite (dialing_none (tasks ps) Done) in Hb by (discriminate || exact Hdone).
  lia.
Qed.

(** ** [nodes_discovered] counts the entries of [nodes] *)

Lemma crawl_record_nodes node_env now ip port node_info c :
  nodes (crawl_record node_env now ip port node_info c)
  = <[_node_key ip port :=
        match nodes c !! _node_key ip port, node_info with
        | Some existing, Some n => update_existing now n existing
        | Some existing, None =>
            NodeInfo.set_last_seen (datetime_now_utc now) (NodeInfo.set_status "down" existing)
        | None, Some n => n
        | None, None => node_info_unreachable now ip port
        end]> (nodes c).
Proof.
  unfold crawl_record. destruct node_info as [n|].
  - match goal with |- context [admit_peers ?e ?p ?c0] =>
      destruct (admit_peers_frame e p c0) as (-> & _ & _) end.
    cbn [nodes stats_add set_crawled].
    destruct (nodes c !! _node_key ip port); reflexivity.
  - cbn [nodes stats_add set_crawled].
    destruct (nodes c !! _node_key ip port); reflexivity.
Qed.

Lemma crawl_record_discovered node_env now ip port node_info c :
  Z.of_nat (size (nodes (crawl_record node_env now ip port node_info c)))
    - Z.of_nat (size (nodes c))
  = stat "nodes_discovered" (crawl_record node_env now ip port node_info c)
    - stat "nodes_discovered" c.
Proof.
  rewrite crawl_record_stat, crawl_record_nodes. decide_keys.
  destruct (nodes c !! _node_key ip port) as [existing|] eqn:E.
  - rewrite map_size_insert_Some by eauto. lia.
  - rewrite map_size_insert_None by exact E. lia.
Qed.

(** X11. At every point of a crawl, the counter nodes_discovered has grown
    by as much as the number of entries of self.nodes. *)
Theorem X11_nodes_discovered_counts_new_entries `{Protocol} :
  forall (config : CrawlerConfig) (node_env : option string) (c : Crawler) (ps : pass),
    rtc (pass_step config node_env) (pass_start config c) ps ->
    stat "nodes_discovered" (crawler ps) - stat "nodes_discovered" c
    = Z.of_nat (size (nodes (crawler ps))) - Z.of_nat (size (nodes c)).
Proof.
  intros config node_env c ps Hrtc. revert ps Hrtc.
  apply (rtc_ind_r (fun ps =>
           stat "nodes_discovered" (crawler ps) - stat "nodes_discovered" c
           = Z.of_nat (size (nodes (crawler ps))) - Z.of_nat (size (nodes c)))).
  - cbn. lia.
  - intros ps1 ps2 _ Hstep IH.
    destruct Hstep as [ps order targets Hdone Hne Hperm Hmap
                      |ps i t c1 go Hi Hph Hbegin
                      |ps i t Hi Hph Hperm
                      |ps i t net now node_info st Hi Hph Hrun];
      cbn [crawler].
    + exact IH.
    + unfold crawl_begin in Hbegin. injection Hbegin as <- _. exact IH.
    + unfold crawl_acquired. rewrite stat_stats_add. decide_keys. exact IH.
    + match goal with |- context [crawl_record ?e ?n ?a ?b ?r ?c0] =>
        pose proof (crawl_record_discovered e n a b r c0) as Hd end.
      rewrite stat_stats_add in Hd. decide_keys.
      revert Hd. decide_keys. cbn [nodes stats_add]. intros Hd. lia.
Qed.

(** ** Every crawled key has a settled entry *)

Lemma _connect_and_handshake_status dial config ip port n :
  fst (_connect_and_handshake dial config ip port) = Some n ->
  NodeInfo.status n = "up" \/ NodeInfo.status n = "reachable".
Proof.
  pose proof (_connect_and_handshake_last dial config ip port) as Hlast.
  destruct (_connect_and_handshake dial config ip port) as [r st]. cbn [fst].
  intros ->. unfold reachable_or_none in Hlast.
  destruct (has_status "up" (last_returned (dial_log st))) eqn:Hup.
  - rewrite <- Hlast in Hup. left. apply String.eqb_eq, Hup.
  - destruct (has_status "reachable" (last_returned (dial_log st))) eqn:Hre; [|discriminate].
    rewrite <- Hlast in Hre. right. apply String.eqb_eq, Hre.
Qed.

Lemma crawl_record_settled node_env now ip port node_info c :
  (forall n, node_info = Some n ->
     NodeInfo.status n = "up" \/ NodeInfo.status n = "reachable") ->
  (forall k n, nodes c !! k = Some n -> settled n) ->
  forall k n, nodes (crawl_record node_env now ip port node_info c) !! k = Some n -> settled n.
Proof.
  intros Hr Hall k n. rewrite crawl_record_nodes.
  intros [[_ <-]|[_ Hk]]%lookup_insert_Some; [|eapply Hall, Hk].
  unfold settled.
  destruct (nodes c !! _node_key ip port) as [existing|], node_info as [n0|].
  - destruct (Hr n0 eq_refl) as [E|E]; unfold update_existing; cbn; auto.
  - cbn. auto.
  - destruct (Hr n0 eq_refl); auto.
  - cbn. auto.
Qed.

(** X12. If, when the crawl starts, every crawled key has an entry in nodes
    and every entry has status up, reachable or down, then so it is at every
    point of the crawl: _crawl_node leaves an entry for every key it adds to
    crawled, and the status pending that NodeInfo starts with never reaches
    nodes. *)
Theorem X12_crawled_keys_have_settled_entries `{Protocol} :
  forall (config : CrawlerConfig) (node_env : option string) (c : Crawler) (ps : pass),
    crawled c ⊆ dom (nodes c) ->
    (forall k n, nodes c !! k = Some n -> settled n) ->
    rtc (pass_step config node_env) (pass_start config c) ps ->
    crawled (crawler ps) ⊆ dom (nodes (crawler ps)) /\
    (forall k n, nodes (crawler ps) !! k = Some n -> settled n).
Proof.
  intros config node_env c ps Hdom Hset Hrtc. revert ps Hrtc.
  apply (rtc_ind_r (fun ps =>
           crawled (crawler ps) ⊆ dom (nodes (crawler ps)) /\
           (forall k n, nodes (crawler ps) !! k = Some n -> settled n))).
  - split; assumption.
  - intros ps1 ps2 _ Hstep [IHd IHs].
    destruct Hstep as [ps order targets Hdone Hne Hperm Hmap
                      |ps i t c1 go Hi Hph Hbegin
                      |ps i t Hi Hph Hperm
                      |ps i t net now node_info st Hi Hph Hrun];
      cbn [crawler].
    + split; assumption.
    + unfold crawl_begin in Hbegin. injection Hbegin as <- _. split; assumption.
    + split; assumption.
    + split.
      * rewrite crawl_record_crawled, crawl_record_nodes, dom_insert.
        cbn [crawled nodes stats_add]. set_solver.
      * apply crawl_record_settled; [|exact IHs].
        intros n ->. eapply _connect_and_handshake_status. rewrite Hrun. reflexivity.
Qed.

(** ** Every pending key ends up crawled *)

Lemma accounted_step `{Protocol} config node_env k ps ps' :
  pass_step config node_env ps ps' -> accounted k ps -> accounted k ps'.
Proof.
  intros Hstep Hacc.
  destruct Hstep as [ps order targets Hdone Hne Hperm Hmap
                    |ps i t c1 go Hi Hph Hbegin
                    |ps i t Hi Hph Hperm
                    |ps i t net now node_info st Hi Hph Hrun];
    unfold accounted in *; cbn [crawler tasks] in *.
  - destruct Hacc as [Hp|[Hc|(j & t & Hj & _ & Hw)]]; [auto|auto|].
    rewrite Forall_forall in Hdone.
    assert (Hd : task_phase t = Done) by (apply Hdone; eapply list_elem_of_lookup_2, Hj).
    destruct Hw; congruence.
  - unfold crawl_begin in Hbegin. injection Hbegin as <- <-.
    cbn [pending crawled set_pending].
    destruct Hacc as [Hp|[Hc|(j & t0 & Hj & Hk & Hw)]].
    + destruct (decide (k = task_key t)) as [->|Hne].
      * destruct (bool_decide (task_key t ∈ crawled (crawler ps))) eqn:Hb.
        -- apply bool_decide_eq_true in Hb. auto.
        -- right. right. exists i, (mk_task (task_ip t) (task_port t) Waiting).
           split; [apply set_phase_lookup_eq, Hi|]. split; [reflexivity|]. left. reflexivity.
      * left. set_solver.
    + auto.
    + right. right. exists j, t0. split; [|auto].
      rewrite set_phase_lookup_ne; [exact Hj|]. intros ->.
      rewrite Hi in Hj. injection Hj as <-. destruct Hw; congruence.
  - cbn [pending crawled crawl_acquired stats_add].
    destruct Hacc as [Hp|[Hc|(j & t0 & Hj & Hk & Hw)]]; [auto|auto|].
    right. right. destruct (decide (j = i)) as [->|Hne].
    + rewrite Hi in Hj. injection Hj as <-.
      exists i, (mk_task (task_ip t) (task_port t) Dialing).
      split; [apply set_phase_lookup_eq, Hi|]. split; [exact Hk|]. right. reflexivity.
    + exists j, t0. split; [|auto]. rewrite set_phase_lookup_ne; [exact Hj|exact Hne].
  - rewrite crawl_record_crawled. cbn [crawled stats_add].
    destruct Hacc as [Hp|[Hc|(j & t0 & Hj & Hk & Hw)]].
    + left. apply crawl_record_pending. left. exact Hp.
    + right. left. set_solver.
    + destruct (decide (j = i)) as [->|Hne].
      * rewrite Hi in Hj. injection Hj as <-. right. left.
        unfold task_key in Hk. set_solver.
      * right. right. exists j, t0. split; [|auto].
        rewrite set_phase_lookup_ne; [exact Hj|exact Hne].
Qed.

Lemma accounted_rtc `{Protocol} config node_env k ps ps' :
  rtc (pass_step config node_env) ps ps' -> accounted k ps -> accounted k ps'.
Proof.
  intros Hrtc Hacc. revert ps' Hrtc.
  apply (rtc_ind_r (fun ps' => accounted k ps')); [exact Hacc|].
  intros ps1 ps2 _ Hstep IH. eapply accounted_step; eassumption.
Qed.

(** X13. A key that is in pending at some point of the crawl is in crawled
    when the loop of _crawl_pending has ended (nothing pending, every task
    returned): no key leaves pending without being crawled. *)
Theorem X13_every_pending_key_gets_crawled `{Protocol} :
  forall (config : CrawlerConfig) (node_env : option string) (ps ps' : pass) (k : string),
    k ∈ pending (crawler ps) ->
    rtc (pass_step config node_env) ps ps' ->
    pass_over ps' ->
    k ∈ crawled (crawler ps').
Proof.
  intros config node_env ps ps' k Hk Hrtc [Hempty Hdone].
  destruct (accounted_rtc config node_env k ps ps' Hrtc (or_introl Hk))
    as [Hp|[Hc|(j & t & Hj & _ & Hw)]].
  - rewrite Hempty in Hp. set_solver.
  - exact Hc.
  - rewrite Forall_forall in Hdone.
    assert (Hd : task_phase t = Done) by (apply Hdone; eapply list_elem_of_lookup_2, Hj).
    destruct Hw; congruence.
Qed.

(** ** The semaphore never blocks, and the pass never gets stuck *)

Lemma dialing_lt ts i t :
  ts !! i = Some t -> task_phase t <> Dialing -> (dialing ts < length ts)%nat.
Proof.
  revert i. induction ts as [|t0 ts IH]; intros i Hi Hph; [discriminate|].
  rewrite dialing_cons. cbn [length].
  assert (Hle : (dialing ts <= length ts)%nat) by apply length_filter.
  destruct i as [|i].
  - injection Hi as ->. rewrite decide_False by exact Hph. lia.
  - specialize (IH i Hi Hph). destruct (decide (task_phase t0 = Dialing)); lia.
Qed.

Lemma mapM_key_target keys :
  Forall is_node_key keys -> is_Some (mapM key_target keys).
Proof.
  induction 1 as [|k keys (ip & port & ->) _ [targets IH]]; [eexists; reflexivity|].
  cbn [mapM]. rewrite key_target_node_key, IH. eexists. reflexivity.
Qed.

Lemma not_all_done ts :
  ~ Forall (fun t => task_phase t = Done) ts ->
  exists i t, ts !! i = Some t /\ task_phase t <> Done.
Proof.
  intros Hn. apply not_Forall_Exists in Hn; [|intros t; apply _].
  apply Exists_exists in Hn as (t & Hin & Ht).
  apply list_elem_of_lookup_1 in Hin as [i Hi]. eauto.
Qed.

(** X14. At every point of a crawl (max_concurrent not negative, pending
    holding keys written by _node_key) the free slots of the semaphore are
    max_concurrent minus the number of tasks that are dialing; a task that
    waits for the semaphore finds a free slot, a batch having at most
    max_concurrent tasks; and either the loop of _crawl_pending has ended or
    some task or the loop can go on: the crawl does not deadlock. *)
Theorem X14_pass_never_gets_stuck `{Protocol} :
  forall (config : CrawlerConfig) (node_env : option string) (c : Crawler) (ps : pass),
    0 <= max_concurrent config ->
    (forall k, k ∈ pending c -> is_node_key k) ->
    rtc (pass_step config node_env) (pass_start config c) ps ->
    permits ps = max_concurrent config - Z.of_nat (dialing (tasks ps)) /\
    (forall i t, tasks ps !! i = Some t -> task_phase t = Waiting -> 0 < permits ps) /\
    (pass_over ps \/ exists ps', pass_step config node_env ps ps').
Proof.
  intros config node_env c ps Hmax Hkeys Hrtc.
  destruct (counters_invariant_reachable config node_env c ps Hmax Hrtc) as (_ & _ & Hc & Hd).
  destruct (keys_invariant_reachable config node_env c ps Hkeys Hrtc) as (_ & _ & _ & _ & Hpend).
  assert (Hfree : forall i t, tasks ps !! i = Some t -> task_phase t = Waiting -> 0 < permits ps).
  { intros i t Hi Hph.
    assert (dialing (tasks ps) < length (tasks ps))%nat
      by (eapply dialing_lt; [exact Hi|congruence]).
    lia. }
  split; [lia|]. split; [exact Hfree|].
  destruct (decide (Forall (fun t => task_phase t = Done) (tasks ps))) as [Hdone|Hnot].
  - destruct (decide (pending (crawler ps) = ∅)) as [Hempty|Hne]; [left; split; assumption|].
    right.
    destruct (mapM_key_target (py_prefix (max_concurrent config)
                                 (elements (pending (crawler ps))))) as [targets Ht].
    { apply Forall_forall. intros k Hk. apply Hpend, elem_of_elements.
      eapply sublist_subseteq; [apply py_prefix_sublist|exact Hk]. }
    eexists. eapply step_batch; [exact Hdone|exact Hne|reflexivity|exact Ht].
  - right. apply not_all_done in Hnot as (i & t & Hi & Hph).
    destruct (task_phase t) eqn:E; [| | |congruence].
    + destruct (crawl_begin (task_key t) (crawler ps)) as [c1 go] eqn:Hb.
      eexists. eapply step_begin; eassumption.
    + eexists. eapply step_acquire; [exact Hi|exact E|eapply Hfree; eassumption].
    + eexists. eapply (step_finish config node_env ps i t (fun _ => refusing_peer 0) 0%Q);
        [exact Hi|exact E|apply surjective_pairing].
Qed.

(** ** Keys that were crawled before the pass *)

Lemma crawl_record_nodes_other node_env now ip port node_info c k :
  k <> _node_key ip port ->
  nodes (crawl_record node_env now ip port node_info c) !! k = nodes c !! k.
Proof. intros Hne. rewrite crawl_record_nodes. apply lookup_insert_ne. congruence. Qed.

(** X15. A key that is in crawled when _crawl_pending starts is never handed
    to _connect_and_handshake during the crawl, no dial is made for it, its
    entry in nodes (or the lack of one) stays as it was, and it stays in
    crawled. *)
Theorem X15_crawled_before_the_pass_is_left_alone `{Protocol} :
  forall (config : CrawlerConfig) (node_env : option string) (c : Crawler) (ps : pass)
         (k : string),
    (forall k, k ∈ pending c -> is_node_key k) ->
    k ∈ crawled c ->
    rtc (pass_step config node_env) (pass_start config c) ps ->
    (k ∉ handshakes ps) /\
    dials_for k (dials ps) = [] /\
    nodes (crawler ps) !! k = nodes c !! k /\
    k ∈ crawled (crawler ps).
Proof.
  intros config node_env c ps k Hkeys Hk Hrtc.
  enough (Hinv : keys_invariant ps /\ (k ∉ handshakes ps) /\ dials_for k (dials ps) = [] /\
                 nodes (crawler ps) !! k = nodes c !! k /\ k ∈ crawled (crawler ps))
    by (destruct Hinv as (_ & Hinv); exact Hinv).
  revert ps Hrtc.
  apply (rtc_ind_r (fun ps => keys_invariant ps /\ (k ∉ handshakes ps) /\
           dials_for k (dials ps) = [] /\
           nodes (crawler ps) !! k = nodes c !! k /\ k ∈ crawled (crawler ps))).
  - split; [apply keys_invariant_start, Hkeys|]. cbn.
    split; [apply not_elem_of_nil|]. auto.
  - intros ps1 ps2 _ Hstep (Hinv & Hh & Hd & Hn & Hc).
    split; [eapply keys_invariant_step; eassumption|].
    destruct Hinv as (_ & _ & _ & Hact & _).
    destruct Hstep as [ps order targets Hdone Hne Hperm Hmap
                      |ps i t c1 go Hi Hph Hbegin
                      |ps i t Hi Hph Hperm
                      |ps i t net now node_info st Hi Hph Hrun];
      cbn [crawler handshakes dials].
    + auto.
    + unfold crawl_begin in Hbegin. injection Hbegin as <- _. auto.
    + repeat split; try assumption.
      intros [->|Hin]%elem_of_cons; [|exact (Hh Hin)].
      exact (Hact i t Hi (or_introl Hph) Hc).
    + assert (Hne : k <> _node_key (task_ip t) (task_port t)).
      { intros ->. exact (Hact i t Hi (or_intror Hph) Hc). }
      pose proof (_connect_and_handshake_dials (dial_peers config net) config
                    (task_ip t) (task_port t)) as [_ Hall].
      rewrite Hrun in Hall. cbn [snd] in Hall.
      split; [exact Hh|]. split; [|split].
      * rewrite dials_for_app, Hd. apply dials_for_none.
        eapply Forall_impl; [exact Hall|]. intros d Hdk. cbn in Hdk. congruence.
      * rewrite crawl_record_nodes_other by exact Hne. exact Hn.
      * rewrite crawl_record_crawled. cbn [crawled stats_add]. set_solver.
Qed.

(** ** A batch size of zero *)

(** X16. With max_concurrent = 0 every batch of _crawl_pending is empty:
    every state the crawl reaches is the state it started from, so nothing
    is dialed and pending is never consumed. *)
Theorem X16_no_slot_no_progress `{Protocol} :
  forall (config : CrawlerConfig) (node_env : option string) (c : Crawler) (ps : pass),
    max_concurrent config = 0 ->
    rtc (pass_step config node_env) (pass_start config c) ps ->
    ps = pass_start config c.
Proof.
  intros config node_env c ps Hzero Hrtc. revert ps Hrtc.
  apply (rtc_ind_r (fun ps => ps = pass_start config c)); [reflexivity|].
  intros ps1 ps2 _ Hstep E.
  destruct Hstep as [ps order targets Hdone Hne Hperm Hmap
                    |ps i t c1 go Hi Hph Hbegin
                    |ps i t Hi Hph Hperm
                    |ps i t net now node_info st Hi Hph Hrun];
    subst ps; try (cbn in Hi; rewrite lookup_nil in Hi; discriminate Hi).
  rewrite Hzero in Hmap. cbn in Hmap. rewrite take_0 in Hmap. injection Hmap as <-.
  reflexivity.
Qed.

(** ** One dial: what it returns and what it writes *)

Lemma parse_version_loop_conduct `{Protocol} cc ip port fuel remaining h s h' s' :
  parse_version_loop cc fuel remaining h s = (Ok h', s') ->
  handshake_ok ip port h ->
  handshake_ok ip port h' /\
  (received_version h = true -> received_version h' = true) /\
  exists k, sent s' = (sent s ++ replicate k (create_verack_message cc))%list /\
            (received_version h' = false -> k = 0%nat) /\
            (received_version h = false -> received_version h' = true -> (1 <= k)%nat).
Proof.
  revert remaining h s.
  induction fuel as [|fuel IH]; intros remaining h s; simpl.
  - intros [= <- <-] Hok. split; [exact Hok|]. split; [auto|]. exists 0%nat.
    rewrite app_nil_r. repeat split; congruence.
  - assert (Hstop : (Ok h, s) = (Ok h', s') -> handshake_ok ip port h ->
              handshake_ok ip port h' /\
              (received_version h = true -> received_version h' = true) /\
              exists k, sent s' = (sent s ++ replicate k (create_verack_message cc))%list /\
                (received_version h' = false -> k = 0%nat) /\
                (received_version h = false -> received_version h' = true -> (1 <= k)%nat)).
    { intros [= <- <-] Hok. split; [exact Hok|]. split; [auto|]. exists 0%nat.
      rewrite app_nil_r. repeat split; congruence. }
    destruct remaining as [|b remaining]; [exact Hstop|].
    destruct (parse_message (b :: remaining) (magic_bytes cc))
      as [[[command payload] rest]|e].
    + destruct (String.eqb command "version").
      * destruct (parse_version_payload payload) as [vd|e].
        -- set (h1 := mk_handshake (capture_version vd (node_info h)) true (received_verack h)).
           assert (Hok1 : handshake_ok ip port h -> handshake_ok ip port h1).
           { intros (H1 & H2 & H3 & H4 & H5 & _). unfold handshake_ok, h1. cbn.
             repeat split; eauto. }
           unfold send at 1.
           destruct (drain_errors s (length (sent s))) as [e|] eqn:Hdr.
           ++ destruct e; try discriminate.
              intros [= <- <-] Hok. split; [apply Hok1, Hok|]. split; [reflexivity|].
              exists 1%nat. cbn. repeat split; [discriminate|lia].
           ++ intros Hloop Hok.
              destruct (IH _ _ _ Hloop (Hok1 Hok)) as (Hok' & Hm & k & Hs & Hk0 & Hk1).
              specialize (Hm eq_refl).
              split; [exact Hok'|]. split; [intros _; exact Hm|]. exists (S k).
              cbn [sent] in Hs. rewrite Hs, <- app_assoc.
              split; [reflexivity|]. split; [congruence|lia].
        -- destruct e; try discriminate. exact Hstop.
      * destruct (String.eqb command "verack").
        -- intros Hloop Hok.
           destruct (IH _ _ _ Hloop) as (Hok' & Hm & k & Hs & Hk0 & Hk1).
           { destruct Hok as (H1 & H2 & H3 & H4 & H5 & H6). unfold handshake_ok. cbn.
             repeat split; assumption. }
           split; [exact Hok'|]. split; [exact Hm|]. exists k. repeat split; assumption.
        -- intros Hloop Hok. apply (IH _ _ _ Hloop Hok).
    + destruct e; try discriminate. exact Hstop.
Qed.

Lemma read_version_sent read_timeout s :
  sent (snd (read_version read_timeout s)) = sent s.
Proof.
  unfold read_version.
  destruct (read_version_loop _ _ _ _ _) as [[r events] clock']. reflexivity.
Qed.

Lemma read_addr_sent `{Protocol} cc s : sent (snd (read_addr cc s)) = sent s.
Proof.
  unfold read_addr.
  destruct (read_addr_loop _ _ _ _ _) as [[r events] clock']. reflexivity.
Qed.

Lemma parse_version_loop_sent `{Protocol} cc fuel remaining h s :
  exists k, sent (snd (parse_version_loop cc fuel remaining h s))
            = (sent s ++ replicate k (create_verack_message cc))%list.
Proof.
  revert remaining h s.
  induction fuel as [|fuel IH]; intros remaining h s; simpl.
  - exists 0%nat. rewrite app_nil_r. reflexivity.
  - assert (Hstop : forall r : result handshake, exists k,
              sent (snd (r, s)) = (sent s ++ replicate k (create_verack_message cc))%list)
      by (intros r; exists 0%nat; rewrite app_nil_r; reflexivity).
    destruct remaining as [|b remaining]; [apply Hstop|].
    destruct (parse_message (b :: remaining) (magic_bytes cc))
      as [[[command payload] rest]|e].
    + destruct (String.eqb command "version").
      * destruct (parse_version_payload payload) as [vd|e].
        -- unfold send at 1.
           destruct (drain_errors s (length (sent s))) as [e|].
           ++ exists 1%nat. destruct e; reflexivity.
           ++ match goal with |- context [parse_version_loop cc fuel ?r ?h0 ?s0] =>
                destruct (IH r h0 s0) as [k Hk] end.
              exists (S k). rewrite Hk. cbn [sent]. rewrite <- app_assoc. reflexivity.
        -- destruct e; apply Hstop.
      * destruct (String.eqb command "verack"); apply IH.
    + destruct e; apply Hstop.
Qed.

Lemma dial_conduct_holds `{Protocol} config ip port pv timeout p :
  dial_conduct config ip port pv timeout p.
Proof.
  unfold dial_conduct, _try_connect_with_protocol.
  destruct (connecting p) as [d|e]; [|split; reflexivity].
  destruct (Qltb d timeout) eqn:Hd; [|split; reflexivity].
  unfold converse, mbind, io_bind. cbv zeta.
  set (s0 := mk_socket (start_clock p + d)%Q (reads p) [] (drain_error p) false).
  set (vmsg := create_version_message _ ip port 0).
  set (verack := create_verack_message (chain_config config)).
  set (getaddr := create_getaddr_message (chain_config config)).
  assert (Hfail : forall (s : socket) rest, sent s = vmsg :: rest ->
            closed (close s) = true /\
            exists d0 rest0, Ok d = Ok d0 /\ Qltb d0 timeout = true /\
              sent (close s) = vmsg :: rest0 /\ peers_from_p2p (mk_dialed None 0) = 0).
  { intros s rest Hs. split; [reflexivity|]. exists d, rest. auto. }
  destruct (send vmsg s0) as [[[]|e] s1] eqn:Hsend.
  2:{ apply (Hfail s1 []). unfold send in Hsend. cbn in Hsend.
      destruct (drain_error p 0%nat); injection Hsend as _ <-; reflexivity. }
  assert (Hs1 : sent s1 = [vmsg]).
  { unfold send in Hsend. cbn in Hsend.
    destruct (drain_error p 0%nat); [discriminate|]. injection Hsend as <-. reflexivity. }
  pose proof (read_version_sent timeout s1) as Hs2.
  destruct (read_version timeout s1) as [[data|e] s2]; cbn [snd] in Hs2.
  2:{ apply (Hfail s2 []). congruence. }
  cbn [time].
  destruct data as [|b data].
  { split; [reflexivity|]. exists d, [].
    split; [reflexivity|]. split; [exact Hd|]. split; [cbn; congruence|].
    cbn. do 3 (split; [reflexivity|]). left. repeat split. }
  set (h0 := mk_handshake (NodeInfo.new (clock s2) ip port) false false).
  assert (Hok0 : handshake_ok ip port h0) by (unfold handshake_ok; cbn; repeat split).
  destruct (parse_version_loop_sent (chain_config config) (S (length (b :: data)))
              (b :: data) h0 s2) as [k0 Hk0].
  destruct (parse_version_loop _ _ _ _ s2) as [[h|e] s3] eqn:Hparse; cbn [snd] in Hk0.
  2:{ eapply Hfail. rewrite Hk0, Hs2, Hs1. reflexivity. }
  destruct (parse_version_loop_conduct _ ip port _ _ _ _ _ _ Hparse Hok0)
    as (Hok & _ & k & Hs3 & Hz & Hp).
  destruct (received_version h) eqn:Hrv; cbn [negb].
  2:{ split; [reflexivity|]. exists d, [].
      split; [reflexivity|]. split; [exact Hd|].
      split; [cbn; rewrite Hs3, (Hz eq_refl), Hs2, Hs1; reflexivity|].
      cbn. do 3 (split; [reflexivity|]). left. repeat split. }
  specialize (Hp eq_refl eq_refl).
  destruct Hok as (Hip & Hport & Hts & Hpeers & _ & Hver).
  rewrite Hrv in Hver.
  unfold sleep at 1. cbn [clock inbox sent drain_errors closed].
  match goal with |- context [send getaddr ?s] => set (s4 := s);
    assert (Hs4 : sent s4 = sent s3) by reflexivity end.
  destruct (send getaddr s4) as [[[]|e] s5] eqn:Hsend5.
  2:{ eapply Hfail. unfold send in Hsend5.
      destruct (drain_errors s4 _); [|discriminate]. injection Hsend5 as _ <-.
      cbn [sent]. rewrite ?Hs4, Hs3, Hs2, Hs1. reflexivity. }
  assert (Hs5 : sent s5 = (sent s3 ++ [getaddr])%list).
  { unfold send in Hsend5. destruct (drain_errors s4 _); [discriminate|].
    injection Hsend5 as <-. cbn [sent]. rewrite ?Hs4. reflexivity. }
  unfold io_try.
  pose proof (read_addr_sent (chain_config config) s5) as Hs6.
  destruct (read_addr (chain_config config) s5) as [[found|e] s6]; cbn [snd] in Hs6.
  - assert (Hsent : sent (close s6) = vmsg :: (replicate (S (k - 1)) verack ++ [getaddr])%list).
    { cbn [close sent]. rewrite Hs6, Hs5, Hs3, Hs2, Hs1.
      replace (S (k - 1)) with k by lia. reflexivity. }
    destruct found as [peers|]; (split; [reflexivity|]);
      exists d, (replicate (S (k - 1)) verack ++ [getaddr])%list;
      (split; [reflexivity|]); (split; [exact Hd|]); (split; [exact Hsent|]);
      cbn; (split; [exact Hip|]); (split; [exact Hport|]); (split; [exact Hts|]);
      right; (split; [reflexivity|]); (split; [exact Hver|]);
      (split; [first [reflexivity | rewrite Hpeers; reflexivity]|]); eauto.
  - assert (Hsent : sent (close s6) = vmsg :: (replicate (S (k - 1)) verack ++ [getaddr])%list).
    { cbn [close sent]. rewrite Hs6, Hs5, Hs3, Hs2, Hs1.
      replace (S (k - 1)) with k by lia. reflexivity. }
    split; [reflexivity|].
    exists d, (replicate (S (k - 1)) verack ++ [getaddr])%list.
    split; [reflexivity|]. split; [exact Hd|]. split; [exact Hsent|].
    cbn. split; [exact Hip|]. split; [exact Hport|]. split; [exact Hts|].
    right. split; [reflexivity|]. split; [exact Hver|].
    split; [rewrite Hpeers; reflexivity|]. eauto.
Qed.

(** X17. One dial (_try_connect_with_protocol) returns None, and then counts
    no peer, or a node for the dialed ip and port with times_seen 1 that is
    either of status reachable, with version, protocol_version, services,
    start_height and user_agent all unset, no peers and the time of the TCP
    connect as latency, or of status up, with protocol_version, services,
    start_height and user_agent set, version equal to user_agent, and
    peers_from_p2p counting the peers it lists. *)
Theorem X17_what_a_dial_returns `{Protocol} :
  forall (config : CrawlerConfig) (ip : string) (port protocol_version : Z)
         (timeout : Q) (p : peer),
    let r := fst (_try_connect_with_protocol config ip port protocol_version timeout p) in
    match returned r with
    | None => peers_from_p2p r = 0
    | Some n =>
        NodeInfo.ip n = ip /\ NodeInfo.port n = port /\ NodeInfo.times_seen n = 1 /\
        ((NodeInfo.status n = "reachable" /\ unversioned n /\ NodeInfo.peers n = [] /\
          peers_from_p2p r = 0 /\
          exists d, connecting p = Ok d /\
            NodeInfo.latency_ms n = Some (((start_clock p + d) - start_clock p) * 1000)%Q) \/
         (NodeInfo.status n = "up" /\ fully_versioned n /\
          peers_from_p2p r = Z.of_nat (length (NodeInfo.peers n))))
    end.
Proof.
  intros config ip port pv timeout p. cbv zeta.
  pose proof (dial_conduct_holds config ip port pv timeout p) as Hc.
  unfold dial_conduct in Hc. cbv zeta in Hc.
  destruct (_try_connect_with_protocol config ip port pv timeout p) as [r [s|]]; cbn [fst].
  - destruct Hc as (_ & d & rest & Hd & _ & _ & Hr).
    destruct (returned r) as [n|]; [|exact Hr].
    destruct Hr as (H1 & H2 & H3 & [(Hst & Hu & Hp & Hl & Hn & _)|(Hst & Hv & Hn & _)]).
    + split; [exact H1|]. split; [exact H2|]. split; [exact H3|].
      left. split; [exact Hst|]. split; [exact Hu|]. split; [exact Hp|].
      split; [exact Hn|]. eauto.
    + split; [exact H1|]. split; [exact H2|]. split; [exact H3|].
      right. split; [exact Hst|]. split; [exact Hv|]. exact Hn.
  - destruct Hc as [-> Hn]. exact Hn.
Qed.

(** X18. When the connection is not established, a dial sends nothing and
    returns None. Otherwise the socket is closed when the dial returns and
    the first message sent is the version message for the dialed protocol
    version; a dial that returns status reachable sent nothing else; a dial
    that returns status up sent one or more verack messages and then a
    single getaddr message. *)
Theorem X18_what_a_dial_writes `{Protocol} :
  forall (config : CrawlerConfig) (ip : string) (port protocol_version : Z)
         (timeout : Q) (p : peer),
    let cc := chain_config config in
    match _try_connect_with_protocol config ip port protocol_version timeout p with
    | (r, None) => returned r = None
    | (r, Some s) =>
        closed s = true /\
        exists rest,
          sent s = create_version_message (replace_protocol_version cc protocol_version)
                     ip port 0 :: rest /\
          match returned r with
          | None => True
          | Some n =>
              (NodeInfo.status n = "reachable" /\ rest = []) \/
              (NodeInfo.status n = "up" /\
               exists k, rest = (replicate (S k) (create_verack_message cc)
                                 ++ [create_getaddr_message cc])%list)
          end
    end.
Proof.
  intros config ip port pv timeout p. cbv zeta.
  pose proof (dial_conduct_holds config ip port pv timeout p) as Hc.
  unfold dial_conduct in Hc. cbv zeta in Hc.
  destruct (_try_connect_with_protocol config ip port pv timeout p) as [r [s|]].
  - destruct Hc as (Hcl & d & rest & _ & _ & Hs & Hr).
    split; [exact Hcl|]. exists rest. split; [exact Hs|].
    destruct (returned r) as [n|]; [|exact I].
    destruct Hr as (_ & _ & _ & [(Hst & _ & _ & _ & _ & Hrest)|(Hst & _ & _ & Hrest)]); auto.
  - apply Hc.
Qed.

(** ** A peer that speaks another protocol *)

Lemma Qltb_refl_sub c t : Qltb 0 t = true -> Qltb (c - c) t = true.
Proof.
  unfold Qltb. intros H%negb_true_iff. apply negb_true_iff.
  destruct (Qle_bool t (c - c)) eqn:E; [|reflexivity].
  apply Qle_bool_iff in E.
  assert (Hle : (t <= 0)%Q).
  { eapply Qle_trans; [exact E|]. unfold Qle. simpl. lia. }
  apply Qle_bool_iff in Hle. congruence.
Qed.

(** X19. When the peer accepts the connection within the timeout, the first
    drain succeeds and the first data received is a complete message frame
    that parse_message rejects with ValueError (magic bytes of another
    network, for instance), the dial returns a node of status reachable
    without version data, whose latency is the time of the TCP connect. *)
Theorem X19_foreign_answer_is_reachable `{Protocol} :
  forall (config : CrawlerConfig) (ip : string) (port protocol_version : Z)
         (timeout : Q) (p : peer) (d d1 : Q) (chunk : bytes) (rest : list read_event),
    connecting p = Ok d ->
    Qltb d timeout = true -> Qltb 0 timeout = true ->
    drain_error p 0%nat = None ->
    reads p = RData d1 chunk :: rest ->
    complete_message chunk = true ->
    parse_message chunk (magic_bytes (chain_config config)) = Raise ValueError ->
    exists n,
      returned (fst (_try_connect_with_protocol config ip port protocol_version timeout p))
        = Some n /\
      NodeInfo.status n = "reachable" /\ unversioned n /\
      NodeInfo.latency_ms n = Some (((start_clock p + d) - start_clock p) * 1000)%Q.
Proof.
  intros config ip port pv timeout p d d1 chunk rest Hc Hd Ht Hs Hreads Hcomplete Hparse.
  unfold _try_connect_with_protocol. rewrite Hc, Hd.
  unfold converse, mbind, io_bind, send. cbn [drain_errors sent length].
  rewrite Hs. unfold read_version. cbn [inbox clock]. rewrite Hreads.
  cbn [read_version_loop]. rewrite (Qltb_refl_sub _ _ Ht).
  destruct chunk as [|b chunk]; [discriminate Hcomplete|].
  cbn [app]. rewrite Hcomplete. cbn [time clock].
  cbn [parse_version_loop length]. rewrite Hparse.
  cbn. eexists. split; [reflexivity|]. repeat split.
Qed.

(** ** Peer addresses reported over RPC *)

Lemma rsplit1_str_cons sep c s :
  PyMore.rsplit1 sep (String c s)
  = match PyMore.rsplit1 sep s with
    | Some (a, b) => Some (String c a, b)
    | None =>
        if Py.startswith sep (String c s)
        then Some (EmptyString, PyMore.drop (String.length sep) (String c s))
        else None
    end.
Proof. reflexivity. Qed.

Lemma rsplit1_str_none c sep s :
  Py.mem_char c s = false -> PyMore.rsplit1 (String c sep) s = None.
Proof.
  induction s as [|d s IH]; [reflexivity|].
  rewrite rsplit1_str_cons. cbn [Py.mem_char Py.startswith].
  intros [Hd Hs]%orb_false_elim. rewrite (IH Hs), Hd. reflexivity.
Qed.

Lemma rsplit1_str_app c1 c2 a b :
  Py.mem_char c1 (String c2 b) = false ->
  PyMore.rsplit1 (String c1 (String c2 EmptyString)) (a +:+ String c1 (String c2 b))
  = Some (a, b).
Proof.
  intros Hb. induction a as [|x a IH].
  - rewrite string_app_nil, rsplit1_str_cons.
    rewrite (rsplit1_str_none c1 (String c2 EmptyString) (String c2 b) Hb).
    cbn [Py.startswith]. rewrite !Ascii.eqb_refl. reflexivity.
  - rewrite string_app_cons, rsplit1_str_cons, IH. reflexivity.
Qed.

Lemma str_no_bracket n : Py.mem_char "]" (Py.str n) = false.
Proof.
  pose proof (str_chars n) as H.
  induction (Py.str n) as [|c s IH]; cbn [Py.mem_char all_chars] in *; [reflexivity|].
  apply andb_prop in H as [Hc Hs]. rewrite (IH Hs), orb_false_r.
  apply orb_prop in Hc as [Hc|Hc].
  - rewrite Ascii.eqb_sym. apply isdigit_not_char; [reflexivity|exact Hc].
  - apply Ascii.eqb_eq in Hc as ->. reflexivity.
Qed.

Lemma split_endpoint_bracketed ip port :
  split_endpoint ("[" +:+ ip +:+ "]:" +:+ Py.str port) = Ok (ip, Py.str port).
Proof.
  unfold split_endpoint. rewrite string_app_cons, string_app_nil.
  cbn [Py.startswith]. rewrite Ascii.eqb_refl. cbn [andb].
  change (String "[" (ip +:+ "]:" +:+ Py.str port))
    with (String "[" ip +:+ String "]" (String ":" (Py.str port))).
  rewrite rsplit1_str_app; [reflexivity|].
  cbn [Py.mem_char]. rewrite str_no_bracket. reflexivity.
Qed.

Lemma split_endpoint_plain ip port :
  Py.startswith "[" ip = false ->
  split_endpoint (ip +:+ ":" +:+ Py.str port) = Ok (ip, Py.str port).
Proof.
  intros Hip. unfold split_endpoint.
  assert (Hs : Py.startswith "[" (ip +:+ ":" +:+ Py.str port) = false).
  { destruct ip as [|c ip]; [reflexivity|]. rewrite string_app_cons.
    cbn [Py.startswith] in *. destruct (Ascii.eqb "[" c); [discriminate|reflexivity]. }
  rewrite Hs. rewrite string_app_cons, string_app_nil.
  rewrite rsplit1_app by apply str_no_colon. reflexivity.
Qed.

Lemma contains_colon_app a b : Py.contains ":" (a +:+ String ":" b) = true.
Proof.
  unfold Py.contains. rewrite mem_char_app. cbn [Py.mem_char].
  rewrite Ascii.eqb_refl. cbn. apply orb_true_r.
Qed.

Lemma entry_endpoint_addr key members addr ip port :
  dict_get key members = Some (JStr addr) ->
  Py.contains ":" addr = true ->
  split_endpoint addr = Ok (ip, Py.str port) ->
  entry_endpoint key (JDict members) = Ok (Some (ip, port)).
Proof.
  intros Hg Hc Hs. unfold entry_endpoint. rewrite Hg.
  change (default (JStr EmptyString) (Some (JStr addr))) with (JStr addr).
  cbv iota. rewrite Hc, Hs. cbn. rewrite int_str. reflexivity.
Qed.

Lemma peers_loop_all peer_info targets peers :
  Forall2 (fun peer p => entry_endpoint "addr" peer = Ok (Some p)) peer_info targets ->
  peers_loop peer_info peers = Ok (peers ++ targets)%list.
Proof.
  intros Hall. revert peers.
  induction Hall as [|peer p peer_info targets Hp _ IH]; intros peers; cbn [peers_loop].
  - rewrite app_nil_r. reflexivity.
  - rewrite Hp, IH, <- app_assoc. reflexivity.
Qed.

(** X20. For a port between 0 and 65535, get_all_peers reads the address
    [ip]:port as (ip, port), the brackets removed, and the address ip:port,
    ip not starting with a bracket, as (ip, port). When every entry of the
    getpeerinfo reply gives a target and getaddednodeinfo fails,
    get_all_peers returns those targets, each once. *)
Theorem X20_rpc_peer_addresses :
  forall (ip : string) (port : Z) (members : list (string * json)),
    0 <= port < 65536 ->
    (dict_get "addr" members = Some (JStr ("[" +:+ ip +:+ "]:" +:+ Py.str port)) ->
     entry_endpoint "addr" (JDict members) = Ok (Some (ip, port))) /\
    (Py.startswith "[" ip = false ->
     dict_get "addr" members = Some (JStr (_node_key ip port)) ->
     entry_endpoint "addr" (JDict members) = Ok (Some (ip, port))) /\
    (forall (peer_info : list json) (targets : list (string * Z))
            (reply : list (string * json)) (e : exn),
       Forall2 (fun peer p => entry_endpoint "addr" peer = Ok (Some p)) peer_info targets ->
       dict_get "result" reply = Some (JList peer_info) ->
       dict_get "error" reply = Some JNull ->
       get_all_peers (Ok (JDict reply)) (Raise e) = Ok (remove_dups targets)).
Proof.
  intros ip port members _. split; [|split].
  - intros Hg. eapply entry_endpoint_addr; [exact Hg| |apply split_endpoint_bracketed].
    rewrite string_app_cons, string_app_nil.
    change (String "[" (ip +:+ "]:" +:+ Py.str port))
      with (String "[" ip +:+ String "]" (String ":" (Py.str port))).
    unfold Py.contains. rewrite mem_char_app. cbn. apply orb_true_r.
  - intros Hip Hg. eapply entry_endpoint_addr; [exact Hg| |apply split_endpoint_plain, Hip].
    unfold _node_key. rewrite string_app_cons, string_app_nil. apply contains_colon_app.
  - intros peer_info targets reply e Hall Hres Herr.
    unfold get_all_peers, getpeerinfo, getaddednodeinfo, call.
    cbn [mbind result_bind try_except call_body]. rewrite Herr, Hres. cbn.
    rewrite (peers_loop_all peer_info targets [] Hall). reflexivity.
Qed.

(** ** Seeding loops that add keys and count them *)

(** A loop that admits the key [f x] of every [x] with one, and counts the
    admissions under [counter]. *)
Lemma counting_fold_effect {A : Type} (step : Crawler -> A -> Crawler) (f : A -> option string)
    (counter : string) (l : list A) (c : Crawler) :
  (forall c x, step c x = match f x with
                          | Some key => stats_add counter 1
                                          (set_pending (fun p => {[key]} ∪ p) c)
                          | None => c
                          end) ->
  let c' := fold_left step l c in
  pending c' = list_to_set (omap f l) ∪ pending c /\
  stat counter c' = stat counter c + Z.of_nat (length (omap f l)) /\
  nodes c' = nodes c /\ crawled c' = crawled c /\
  (forall k, k <> counter -> stats c' !! k = stats c !! k).
Proof.
  intros Hstep. cbv zeta. revert c. induction l as [|x l IH]; intros c.
  - cbn [fold_left]. change (omap f []) with (@nil string).
    cbn [length]. repeat split; try reflexivity; [set_solver|lia].
  - cbn [fold_left]. rewrite Hstep.
    change (omap f (x :: l))
      with (match f x with Some k => k :: omap f l | None => omap f l end).
    destruct (f x) as [key|]; [|apply IH].
    destruct (IH (stats_add counter 1 (set_pending (fun p => {[key]} ∪ p) c)))
      as (Hp & Hs & Hn & Hc & Ho).
    rewrite Hp, Hs, Hn, Hc. cbn [pending nodes crawled stats_add set_pending length].
    repeat split.
    + rewrite list_to_set_cons. set_solver.
    + rewrite stat_stats_add, decide_True by reflexivity.
      unfold stat. cbn [stats set_pending]. lia.
    + intros k Hk. rewrite Ho by exact Hk. cbn [stats stats_add set_pending].
      rewrite lookup_insert_ne by congruence. reflexivity.
Qed.

(** ** [_seed_from_rpc] *)

Lemma test_connection_true http : test_connection http = true.
Proof. reflexivity. Qed.

(** X21. _seed_from_rpc does not depend on the answer to getconnectioncount:
    test_connection is true even when that call fails. When get_all_peers
    raises, the crawler is unchanged; otherwise the peers it returns are
    pairwise distinct, the keys of those whose ip _is_valid_ip accepts are
    added to pending, peers_from_rpc grows by their number, and nodes and
    crawled are left alone. *)
Theorem X21_seed_from_rpc_effect :
  forall (node_env : option string) (answers : rpc_answers) (c : Crawler),
    let c' := _seed_from_rpc node_env (Some answers) c in
    (forall connectioncount : result json,
       _seed_from_rpc node_env
         (Some (mk_rpc_answers connectioncount (ans_peerinfo answers)
                  (ans_addednodeinfo answers))) c = c') /\
    match get_all_peers (ans_peerinfo answers) (ans_addednodeinfo answers) with
    | Raise _ => c' = c
    | Ok rpc_peers =>
        let keys := omap (rpc_peer_key node_env) rpc_peers in
        NoDup rpc_peers /\
        pending c' = list_to_set keys ∪ pending c /\
        stat "peers_from_rpc" c' = stat "peers_from_rpc" c + Z.of_nat (length keys) /\
        nodes c' = nodes c /\ crawled c' = crawled c
    end.
Proof.
  intros node_env answers c. cbv zeta. split; [reflexivity|]. unfold _seed_from_rpc.
  rewrite test_connection_true. cbn [negb].
  destruct (get_all_peers (ans_peerinfo answers) (ans_addednodeinfo answers))
    as [rpc_peers|e] eqn:E; [|reflexivity].
  split.
  - unfold get_all_peers in E.
    destruct (peers_loop _ _) as [peers|]; [|discriminate].
    cbn in E. injection E as <-. apply NoDup_remove_dups.
  - destruct (counting_fold_effect (seed_rpc_peer node_env) (rpc_peer_key node_env)
                "peers_from_rpc" rpc_peers c) as (Hp & Hs & Hn & Hc & _).
    { intros c0 x. unfold seed_rpc_peer, rpc_peer_key.
      destruct (_is_valid_ip node_env (fst x)); reflexivity. }
    repeat split; assumption.
Qed.

Lemma peers_loop_raises peer_info peers peer e :
  peer ∈ peer_info ->
  entry_endpoint "addr" peer = Raise e ->
  exists e', peers_loop peer_info peers = Raise e'.
Proof.
  intros Hin Hr. revert peers.
  induction peer_info as [|p0 rest IH]; intros peers; [inversion Hin|].
  cbn [peers_loop].
  apply elem_of_cons in Hin as [<-|Hin].
  - rewrite Hr. eauto.
  - destruct (entry_endpoint "addr" p0) as [[p|]|e0]; [apply IH, Hin|apply IH, Hin|eauto].
Qed.

(** X22. One entry of the getpeerinfo reply whose addr starts with a
    bracket, contains a colon and has no bracket followed by a colon (an
    IPv6 address without port, for instance) makes get_all_peers raise, the
    unpacking of rsplit being outside its try: _seed_from_rpc then adds no
    peer at all, whatever the other entries are. *)
Theorem X22_one_bad_peer_address_stops_rpc_seeding :
  forall (node_env : option string) (answers : rpc_answers) (c : Crawler)
         (peer : json) (members : list (string * json)) (addr : string),
    peer ∈ getpeerinfo (ans_peerinfo answers) ->
    peer = JDict members ->
    dict_get "addr" members = Some (JStr addr) ->
    Py.startswith "[" addr = true ->
    Py.contains ":" addr = true ->
    PyMore.rsplit1 "]:" addr = None ->
    _seed_from_rpc node_env (Some answers) c = c.
Proof.
  intros node_env answers c peer members addr Hin -> Hg Hb Hc Hn.
  unfold _seed_from_rpc. rewrite test_connection_true. cbn [negb].
  unfold get_all_peers.
  destruct (peers_loop_raises (getpeerinfo (ans_peerinfo answers)) [] (JDict members)
              ValueError Hin) as [e' ->]; [|reflexivity].
  unfold entry_endpoint. rewrite Hg.
  change (default (JStr EmptyString) (Some (JStr addr))) with (JStr addr).
  cbv iota. rewrite Hc. unfold split_endpoint. rewrite Hb, Hn. reflexivity.
Qed.

(** ** [_resolve_dns_seeds] and [_seed_from_dns] *)

Lemma _resolve_dns_seeds_app node_env l1 l2 :
  _resolve_dns_seeds node_env (l1 ++ l2)
  = (_resolve_dns_seeds node_env l1 ++ _resolve_dns_seeds node_env l2)%list.
Proof. apply flat_map_app. Qed.

(** X23. _resolve_dns_seeds returns exactly the addresses that some
    successful lookup returned and that _is_valid_ip accepts, a failed
    lookup giving nothing and stopping nothing; _seed_from_dns adds their
    keys, under the p2p port of the chain, to pending and their number,
    repetitions included, to peers_from_dns; nodes and crawled are left
    alone. *)
Theorem X23_seed_from_dns_effect :
  forall (node_env : option string) (p2p_port : Z)
         (lookups : list (result (list string))) (c : Crawler),
    let seed_ips := _resolve_dns_seeds node_env lookups in
    let c' := _seed_from_dns node_env p2p_port lookups c in
    (forall ip, ip ∈ seed_ips <->
       _is_valid_ip node_env ip = true /\ exists addrs, Ok addrs ∈ lookups /\ ip ∈ addrs) /\
    pending c' = list_to_set ((fun ip => _node_key ip p2p_port) <$> seed_ips) ∪ pending c /\
    stat "peers_from_dns" c' = stat "peers_from_dns" c + Z.of_nat (length seed_ips) /\
    nodes c' = nodes c /\ crawled c' = crawled c.
Proof.
  intros node_env p2p_port lookups c. cbv zeta. split.
  - intros ip. unfold _resolve_dns_seeds. rewrite list_elem_of_In, in_flat_map. split.
    + intros (lookup & Hl & Hip). destruct lookup as [addrs|e]; [|destruct Hip].
      apply filter_In in Hip as [Hip Hv]. split; [exact Hv|].
      exists addrs. split; apply list_elem_of_In; assumption.
    + intros (Hv & addrs & Hl & Hip). exists (Ok addrs).
      split; [apply list_elem_of_In, Hl|]. apply filter_In.
      split; [apply list_elem_of_In, Hip|exact Hv].
  - destruct (counting_fold_effect
                (fun c ip => stats_add "peers_from_dns" 1
                               (set_pending (fun p => {[_node_key ip p2p_port]} ∪ p) c))
                (fun ip => Some (_node_key ip p2p_port))
                "peers_from_dns" (_resolve_dns_seeds node_env lookups) c)
      as (Hp & Hs & Hn & Hc & _); [reflexivity|].
    unfold _seed_from_dns.
    assert (Ho : forall l : list string,
              omap (fun ip => Some (_node_key ip p2p_port)) l
              = (fun ip => _node_key ip p2p_port) <$> l).
    { induction l as [|x l IH]; [reflexivity|].
      change (_node_key x p2p_port :: omap (fun ip => Some (_node_key ip p2p_port)) l
              = _node_key x p2p_port :: ((fun ip => _node_key ip p2p_port) <$> l)).
      rewrite IH. reflexivity. }
    rewrite Ho in Hp, Hs. rewrite length_fmap in Hs.
    repeat split; assumption.
Qed.

(** ** [_seed_from_config] *)

Lemma find_app_char c s t :
  Py.mem_char c s = false ->
  PyMore.find c (s +:+ String c t) = Some (String.length s).
Proof.
  induction s as [|d s IH]; rewrite ?string_app_cons, ?string_app_nil;
    cbn [PyMore.find Py.mem_char String.length].
  - intros _. rewrite Ascii.eqb_refl. reflexivity.
  - intros [Hd Hs]%orb_false_elim. rewrite Ascii.eqb_sym, Hd, (IH Hs). reflexivity.
Qed.

Lemma find_none c s : Py.mem_char c s = false -> PyMore.find c s = None.
Proof.
  induction s as [|d s IH]; cbn [PyMore.find Py.mem_char]; [reflexivity|].
  intros [Hd Hs]%orb_false_elim. rewrite Ascii.eqb_sym, Hd, (IH Hs). reflexivity.
Qed.

Lemma take_app_length s t : PyMore.take (String.length s) (s +:+ t) = s.
Proof.
  induction s as [|d s IH]; rewrite ?string_app_cons, ?string_app_nil;
    cbn [PyMore.take String.length]; [destruct t; reflexivity|].
  rewrite IH. reflexivity.
Qed.

Lemma drop_app_length s t : PyMore.drop (String.length s) (s +:+ t) = t.
Proof.
  induction s as [|d s IH]; rewrite ?string_app_cons, ?string_app_nil;
    cbn [PyMore.drop String.length]; [reflexivity|exact IH].
Qed.

Lemma drop_S_cons n c s : PyMore.drop (S n) (String c s) = PyMore.drop n s.
Proof. reflexivity. Qed.

Lemma drop_app_length_S s c t : PyMore.drop (S (String.length s)) (s +:+ String c t) = t.
Proof.
  induction s as [|d s IH]; rewrite ?string_app_cons, ?string_app_nil;
    cbn [PyMore.drop String.length]; [reflexivity|exact IH].
Qed.

Lemma count_app c s t :
  PyMore.count c (s +:+ t) = (PyMore.count c s + PyMore.count c t)%nat.
Proof.
  induction s as [|d s IH]; rewrite ?string_app_cons, ?string_app_nil;
    cbn [PyMore.count]; [reflexivity|].
  rewrite IH. lia.
Qed.

Lemma count_none c s : Py.mem_char c s = false -> PyMore.count c s = 0%nat.
Proof.
  induction s as [|d s IH]; cbn [PyMore.count Py.mem_char]; [reflexivity|].
  intros [Hd Hs]%orb_false_elim. rewrite Ascii.eqb_sym, Hd, (IH Hs). reflexivity.
Qed.

Lemma count_positive c s : Py.mem_char c s = true -> (0 < PyMore.count c s)%nat.
Proof.
  induction s as [|d s IH]; cbn [PyMore.count Py.mem_char]; [discriminate|].
  rewrite Ascii.eqb_sym. destruct (Ascii.eqb d c); [lia|]. cbn. exact IH.
Qed.

Lemma parse_seed_bracketed p2p_port ip rest :
  Py.mem_char "]" ip = false ->
  parse_seed_node p2p_port ("[" +:+ ip +:+ "]" +:+ rest)
  = if Py.startswith ":" rest then
      match Py.int (PyMore.drop 1 rest) with
      | Some port => Ok (Some (ip, port))
      | None => Raise ValueError
      end
    else Ok (Some (ip, p2p_port)).
Proof.
  intros Hip. unfold parse_seed_node.
  rewrite !string_app_cons, !string_app_nil.
  cbn [Py.startswith]. rewrite Ascii.eqb_refl. cbn [andb].
  cbn [PyMore.find]. change (Ascii.eqb "[" "]") with false. cbv iota.
  rewrite (find_app_char "]" ip rest Hip). cbn [fmap option_fmap option_map].
  replace (S (String.length ip) - 1)%nat with (String.length ip) by lia.
  replace (S (String.length ip) + 1)%nat with (S (S (String.length ip))) by lia.
  rewrite !drop_S_cons. change (PyMore.drop 0 (ip +:+ String "]" rest))
    with (ip +:+ String "]" rest).
  rewrite take_app_length, drop_app_length_S. reflexivity.
Qed.

(** X24. How _seed_from_config reads an entry of seed_nodes (ports between 0
    and 65535): [ip]:port gives (ip, port); [ip] followed by text that does
    not start with a colon gives ip with the p2p port; an entry that starts
    with a bracket and never closes it is skipped; ip:port with no colon in
    ip gives (ip, port); ip:text with text that is not an integer raises
    ValueError, which skips the entry; an entry that does not start with a
    bracket and does not have exactly one colon is taken whole as the ip,
    with the p2p port. *)
Theorem X24_seed_node_formats :
  forall (p2p_port port : Z) (ip rest : string),
    0 <= port < 65536 ->
    (Py.mem_char "]" ip = false ->
     parse_seed_node p2p_port ("[" +:+ ip +:+ "]:" +:+ Py.str port) = Ok (Some (ip, port))) /\
    (Py.mem_char "]" ip = false -> Py.startswith ":" rest = false ->
     parse_seed_node p2p_port ("[" +:+ ip +:+ "]" +:+ rest) = Ok (Some (ip, p2p_port))) /\
    (Py.startswith "[" ip = true -> Py.mem_char "]" ip = false ->
     parse_seed_node p2p_port ip = Ok None) /\
    (Py.startswith "[" ip = false -> Py.mem_char ":" ip = false ->
     parse_seed_node p2p_port (ip +:+ ":" +:+ Py.str port) = Ok (Some (ip, port))) /\
    (Py.startswith "[" ip = false -> Py.mem_char ":" ip = false -> Py.int rest = None ->
     Py.mem_char ":" rest = false ->
     parse_seed_node p2p_port (ip +:+ ":" +:+ rest) = Raise ValueError) /\
    (Py.startswith "[" ip = false -> PyMore.count ":" ip <> 1%nat ->
     parse_seed_node p2p_port ip = Ok (Some (ip, p2p_port))).
Proof.
  intros p2p_port port ip rest _.
  assert (Hplain : forall tail, Py.startswith "[" ip = false -> Py.mem_char ":" ip = false ->
            Py.mem_char ":" tail = false ->
            parse_seed_node p2p_port (ip +:+ ":" +:+ tail)
            = match Py.int tail with
              | Some port => Ok (Some (ip, port))
              | None => Raise ValueError
              end).
  { intros tail Hb Hc Ht. unfold parse_seed_node.
    assert (Hs : Py.startswith "[" (ip +:+ ":" +:+ tail) = false).
    { destruct ip as [|c ip]; [reflexivity|]. rewrite string_app_cons.
      cbn [Py.startswith] in *. destruct (Ascii.eqb "[" c); [discriminate|reflexivity]. }
    rewrite Hs. rewrite string_app_cons, string_app_nil.
    rewrite contains_colon_app, count_app. cbn [PyMore.count].
    rewrite Ascii.eqb_refl, (count_none ":" ip Hc), (count_none ":" tail Ht).
    cbn [Nat.add Nat.eqb andb]. rewrite rsplit1_app by exact Ht. reflexivity. }
  split; [|split; [|split; [|split; [|split]]]].
  - intros Hip.
    change ("[" +:+ ip +:+ "]:" +:+ Py.str port)
      with ("[" +:+ ip +:+ "]" +:+ String ":" (Py.str port)).
    rewrite parse_seed_bracketed by exact Hip.
    cbn [Py.startswith PyMore.drop]. rewrite Ascii.eqb_refl. cbn [andb].
    rewrite int_str. reflexivity.
  - intros Hip Hrest. rewrite parse_seed_bracketed by exact Hip. rewrite Hrest. reflexivity.
  - intros Hb Hn. unfold parse_seed_node. rewrite Hb, (find_none "]" ip Hn). reflexivity.
  - intros Hb Hc. rewrite Hplain by (assumption || apply str_no_colon).
    rewrite int_str. reflexivity.
  - intros Hb Hc Hi Ht. rewrite Hplain by assumption. rewrite Hi. reflexivity.
  - intros Hb Hc. unfold parse_seed_node. rewrite Hb.
    destruct (Nat.eqb_spec (PyMore.count ":" ip) 1) as [E|_]; [contradiction|].
    rewrite andb_false_r. destruct (Py.contains ":" ip); reflexivity.
Qed.

Lemma seed_config_node_effect node_env p2p_port c node_addr :
  seed_config_node node_env p2p_port c node_addr =
  match config_seed_key node_env p2p_port node_addr with
  | Some key =>
      if negb (bool_decide (key ∈ crawled c)) && negb (bool_decide (key ∈ pending c))
      then stats_add "peers_from_config" 1 (set_pending (fun p => {[key]} ∪ p) c)
      else c
  | None => c
  end.
Proof.
  unfold seed_config_node, config_seed_key.
  destruct (parse_seed_node p2p_port node_addr) as [[[ip port]|]|e]; try reflexivity.
  destruct (_is_valid_ip node_env ip); reflexivity.
Qed.

Lemma seed_config_fold_effect node_env p2p_port l c :
  let c' := fold_left (seed_config_node node_env p2p_port) l c in
  let keys : gset string := list_to_set (omap (config_seed_key node_env p2p_port) l) in
  pending c' = (keys ∖ crawled c) ∪ pending c /\
  stat "peers_from_config" c' - stat "peers_from_config" c
    = Z.of_nat (size (pending c')) - Z.of_nat (size (pending c)) /\
  nodes c' = nodes c /\ crawled c' = crawled c.
Proof.
  cbv zeta. revert c. induction l as [|x l IH]; intros c.
  - cbn [fold_left]. change (omap (config_seed_key node_env p2p_port) []) with (@nil string).
    repeat split; try reflexivity; [set_solver|lia].
  - cbn [fold_left]. rewrite seed_config_node_effect.
    change (omap (config_seed_key node_env p2p_port) (x :: l))
      with (match config_seed_key node_env p2p_port x with
            | Some k => k :: omap (config_seed_key node_env p2p_port) l
            | None => omap (config_seed_key node_env p2p_port) l
            end).
    destruct (config_seed_key node_env p2p_port x) as [key|]; [|apply IH].
    rewrite list_to_set_cons.
    destruct (bool_decide (key ∈ crawled c)) eqn:Hcr;
      [apply bool_decide_eq_true in Hcr|apply bool_decide_eq_false in Hcr]; cbn [negb andb].
    { destruct (IH c) as (Hp & Hs & Hn & Hc). rewrite Hp at 1.
      repeat split; try assumption. set_solver. }
    destruct (bool_decide (key ∈ pending c)) eqn:Hpe;
      [apply bool_decide_eq_true in Hpe|apply bool_decide_eq_false in Hpe]; cbn [negb].
    { destruct (IH c) as (Hp & Hs & Hn & Hc). rewrite Hp at 1.
      repeat split; try assumption. set_solver. }
    destruct (IH (stats_add "peers_from_config" 1 (set_pending (fun p => {[key]} ∪ p) c)))
      as (Hp & Hs & Hn & Hc).
    cbn [pending crawled nodes stats_add set_pending] in Hp, Hs, Hn, Hc.
    rewrite Hn, Hc. repeat split.
    + rewrite Hp. set_solver.
    + rewrite stat_stats_add, decide_True in Hs by reflexivity.
      assert (Hsize : size ({[key]} ∪ pending c) = S (size (pending c))).
      { rewrite size_union by set_solver. rewrite size_singleton. reflexivity. }
      rewrite Hsize in Hs. unfold stat in *. cbn [stats set_pending] in Hs. lia.
Qed.

(** X25. _seed_from_config adds to pending exactly the keys of the entries
    that parse to a target whose ip _is_valid_ip accepts and that are not in
    crawled; peers_from_config grows by the number of keys that were new to
    pending (by as much as pending grows), not by the number of entries;
    nodes and crawled are left alone, and without seed_nodes nothing
    changes. *)
Theorem X25_seed_from_config_effect :
  forall (node_env : option string) (p2p_port : Z) (seed_nodes : list string) (c : Crawler),
    let c' := _seed_from_config node_env p2p_port (Some seed_nodes) c in
    let keys : gset string :=
      list_to_set (omap (config_seed_key node_env p2p_port) seed_nodes) in
    pending c' = (keys ∖ crawled c) ∪ pending c /\
    stat "peers_from_config" c' - stat "peers_from_config" c
      = Z.of_nat (size (pending c')) - Z.of_nat (size (pending c)) /\
    nodes c' = nodes c /\ crawled c' = crawled c /\
    _seed_from_config node_env p2p_port None c = c.
Proof.
  intros node_env p2p_port seed_nodes c. cbv zeta.
  destruct (seed_config_fold_effect node_env p2p_port seed_nodes c) as (Hp & Hs & Hn & Hc).
  repeat split; assumption.
Qed.

(** ** The seeding of a pass *)

Lemma _mark_rpc_node_as_up_frame test now rpc c :
  let c' := _mark_rpc_node_as_up test now rpc c in
  pending c' ⊆ pending c /\ stats c' = stats c /\
  ((nodes c' = nodes c /\ crawled c' = crawled c) \/
   exists key n, nodes c' = <[key := n]> (nodes c) /\ crawled c' = {[key]} ∪ crawled c /\
                 NodeInfo.status n = "up").
Proof.
  cbv zeta. unfold _mark_rpc_node_as_up.
  assert (Hsame : pending c ⊆ pending c /\ stats c = stats c /\
            ((nodes c = nodes c /\ crawled c = crawled c) \/
             exists key n, nodes c = <[key := n]> (nodes c) /\
               crawled c = {[key]} ∪ crawled c /\ NodeInfo.status n = "up"))
    by (split; [reflexivity|]; split; [reflexivity|]; left; split; reflexivity).
  destruct rpc as [answer|]; [|exact Hsame].
  destruct (get_local_node_info answer) as [info|]; [|exact Hsame].
  destruct (local_addresses info) as [|a l]; [exact Hsame|].
  destruct (select_local_address test (a :: l)) as [[ip port]|]; [|exact Hsame].
  match goal with |- context [fold_left ?f ?l0 ?c0] =>
    destruct (discard_fold_nodes l0 c0) as (Hn & Hc & Hs & Hp) end.
  rewrite Hn, Hc, Hs, Hp. cbn [nodes crawled stats pending set_nodes set_pending set_crawled].
  split; [set_solver|]. split; [reflexivity|]. right.
  eexists _, _. split; [reflexivity|]. split; reflexivity.
Qed.

Lemma is_node_key_node_key ip port : is_node_key (_node_key ip port).
Proof. exists ip, port. reflexivity. Qed.

Lemma db_row_keys_are_node_keys p2p_port (rows : list db_node) k :
  k ∈ omap (db_row_key p2p_port) rows -> is_node_key k.
Proof.
  intros (node & _ & Hk)%list_elem_of_omap. unfold db_row_key in Hk.
  destruct (db_ip node) as [ip|]; [|discriminate].
  destruct (String.eqb ip EmptyString); [discriminate|].
  injection Hk as <-. apply is_node_key_node_key.
Qed.

Lemma rpc_peer_keys_are_node_keys node_env (peers : list (string * Z)) k :
  k ∈ omap (rpc_peer_key node_env) peers -> is_node_key k.
Proof.
  intros (peer & _ & Hk)%list_elem_of_omap. unfold rpc_peer_key in Hk.
  destruct (_is_valid_ip node_env (fst peer)); [|discriminate].
  injection Hk as <-. apply is_node_key_node_key.
Qed.

Lemma config_seed_keys_are_node_keys node_env p2p_port (l : list string) k :
  k ∈ omap (config_seed_key node_env p2p_port) l -> is_node_key k.
Proof.
  intros (x & _ & Hk)%list_elem_of_omap. unfold config_seed_key in Hk.
  destruct (parse_seed_node p2p_port x) as [[[ip port]|]|e]; try discriminate.
  destruct (_is_valid_ip node_env ip); [|discriminate].
  injection Hk as <-. apply is_node_key_node_key.
Qed.

Lemma _seed_from_database_frame fromisoformat now p2p_port db_nodes c :
  seeder_frame "peers_from_db" c (_seed_from_database fromisoformat now p2p_port db_nodes c).
Proof.
  destruct db_nodes as [rows|e]; [|repeat split; auto].
  destruct (seed_fold_effect fromisoformat now p2p_port rows c) as (Hp & _ & Hn & Hc & Ho).
  cbn [_seed_from_database]. split; [|auto].
  intros k. rewrite Hp. intros [Hk|Hk]%elem_of_union; [|auto].
  right. apply elem_of_list_to_set in Hk. eapply db_row_keys_are_node_keys, Hk.
Qed.

Lemma _seed_from_rpc_frame node_env rpc c :
  seeder_frame "peers_from_rpc" c (_seed_from_rpc node_env rpc c).
Proof.
  unfold _seed_from_rpc. destruct rpc as [answers|]; [|repeat split; auto].
  destruct (negb _); [repeat split; auto|].
  destruct (get_all_peers _ _) as [rpc_peers|e]; [|repeat split; auto].
  destruct (counting_fold_effect (seed_rpc_peer node_env) (rpc_peer_key node_env)
              "peers_from_rpc" rpc_peers c) as (Hp & _ & Hn & Hc & Ho).
  { intros c0 x. unfold seed_rpc_peer, rpc_peer_key.
    destruct (_is_valid_ip node_env (fst x)); reflexivity. }
  split; [|auto].
  intros k. rewrite Hp. intros [Hk|Hk]%elem_of_union; [|auto].
  right. apply elem_of_list_to_set in Hk. eapply rpc_peer_keys_are_node_keys, Hk.
Qed.

Lemma _seed_from_dns_frame node_env p2p_port lookups c :
  seeder_frame "peers_from_dns" c (_seed_from_dns node_env p2p_port lookups c).
Proof.
  unfold _seed_from_dns.
  destruct (counting_fold_effect
              (fun c ip => stats_add "peers_from_dns" 1
                             (set_pending (fun p => {[_node_key ip p2p_port]} ∪ p) c))
              (fun ip => Some (_node_key ip p2p_port))
              "peers_from_dns" (_resolve_dns_seeds node_env lookups) c)
    as (Hp & _ & Hn & Hc & Ho); [reflexivity|].
  split; [|auto].
  intros k. rewrite Hp. intros [Hk|Hk]%elem_of_union; [|auto].
  right. apply elem_of_list_to_set in Hk.
  apply list_elem_of_omap in Hk as (ip & _ & [= <-]). apply is_node_key_node_key.
Qed.

Lemma seed_config_node_stats node_env p2p_port c node_addr k :
  k <> "peers_from_config" ->
  stats (seed_config_node node_env p2p_port c node_addr) !! k = stats c !! k.
Proof.
  intros Hk. rewrite seed_config_node_effect.
  destruct (config_seed_key _ _ _); [|reflexivity].
  destruct (_ && _); [|reflexivity].
  cbn [stats stats_add set_pending]. apply lookup_insert_ne. congruence.
Qed.

Lemma _seed_from_config_frame node_env p2p_port seed_nodes c :
  seeder_frame "peers_from_config" c (_seed_from_config node_env p2p_port seed_nodes c).
Proof.
  destruct seed_nodes as [l|]; [|repeat split; auto].
  cbn [_seed_from_config].
  destruct (seed_config_fold_effect node_env p2p_port l c) as (Hp & _ & Hn & Hc).
  split; [|split; [exact Hn|split; [exact Hc|]]].
  - intros k. rewrite Hp. intros [Hk|Hk]%elem_of_union; [|auto].
    right. apply elem_of_difference in Hk as [Hk _].
    apply elem_of_list_to_set in Hk. eapply config_seed_keys_are_node_keys, Hk.
  - intros k Hk. clear Hp Hn Hc. revert c.
    induction l as [|x l IH]; intros c; [reflexivity|].
    cbn [fold_left]. rewrite IH. apply seed_config_node_stats, Hk.
Qed.

(** X26. After the reset and the five seeders of run_single_pass, whatever
    the store, the RPC node, the DNS and the configuration give: every
    pending key was written by _node_key; nodes has at most one entry (the
    local RPC node), of status up, and its keys are exactly crawled; without
    an RPC client nodes and crawled are empty; peers_from_p2p is 0; and
    connections_attempted, connections_successful, connections_failed and
    nodes_discovered keep the values of the earlier passes, the reset
    leaving them out. *)
Theorem X26_seeding_of_a_pass :
  forall (config : CrawlerConfig) (node_env : option string) (w : surroundings) (c : Crawler),
    let s := seed_pass config node_env w c in
    seeded s /\
    (sur_rpc w = None -> nodes s = ∅ /\ crawled s = ∅) /\
    stat "peers_from_p2p" s = 0 /\
    (forall k, k ∈ ["connections_attempted"; "connections_successful";
                    "connections_failed"; "nodes_discovered"] ->
               stats s !! k = stats c !! k).
Proof.
  intros config node_env w c. cbv zeta. unfold seed_pass.
  set (p2p := p2p_port (chain_config config)).
  set (c0 := reset_pass c).
  pose proof (_seed_from_database_frame (sur_fromisoformat w) (sur_now w) p2p
                (sur_db_nodes w) c0) as (Hp1 & Hn1 & Hc1 & Hs1).
  set (c1 := _seed_from_database _ _ _ _ c0) in *.
  pose proof (_seed_from_rpc_frame node_env (fst <$> sur_rpc w) c1) as (Hp2 & Hn2 & Hc2 & Hs2).
  set (c2 := _seed_from_rpc _ _ c1) in *.
  pose proof (_mark_rpc_node_as_up_frame (sur_reachable w) (sur_now w) (snd <$> sur_rpc w) c2)
    as (Hp3 & Hs3 & Hn3).
  cbv zeta in Hp3, Hs3, Hn3.
  assert (Hnone : sur_rpc w = None ->
            _mark_rpc_node_as_up (sur_reachable w) (sur_now w) (snd <$> sur_rpc w) c2 = c2)
    by (intros ->; reflexivity).
  set (c3 := _mark_rpc_node_as_up _ _ _ c2) in *.
  pose proof (_seed_from_dns_frame node_env p2p (sur_lookups w) c3) as (Hp4 & Hn4 & Hc4 & Hs4).
  set (c4 := _seed_from_dns _ _ _ c3) in *.
  pose proof (_seed_from_config_frame node_env p2p (sur_seed_nodes w) c4)
    as (Hp5 & Hn5 & Hc5 & Hs5).
  set (c5 := _seed_from_config _ _ _ c4) in *.
  assert (Hn0 : nodes c2 = ∅) by (rewrite Hn2, Hn1; reflexivity).
  assert (Hc0 : crawled c2 = ∅) by (rewrite Hc2, Hc1; reflexivity).
  rewrite Hn0, Hc0 in Hn3.
  split; [|split; [|split]].
  - unfold seeded. rewrite Hn5, Hn4, Hc5, Hc4. split; [|].
    + intros k Hk.
      destruct (Hp5 k Hk) as [Hk4|]; [|assumption].
      destruct (Hp4 k Hk4) as [Hk3|]; [|assumption].
      apply Hp3 in Hk3.
      destruct (Hp2 k Hk3) as [Hk1|]; [|assumption].
      destruct (Hp1 k Hk1) as [Hk0|]; [|assumption].
      unfold c0, reset_pass in Hk0. cbn [pending] in Hk0. set_solver.
    + destruct Hn3 as [[-> ->]|(key & n & -> & -> & Hst)].
      * split; [apply dom_empty_L|]. split; [rewrite map_size_empty; lia|].
        intros k n Hk. rewrite lookup_empty in Hk. discriminate.
      * split; [rewrite dom_insert_L, dom_empty_L; reflexivity|].
        split; [rewrite map_size_insert_None, map_size_empty by apply lookup_empty; lia|].
        intros k n0 [[_ <-]|[_ Hk]]%lookup_insert_Some; [exact Hst|].
        rewrite lookup_empty in Hk. discriminate.
  - intros Hrpc. rewrite Hn5, Hn4, Hc5, Hc4, (Hnone Hrpc). auto.
  - unfold stat. rewrite Hs5, Hs4, Hs3, Hs2, Hs1 by discriminate.
    unfold c0, reset_pass. cbn [stats].
    rewrite lookup_insert_ne by discriminate. rewrite lookup_insert_eq. reflexivity.
  - intros k Hk. rewrite Hs5, Hs4, Hs3, Hs2, Hs1.
    + unfold c0, reset_pass. cbn [stats].
      rewrite !lookup_insert_ne; [reflexivity|..];
        intros <-; repeat (apply elem_of_cons in Hk as [Hk|Hk]; [discriminate Hk|]);
        inversion Hk.
    + intros ->. repeat (apply elem_of_cons in Hk as [Hk|Hk]; [discriminate Hk|]). inversion Hk.
    + intros ->. repeat (apply elem_of_cons in Hk as [Hk|Hk]; [discriminate Hk|]). inversion Hk.
    + intros ->. repeat (apply elem_of_cons in Hk as [Hk|Hk]; [discriminate Hk|]). inversion Hk.
    + intros ->. repeat (apply elem_of_cons in Hk as [Hk|Hk]; [discriminate Hk|]). inversion Hk.
Qed.

(** ** The ledger of a finished pass *)

Lemma dom_nodes_step `{Protocol} config node_env ps ps' :
  pass_step config node_env ps ps' ->
  dom (nodes (crawler ps)) = crawled (crawler ps) ->
  dom (nodes (crawler ps')) = crawled (crawler ps').
Proof.
  intros Hstep Hdom.
  destruct Hstep as [ps order targets Hdone Hne Hperm Hmap
                    |ps i t c1 go Hi Hph Hbegin
                    |ps i t Hi Hph Hperm
                    |ps i t net now node_info st Hi Hph Hrun];
    cbn [crawler].
  - exact Hdom.
  - unfold crawl_begin in Hbegin. injection Hbegin as <- _. exact Hdom.
  - exact Hdom.
  - rewrite crawl_record_crawled, crawl_record_nodes, dom_insert_L.
    cbn [crawled nodes stats_add]. rewrite Hdom. reflexivity.
Qed.

Lemma handshakes_ledger_step `{Protocol} config node_env c ps ps' :
  pass_step config node_env ps ps' -> keys_invariant ps ->
  handshakes_ledger c ps -> handshakes_ledger c ps'.
Proof.
  intros Hstep (_ & _ & _ & Hact & _) (Hd & Hsub & Hmono & Hfresh).
  destruct Hstep as [ps order targets Hdone Hne Hperm Hmap
                    |ps i t c1 go Hi Hph Hbegin
                    |ps i t Hi Hph Hperm
                    |ps i t net now node_info st Hi Hph Hrun];
    unfold handshakes_ledger; cbn [crawler tasks handshakes].
  - repeat split; try assumption.
    intros j t Hj Hp. apply list_lookup_fmap_Some in Hj as (x & -> & _). discriminate Hp.
  - unfold crawl_begin in Hbegin. injection Hbegin as <- _.
    cbn [crawled set_pending]. repeat split; try assumption.
    intros j t' Hj Hp.
    apply set_phase_lookup in Hj as [(-> & t0 & _ & ->)|(_ & Hj)].
    + cbn in Hp. destruct go; discriminate Hp.
    + eapply Hd; eassumption.
  - cbn [crawled crawl_acquired stats_add]. repeat split.
    + intros j t' Hj Hp.
      apply set_phase_lookup in Hj as [(-> & t0 & Hi0 & ->)|(_ & Hj)].
      * rewrite Hi in Hi0. injection Hi0 as <-. left.
      * right. eapply Hd; eassumption.
    + rewrite list_to_set_cons. set_solver.
    + exact Hmono.
    + intros k Hk [->|Hin]%elem_of_cons; [|exact (Hfresh k Hk Hin)].
      exact (Hact i t Hi (or_introl Hph) (Hmono _ Hk)).
  - rewrite crawl_record_crawled. cbn [crawled stats_add]. repeat split.
    + intros j t' Hj Hp.
      apply set_phase_lookup in Hj as [(-> & t0 & _ & ->)|(_ & Hj)]; [discriminate Hp|].
      eapply Hd; eassumption.
    + pose proof (Hd i t Hi Hph) as Hin. unfold task_key in Hin.
      intros k [->%elem_of_singleton|Hk]%elem_of_union.
      * apply elem_of_union. right. apply elem_of_list_to_set, Hin.
      * apply Hsub, Hk.
    + set_solver.
    + exact Hfresh.
Qed.

Lemma settled_step `{Protocol} config node_env ps ps' :
  pass_step config node_env ps ps' ->
  (forall k n, nodes (crawler ps) !! k = Some n -> settled n) ->
  forall k n, nodes (crawler ps') !! k = Some n -> settled n.
Proof.
  intros Hstep IHs.
  destruct Hstep as [ps order targets Hdone Hne Hperm Hmap
                    |ps i t c1 go Hi Hph Hbegin
                    |ps i t Hi Hph Hperm
                    |ps i t net now node_info st Hi Hph Hrun];
    cbn [crawler].
  - exact IHs.
  - unfold crawl_begin in Hbegin. injection Hbegin as <- _. exact IHs.
  - exact IHs.
  - apply crawl_record_settled; [|exact IHs].
    intros n ->. eapply _connect_and_handshake_status. rewrite Hrun. reflexivity.
Qed.

(** X27. When a crawl that started from a seeded crawler has ended: every
    key that was pending at the start is in crawled; the keys of nodes are
    exactly crawled; every entry has status up, reachable or down; and
    _connect_and_handshake was called once for each key that the crawl added
    to crawled, and for no other key. *)
Theorem X27_ledger_of_a_finished_pass `{Protocol} :
  forall (config : CrawlerConfig) (node_env : option string) (c : Crawler) (ps : pass),
    seeded c ->
    rtc (pass_step config node_env) (pass_start config c) ps ->
    pass_over ps ->
    pending c ⊆ crawled (crawler ps) /\
    dom (nodes (crawler ps)) = crawled (crawler ps) /\
    (forall k n, nodes (crawler ps) !! k = Some n -> settled n) /\
    NoDup (handshakes ps) /\
    list_to_set (handshakes ps) = crawled (crawler ps) ∖ crawled c.
Proof.
  intros config node_env c ps (Hkeys & Hdom & _ & Hup) Hrtc Hover.
  assert (Hinv : keys_invariant ps /\ handshakes_ledger c ps /\
                 dom (nodes (crawler ps)) = crawled (crawler ps) /\
                 (forall k n, nodes (crawler ps) !! k = Some n -> settled n)).
  { clear Hover. revert ps Hrtc.
    apply (rtc_ind_r (fun ps => keys_invariant ps /\ handshakes_ledger c ps /\
             dom (nodes (crawler ps)) = crawled (crawler ps) /\
             (forall k n, nodes (crawler ps) !! k = Some n -> settled n))).
    - split; [apply keys_invariant_start, Hkeys|].
      split; [|split; [exact Hdom|]].
      + unfold handshakes_ledger. cbn [pass_start tasks handshakes crawler].
        split; [intros i t Hi; rewrite lookup_nil in Hi; discriminate|].
        split; [set_solver|]. split; [reflexivity|].
        intros k _ Hin. inversion Hin.
      + intros k n Hk. left. eapply Hup, Hk.
    - intros ps1 ps2 _ Hstep (Hk & Hl & Hd & Hs).
      split; [eapply keys_invariant_step; eassumption|].
      split; [eapply handshakes_ledger_step; eassumption|].
      split; [eapply dom_nodes_step; eassumption|].
      eapply settled_step; eassumption. }
  destruct Hinv as ((Hnd & _ & Hlog & _ & _) & (_ & Hsub & Hmono & Hfresh) & Hd & Hs).
  destruct Hover as [Hempty Hdone].
  assert (Hnot : forall j t, tasks ps !! j = Some t -> task_phase t = Done).
  { intros j t Hj. rewrite Forall_forall in Hdone.
    apply Hdone. eapply list_elem_of_lookup_2, Hj. }
  split; [|split; [exact Hd|split; [exact Hs|split; [exact Hnd|]]]].
  - intros k Hk.
    destruct (accounted_rtc config node_env k (pass_start config c) ps Hrtc (or_introl Hk))
      as [Hp|[Hc|(j & t & Hj & _ & Hw)]].
    + rewrite Hempty in Hp. set_solver.
    + exact Hc.
    + specialize (Hnot j t Hj). destruct Hw; congruence.
  - apply set_eq. intros k. rewrite elem_of_list_to_set, elem_of_difference. split.
    + intros Hin. split.
      * destruct (Hlog k Hin) as [Hc|(j & t & Hj & _ & Hp)]; [exact Hc|].
        specialize (Hnot j t Hj). congruence.
      * intros Hc. exact (Hfresh k Hc Hin).
    + intros [Hin Hnotin]. apply Hsub in Hin.
      apply elem_of_union in Hin as [Hin|Hin]; [contradiction|].
      apply elem_of_list_to_set in Hin. exact Hin.
Qed.

(** ** [_parse_version] *)

Lemma version_part_dotted l i :
  l <> [] ->
  version_part (Py.split "." (dotted l)) i = Ok (default 0 (Z.of_N <$> l !! i)).
Proof.
  intros Hl. unfold version_part. rewrite split_dotted by exact Hl.
  rewrite list_lookup_fmap. destruct (l !! i) as [n|]; [|reflexivity].
  cbn. fold (decimal n). unfold decimal. rewrite int_decimal. reflexivity.
Qed.

(** X28. _parse_version: when the pattern does not match, client_name is
    Unknown, client_version is the whole user agent and the three numbers
    are 0; when it matches with two groups or more and the second is a
    dotted decimal version (components below 10^9), client_name is the first
    group and major, minor and patch are the first three components, 0 for a
    missing one; with a single group client_name is the name of the chain;
    when one of the first three dot-separated parts of the version group is
    not an integer, the function raises. *)
Theorem X28_parse_version :
  forall (re_search : string -> option (list (option string)))
         (chain_name user_agent : string),
    (re_search user_agent = None ->
     _parse_version re_search chain_name user_agent
     = Ok (mk_version_info (Some "Unknown") user_agent 0 0 0)) /\
    (forall (g0 : option string) (l : list N) (more : list (option string)),
       l <> [] -> Forall (fun n => (n < 1000000000)%N) l ->
       re_search user_agent = Some (g0 :: Some (dotted l) :: more) ->
       _parse_version re_search chain_name user_agent
       = Ok (mk_version_info g0 (dotted l)
               (default 0 (Z.of_N <$> l !! 0%nat)) (default 0 (Z.of_N <$> l !! 1%nat))
               (default 0 (Z.of_N <$> l !! 2%nat)))) /\
    (forall l : list N,
       l <> [] -> Forall (fun n => (n < 1000000000)%N) l ->
       re_search user_agent = Some [Some (dotted l)] ->
       _parse_version re_search chain_name user_agent
       = Ok (mk_version_info (Some chain_name) (dotted l)
               (default 0 (Z.of_N <$> l !! 0%nat)) (default 0 (Z.of_N <$> l !! 1%nat))
               (default 0 (Z.of_N <$> l !! 2%nat)))) /\
    (forall (g0 : option string) (version part : string) (more : list (option string))
            (i : nat),
       re_search user_agent = Some (g0 :: Some version :: more) ->
       (i < 3)%nat -> Py.split "." version !! i = Some part -> Py.int part = None ->
       exists e, _parse_version re_search chain_name user_agent = Raise e) /\
    (forall (version part : string) (i : nat),
       re_search user_agent = Some [Some version] ->
       (i < 3)%nat -> Py.split "." version !! i = Some part -> Py.int part = None ->
       exists e, _parse_version re_search chain_name user_agent = Raise e).
Proof.
  intros re_search chain_name user_agent.
  split; [|split; [|split; [|split]]].
  - intros E. unfold _parse_version. rewrite E. reflexivity.
  - intros g0 l more Hl _ E. unfold _parse_version. rewrite E.
    cbn [length Nat.leb mbind result_bind fst snd].
    rewrite !version_part_dotted by exact Hl. reflexivity.
  - intros l Hl _ E. unfold _parse_version. rewrite E.
    cbn [length Nat.leb mbind result_bind fst snd].
    rewrite !version_part_dotted by exact Hl. reflexivity.
  - intros g0 version part more i E Hi Hp Hint. unfold _parse_version. rewrite E.
    cbn [length Nat.leb mbind result_bind fst snd].
    assert (Hraise : version_part (Py.split "." version) i = Raise ValueError)
      by (unfold version_part; rewrite Hp, Hint; reflexivity).
    destruct i as [|[|[|i]]]; [| | |lia].
    + rewrite Hraise. eauto.
    + rewrite Hraise. destruct (version_part _ 0); eauto.
    + rewrite Hraise. destruct (version_part _ 0); [|eauto].
      destruct (version_part _ 1); eauto.
  - intros version part i E Hi Hp Hint. unfold _parse_version. rewrite E.
    cbn [length Nat.leb mbind result_bind fst snd].
    assert (Hraise : version_part (Py.split "." version) i = Raise ValueError)
      by (unfold version_part; rewrite Hp, Hint; reflexivity).
    destruct i as [|[|[|i]]]; [| | |lia].
    + rewrite Hraise. eauto.
    + rewrite Hraise. destruct (version_part _ 0); eauto.
    + rewrite Hraise. destruct (version_part _ 0); [|eauto].
      destruct (version_part _ 1); eauto.
Qed.

(** ** The flush *)

Lemma build_row_copies config w node row :
  build_row config w node = Ok row ->
  nd_ip row = NodeInfo.ip node /\ nd_port row = NodeInfo.port node /\
  nd_chain row = fl_chain w /\
  nd_status row = NodeInfo.status node /\
  nd_version row = NodeInfo.user_agent node /\
  nd_protocol_version row = NodeInfo.protocol_version node /\
  nd_services row = NodeInfo.services node /\
  nd_start_height row = NodeInfo.start_height node /\
  nd_latency_ms row = NodeInfo.latency_ms node /\
  nd_times_seen row = NodeInfo.times_seen node /\
  _versions_match (nd_client_version row)
    (_get_current_version (fl_dynamic_current_version w) (chain_config config))
  = Some (nd_is_current_version row) /\
  exists geo, fl_geoip_lookup w (NodeInfo.ip node) = Ok geo /\
              nd_geo row = (fun k => (k, dict_get k geo)) <$> geo_keys.
Proof.
  unfold build_row. destruct (fl_geoip_lookup w (NodeInfo.ip node)) as [geo|e]; [|discriminate].
  cbn [mbind result_bind].
  destruct (_parse_version _ _ _) as [vi|e]; [|discriminate].
  cbn [mbind result_bind].
  destruct (_versions_match _ _) as [b|] eqn:Hm; [|discriminate].
  cbn [mbind result_bind]. intros [= <-]. cbn.
  repeat split; try reflexivity; eauto.
Qed.

Lemma written_save_node config w node row :
  written (save_node config w node) = Some row ->
  build_row config w node = Ok row /\
  (require_version_for_save config = true -> lacks_version node = false) /\
  exists node_id, fl_upsert_node w row = Ok node_id.
Proof.
  unfold save_node.
  destruct (require_version_for_save config && lacks_version node) eqn:Hskip;
    [discriminate|].
  destruct (build_row config w node) as [row0|e]; [|discriminate].
  cbn [mbind result_bind].
  destruct (fl_upsert_node w row0) as [node_id|e] eqn:Hup; [|discriminate].
  cbn [mbind result_bind].
  assert (E : written (if truthy node_id
                       then Snapshotted row0
                              {| sn_node_id := node_id;
                                 sn_is_online := String.eqb (NodeInfo.status node) "up";
                                 sn_response_time_ms :=
                                   if String.eqb (NodeInfo.status node) "up"
                                   then NodeInfo.latency_ms node else None;
                                 sn_block_height :=
                                   if String.eqb (NodeInfo.status node) "up"
                                   then NodeInfo.start_height node else None |}
                       else Upserted row0) = Some row0)
    by (destruct (truthy node_id); reflexivity).
  cbv zeta. rewrite E. intros [= <-].
  split; [reflexivity|]. split; [|eauto].
  intros Hreq. rewrite Hreq in Hskip. exact Hskip.
Qed.

Lemma lacks_version_false node :
  lacks_version node = false ->
  exists ua pv, NodeInfo.user_agent node = Some ua /\ ua <> EmptyString /\
                NodeInfo.protocol_version node = Some pv /\ pv <> 0.
Proof.
  unfold lacks_version. intros [Hua Hpv]%orb_false_elim.
  destruct (NodeInfo.user_agent node) as [ua|]; [|discriminate].
  destruct (NodeInfo.protocol_version node) as [pv|]; [|discriminate].
  exists ua, pv. split; [reflexivity|]. split; [|split; [reflexivity|]].
  - intros ->. discriminate Hua.
  - intros ->. discriminate Hpv.
Qed.

(** X29. What _save_to_database does with a node. A row it writes copies ip,
    port, status, user agent (as version), protocol_version and latency of
    the node, and its is_current_version is the answer of _versions_match on
    the parsed client_version and the current version; under
    require_version_for_save the row has a non-empty user agent and a
    non-zero protocol version. When the user agent matches the pattern with
    two groups or more, the second a dotted version, and the current version
    is dotted (components below 10^9), the row carries the name and the
    first three numbers, and is_current_version holds exactly when the first
    four zero-padded components agree. A snapshot is asked for with the id
    that upsert_node returned, is_online exactly when the status is up, and
    latency and block height only when online. When the GeoIP lookup raises,
    no row is written for the node. *)
Theorem X29_what_the_flush_writes :
  forall (config : CrawlerConfig) (w : flush_surroundings) (node : NodeInfo),
    (forall row, written (save_node config w node) = Some row ->
       nd_ip row = NodeInfo.ip node /\ nd_port row = NodeInfo.port node /\
       nd_status row = NodeInfo.status node /\
       nd_version row = NodeInfo.user_agent node /\
       nd_protocol_version row = NodeInfo.protocol_version node /\
       nd_latency_ms row = NodeInfo.latency_ms node /\
       _versions_match (nd_client_version row)
         (_get_current_version (fl_dynamic_current_version w) (chain_config config))
       = Some (nd_is_current_version row) /\
       (require_version_for_save config = true ->
        exists ua pv, nd_version row = Some ua /\ ua <> EmptyString /\
                      nd_protocol_version row = Some pv /\ pv <> 0)) /\
    (forall (g0 : option string) (ua : string) (l l' : list N) (more : list (option string))
            (row : node_data),
       l <> [] -> l' <> [] ->
       Forall (fun n => (n < 1000000000)%N) l -> Forall (fun n => (n < 1000000000)%N) l' ->
       NodeInfo.user_agent node = Some ua ->
       fl_re_search w ua = Some (g0 :: Some (dotted l) :: more) ->
       _get_current_version (fl_dynamic_current_version w) (chain_config config) = dotted l' ->
       written (save_node config w node) = Some row ->
       nd_client_name row = g0 /\ nd_client_version row = dotted l /\
       nd_version_major row = default 0 (Z.of_N <$> l !! 0%nat) /\
       nd_version_minor row = default 0 (Z.of_N <$> l !! 1%nat) /\
       nd_version_patch row = default 0 (Z.of_N <$> l !! 2%nat) /\
       nd_is_current_version row
       = bool_decide (take 4 (l ++ [0; 0; 0; 0]%N) = take 4 (l' ++ [0; 0; 0; 0]%N))) /\
    (forall row snapshot, save_node config w node = Snapshotted row snapshot ->
       fl_upsert_node w row = Ok (sn_node_id snapshot) /\
       sn_is_online snapshot = bool_decide (NodeInfo.status node = "up") /\
       sn_response_time_ms snapshot
       = (if sn_is_online snapshot then NodeInfo.latency_ms node else None) /\
       sn_block_height snapshot
       = (if sn_is_online snapshot then NodeInfo.start_height node else None)) /\
    (forall e, fl_geoip_lookup w (NodeInfo.ip node) = Raise e ->
       written (save_node config w node) = None).
Proof.
  intros config w node. split; [|split; [|split]].
  - intros row Hw. apply written_save_node in Hw as (Hrow & Hreq & _).
    destruct (build_row_copies _ _ _ _ Hrow)
      as (Hip & Hport & _ & Hst & Hv & Hpv & _ & _ & Hlat & _ & Hcur & _).
    repeat (split; [assumption|]).
    intros Hr. rewrite Hv, Hpv. apply lacks_version_false, Hreq, Hr.
  - intros g0 ua l l' more row Hl Hl' _ _ Hua Hre Hcur Hw.
    apply written_save_node in Hw as (Hrow & _ & _).
    unfold build_row in Hrow.
    destruct (fl_geoip_lookup w (NodeInfo.ip node)) as [geo|e]; [|discriminate].
    cbn [mbind result_bind] in Hrow. rewrite Hua in Hrow.
    change (default EmptyString (Some ua)) with ua in Hrow.
    unfold _parse_version in Hrow. rewrite Hre in Hrow.
    cbn [length Nat.leb mbind result_bind fst snd] in Hrow.
    rewrite !version_part_dotted in Hrow by exact Hl.
    cbn [mbind result_bind client_version client_name version_major version_minor
         version_patch] in Hrow.
    rewrite Hcur in Hrow. unfold _versions_match in Hrow.
    rewrite !_normalize_version_dotted in Hrow by assumption.
    cbn [mbind option_bind result_bind] in Hrow.
    injection Hrow as <-. cbn.
    repeat (split; [reflexivity|]).
    apply bool_decide_ext.
    change [0; 0; 0; 0] with (Z.of_N <$> [0; 0; 0; 0]%N).
    rewrite <- !fmap_app, <- !fmap_take.
    split; [|intros ->; reflexivity].
    intros E. apply (inj (fmap Z.of_N)) in E. exact E.
  - intros row snapshot. unfold save_node.
    destruct (require_version_for_save config && lacks_version node); [discriminate|].
    destruct (build_row config w node) as [row0|e]; [|discriminate].
    cbn [mbind result_bind].
    destruct (fl_upsert_node w row0) as [node_id|e] eqn:Hup; [|discriminate].
    cbn [mbind result_bind]. cbv zeta.
    destruct (truthy node_id); [|discriminate].
    intros [= <- <-]. cbn. split; [exact Hup|].
    split; [|split; reflexivity].
    destruct (String.eqb_spec (NodeInfo.status node) "up") as [E|E].
    + rewrite bool_decide_eq_true_2; auto.
    + rewrite bool_decide_eq_false_2; auto.
  - intros e He. unfold save_node.
    destruct (require_version_for_save config && lacks_version node); [reflexivity|].
    unfold build_row. rewrite He. reflexivity.
Qed.

(** ** The pass and the flush together *)

Lemma _connect_and_handshake_version_data `{Protocol} config net ip port n :
  fst (_connect_and_handshake (dial_peers config net) config ip port) = Some n ->
  NodeInfo.status n <> "up" -> NodeInfo.user_agent n = None.
Proof.
  pose proof (_connect_and_handshake_last (dial_peers config net) config ip port) as Hlast.
  pose proof (last_returned_of_dialer
                (fun r => forall n, r = Some n -> NodeInfo.status n <> "up" ->
                                    NodeInfo.user_agent n = None)
                (dial_peers config net) config ip port) as Hall.
  destruct (_connect_and_handshake (dial_peers config net) config ip port) as [r st].
  cbn [fst snd] in *. intros -> Hst.
  assert (Hr : last_returned (dial_log st) = Some n).
  { destruct (has_status "up" (last_returned (dial_log st))); [symmetry; exact Hlast|].
    unfold reachable_or_none in Hlast.
    destruct (has_status "reachable" (last_returned (dial_log st)));
      [symmetry; exact Hlast|discriminate]. }
  apply Hall with (n := n); try assumption.
  - intros m ip' port' pv timeout n' Hn' Hup'. unfold dial_peers in Hn'.
    pose proof (dial_conduct_holds config ip' port' pv timeout (net m)) as Hc.
    unfold dial_conduct in Hc. cbv zeta in Hc.
    destruct (_try_connect_with_protocol config ip' port' pv timeout (net m)) as [r' [s|]];
      cbn [fst] in Hn'.
    + destruct Hc as (_ & d & rest & _ & _ & _ & Hc). rewrite Hn' in Hc.
      destruct Hc as (_ & _ & _ & [(_ & Hu & _)|(Hs & _)]); [|contradiction].
      apply Hu.
    + destruct Hc as [Hc _]. congruence.
  - discriminate.
Qed.

Lemma only_up_has_user_agent_step `{Protocol} config node_env ps ps' :
  pass_step config node_env ps ps' ->
  keys_invariant ps ->
  dom (nodes (crawler ps)) = crawled (crawler ps) ->
  only_up_has_user_agent (crawler ps) -> only_up_has_user_agent (crawler ps').
Proof.
  intros Hstep (_ & _ & _ & Hact & _) Hdom Hinv.
  destruct Hstep as [ps order targets Hdone Hne Hperm Hmap
                    |ps i t c go Hi Hph Hbegin
                    |ps i t Hi Hph Hperm
                    |ps i t net now node_info st Hi Hph Hrun];
    cbn [crawler].
  - exact Hinv.
  - unfold crawl_begin in Hbegin. injection Hbegin as <- _. exact Hinv.
  - exact Hinv.
  - assert (Hfresh : nodes (crawler ps) !! task_key t = None).
    { apply not_elem_of_dom. rewrite Hdom.
      exact (Hact i t Hi (or_intror Hph)). }
    unfold only_up_has_user_agent.
    rewrite crawl_record_nodes_fresh by exact Hfresh.
    cbn [nodes stats_add]. intros k n Hk Hst.
    apply lookup_insert_Some in Hk as [[_ <-]|[_ Hk]].
    + destruct node_info as [n0|]; [|reflexivity].
      eapply _connect_and_handshake_version_data; [|exact Hst].
      rewrite Hrun. reflexivity.
    + eapply Hinv; eassumption.
Qed.

Lemma lacks_version_no_user_agent node :
  NodeInfo.user_agent node = None -> lacks_version node = true.
Proof. unfold lacks_version. intros ->. reflexivity. Qed.

(** X30. In a crawl that started from a seeded crawler with
    require_version_for_save set, at every point the flush visits exactly
    the crawled keys, skips every node whose status is not up (nodes that
    are down or only reachable never reach the store), and every row it
    writes has status up, a non-empty user agent and a non-zero protocol
    version. *)
Theorem X30_strict_flush_writes_only_handshaken_nodes `{Protocol} :
  forall (config : CrawlerConfig) (node_env : option string) (w : flush_surroundings)
         (c : Crawler) (ps : pass),
    seeded c ->
    require_version_for_save config = true ->
    rtc (pass_step config node_env) (pass_start config c) ps ->
    dom (_save_to_database config w (crawler ps)) = crawled (crawler ps) /\
    forall k o, _save_to_database config w (crawler ps) !! k = Some o ->
      exists n, nodes (crawler ps) !! k = Some n /\
        (NodeInfo.status n <> "up" -> o = Skipped) /\
        (forall row, written o = Some row ->
           nd_ip row = NodeInfo.ip n /\ nd_port row = NodeInfo.port n /\
           nd_status row = "up" /\
           exists ua pv, nd_version row = Some ua /\ ua <> EmptyString /\
                         nd_protocol_version row = Some pv /\ pv <> 0).
Proof.
  intros config node_env w c ps (Hkeys & Hdom & _ & Hup) Hreq Hrtc.
  assert (Hinv : keys_invariant ps /\
                 dom (nodes (crawler ps)) = crawled (crawler ps) /\
                 only_up_has_user_agent (crawler ps)).
  { revert ps Hrtc.
    apply (rtc_ind_r (fun ps => keys_invariant ps /\
             dom (nodes (crawler ps)) = crawled (crawler ps) /\
             only_up_has_user_agent (crawler ps))).
    - split; [apply keys_invariant_start, Hkeys|]. split; [exact Hdom|].
      intros k n Hk Hst. exfalso. apply Hst. eapply Hup, Hk.
    - intros ps1 ps2 _ Hstep (Hk & Hd & Ho).
      split; [eapply keys_invariant_step; eassumption|].
      split; [eapply dom_nodes_step; eassumption|].
      eapply only_up_has_user_agent_step; eassumption. }
  destruct Hinv as (_ & Hd & Ho).
  unfold _save_to_database. split; [rewrite dom_fmap_L; exact Hd|].
  intros k o Hk. rewrite lookup_fmap in Hk.
  destruct (nodes (crawler ps) !! k) as [n|] eqn:Hn; [|discriminate].
  injection Hk as <-. exists n. split; [reflexivity|].
  assert (Hskip : NodeInfo.status n <> "up" -> save_node config w n = Skipped).
  { intros Hst. unfold save_node.
    rewrite Hreq, (lacks_version_no_user_agent n (Ho k n Hn Hst)). reflexivity. }
  split; [exact Hskip|].
  intros row Hw.
  destruct (decide (NodeInfo.status n = "up")) as [Hst|Hst].
  - apply written_save_node in Hw as (Hrow & Hl & _).
    destruct (build_row_copies _ _ _ _ Hrow)
      as (Hip & Hport & _ & Hs & Hv & Hpv & _).
    split; [exact Hip|]. split; [exact Hport|]. split; [congruence|].
    rewrite Hv, Hpv. apply lacks_version_false, Hl, Hreq.
  - rewrite (Hskip Hst) in Hw. discriminate Hw.
Qed.

(** ** The properties above on the example passes *)

Lemma refused_start_seeded : seeded refused_start.
Proof.
  split; [exact refused_start_keys|].
  unfold refused_start. cbn [nodes crawled].
  split; [apply dom_empty_L|]. split; [rewrite map_size_empty; lia|].
  intros k n Hk. rewrite lookup_empty in Hk. discriminate Hk.
Qed.

Lemma refused_end_over : pass_over refused_end.
Proof. split; [vm_compute; reflexivity|repeat constructor]. Qed.

Lemma strict_pass_runs `{Protocol} net :
  rtc (pass_step strict_config None) (pass_start strict_config refused_start)
      (strict_end net).
Proof.
  eapply rtc_l.
  { apply (step_batch strict_config None (pass_start strict_config refused_start)
             ["198.51.100.99:1"] [("198.51.100.99", 1)]).
    - constructor.
    - simpl. intros E. apply (f_equal (fun s => elements s)) in E.
      rewrite elements_singleton, elements_empty in E. discriminate.
    - simpl. rewrite elements_singleton. reflexivity.
    - reflexivity. }
  eapply rtc_l.
  { eapply (step_begin strict_config None _ 0%nat); [reflexivity|reflexivity|reflexivity]. }
  eapply rtc_l.
  { eapply (step_acquire strict_config None _ 0%nat); [vm_compute; reflexivity|reflexivity|].
    simpl. lia. }
  eapply rtc_l.
  { eapply (step_finish strict_config None _ 0%nat _ net 0%Q);
      [vm_compute; reflexivity|reflexivity|apply surjective_pairing]. }
  apply rtc_refl.
Qed.

Lemma readmitted_pass_runs `{Protocol} :
  rtc (pass_step refused_config None) (pass_start refused_config readmitted_start)
      readmitted_end.
Proof.
  eapply rtc_l.
  { apply (step_batch refused_config None (pass_start refused_config readmitted_start)
             ["198.51.100.99:1"] [("198.51.100.99", 1)]).
    - constructor.
    - simpl. intros E. apply (f_equal (fun s => elements s)) in E.
      rewrite elements_singleton, elements_empty in E. discriminate.
    - simpl. rewrite elements_singleton. reflexivity.
    - reflexivity. }
  eapply rtc_l.
  { eapply (step_begin refused_config None _ 0%nat _ _ false);
      [reflexivity|reflexivity|vm_compute; reflexivity]. }
  apply rtc_refl.
Qed.

Lemma readmitted_start_keys k : k ∈ pending readmitted_start -> is_node_key k.
Proof.
  unfold readmitted_start. cbn [pending]. intros Hk.
  apply elem_of_singleton in Hk. subst k.
  exists "198.51.100.99", 1. reflexivity.
Qed.

Lemma X10_connection_counters_witness :
  0 <= max_concurrent refused_config /\
  rtc (pass_step refused_config None) (pass_start refused_config refused_start) refused_end /\
  stat "connections_attempted" (crawler refused_end)
    = stat "connections_attempted" refused_start + Z.of_nat (length (handshakes refused_end)) /\
  stat "connections_attempted" (crawler refused_end) - stat "connections_attempted" refused_start
    = (stat "connections_successful" (crawler refused_end)
       - stat "connections_successful" refused_start)
      + (stat "connections_failed" (crawler refused_end)
         - stat "connections_failed" refused_start)
      + Z.of_nat (dialing (tasks refused_end)).
Proof.
  assert (Hmax : 0 <= max_concurrent refused_config) by (cbn; lia).
  split; [exact Hmax|]. split; [exact refused_pass_runs|].
  destruct (X10_connection_counters refused_config None refused_start refused_end
              Hmax refused_pass_runs) as (H1 & H2 & _).
  split; [exact H1|exact H2].
Defined.

Lemma X11_nodes_discovered_counts_new_entries_witness :
  rtc (pass_step refused_config None) (pass_start refused_config refused_start) refused_end /\
  stat "nodes_discovered" (crawler refused_end) - stat "nodes_discovered" refused_start
  = Z.of_nat (size (nodes (crawler refused_end))) - Z.of_nat (size (nodes refused_start)).
Proof.
  split; [exact refused_pass_runs|].
  exact (X11_nodes_discovered_counts_new_entries refused_config None refused_start
           refused_end refused_pass_runs).
Defined.

Lemma X12_crawled_keys_have_settled_entries_witness :
  let net := fun _ : nat => mute_peer 0 in
  crawled refused_start ⊆ dom (nodes refused_start) /\
  (forall k n, nodes refused_start !! k = Some n -> settled n) /\
  rtc (pass_step refused_config None) (pass_start refused_config refused_start)
      (solo_end net) /\
  crawled (crawler (solo_end net)) ⊆ dom (nodes (crawler (solo_end net))) /\
  (forall k n, nodes (crawler (solo_end net)) !! k = Some n -> settled n).
Proof.
  intros net.
  assert (Hsub : crawled refused_start ⊆ dom (nodes refused_start))
    by (unfold refused_start; cbn [crawled]; apply empty_subseteq).
  assert (Hall : forall k n, nodes refused_start !! k = Some n -> settled n).
  { intros k n Hk. unfold refused_start in Hk. cbn [nodes] in Hk.
    rewrite lookup_empty in Hk. discriminate Hk. }
  split; [exact Hsub|]. split; [exact Hall|]. split; [apply solo_pass_runs|].
  exact (X12_crawled_keys_have_settled_entries refused_config None refused_start
           (solo_end net) Hsub Hall (solo_pass_runs net)).
Defined.

Lemma X13_every_pending_key_gets_crawled_witness :
  "198.51.100.99:1" ∈ pending (crawler (pass_start refused_config refused_start)) /\
  rtc (pass_step refused_config None) (pass_start refused_config refused_start) refused_end /\
  pass_over refused_end /\
  "198.51.100.99:1" ∈ crawled (crawler refused_end).
Proof.
  assert (Hk : "198.51.100.99:1" ∈ pending (crawler (pass_start refused_config refused_start)))
    by (vm_compute; reflexivity).
  split; [exact Hk|]. split; [exact refused_pass_runs|]. split; [exact refused_end_over|].
  exact (X13_every_pending_key_gets_crawled refused_config None
           (pass_start refused_config refused_start) refused_end "198.51.100.99:1"
           Hk refused_pass_runs refused_end_over).
Defined.

Lemma X14_pass_never_gets_stuck_witness :
  0 <= max_concurrent refused_config /\
  (forall k, k ∈ pending refused_start -> is_node_key k) /\
  rtc (pass_step refused_config None) (pass_start refused_config refused_start) refused_end /\
  permits refused_end = max_concurrent refused_config - Z.of_nat (dialing (tasks refused_end)) /\
  (forall i t, tasks refused_end !! i = Some t -> task_phase t = Waiting ->
               0 < permits refused_end) /\
  (pass_over refused_end \/ exists ps', pass_step refused_config None refused_end ps').
Proof.
  assert (Hmax : 0 <= max_concurrent refused_config) by (cbn; lia).
  split; [exact Hmax|]. split; [exact refused_start_keys|].
  split; [exact refused_pass_runs|].
  exact (X14_pass_never_gets_stuck refused_config None refused_start refused_end
           Hmax refused_start_keys refused_pass_runs).
Defined.

Lemma X15_crawled_before_the_pass_is_left_alone_witness :
  (forall k, k ∈ pending readmitted_start -> is_node_key k) /\
  "198.51.100.99:1" ∈ crawled readmitted_start /\
  rtc (pass_step refused_config None) (pass_start refused_config readmitted_start)
      readmitted_end /\
  ("198.51.100.99:1" ∉ handshakes readmitted_end) /\
  dials_for "198.51.100.99:1" (dials readmitted_end) = [] /\
  nodes (crawler readmitted_end) !! "198.51.100.99:1"
  = nodes readmitted_start !! "198.51.100.99:1" /\
  "198.51.100.99:1" ∈ crawled (crawler readmitted_end).
Proof.
  assert (Hk : "198.51.100.99:1" ∈ crawled readmitted_start)
    by (vm_compute; reflexivity).
  split; [exact readmitted_start_keys|]. split; [exact Hk|].
  split; [exact readmitted_pass_runs|].
  exact (X15_crawled_before_the_pass_is_left_alone refused_config None readmitted_start
           readmitted_end "198.51.100.99:1" readmitted_start_keys Hk readmitted_pass_runs).
Defined.

Lemma X16_no_slot_no_progress_witness :
  let ps := mk_pass refused_start [] 0 [] [] in
  max_concurrent stalled_config = 0 /\
  rtc (pass_step stalled_config None) (pass_start stalled_config refused_start) ps /\
  ps = pass_start stalled_config refused_start.
Proof.
  intros ps.
  assert (Hrun : rtc (pass_step stalled_config None)
                     (pass_start stalled_config refused_start) ps).
  { apply rtc_once.
    apply (step_batch stalled_config None (pass_start stalled_config refused_start)
             ["198.51.100.99:1"] []).
    - constructor.
    - simpl. intros E. apply (f_equal (fun s => elements s)) in E.
      rewrite elements_singleton, elements_empty in E. discriminate.
    - simpl. rewrite elements_singleton. reflexivity.
    - reflexivity. }
  split; [reflexivity|]. split; [exact Hrun|].
  exact (X16_no_slot_no_progress stalled_config None refused_start ps eq_refl Hrun).
Defined.

Lemma X19_foreign_answer_is_reachable_witness :
  exists n,
    returned (fst (_try_connect_with_protocol refused_config "198.51.100.5" 33117 70015
                     10%Q (foreign_peer 0)))
      = Some n /\
    NodeInfo.status n = "reachable" /\ unversioned n /\
    NodeInfo.latency_ms n
    = Some (((start_clock (foreign_peer 0) + (1 # 20)) - start_clock (foreign_peer 0)) * 1000)%Q.
Proof.
  eapply (X19_foreign_answer_is_reachable refused_config "198.51.100.5" 33117 70015
            10%Q (foreign_peer 0) (1 # 20)%Q (1 # 10)%Q _ []);
    reflexivity.
Defined.

Lemma X20_rpc_peer_addresses_witness :
  0 <= 33117 < 65536 /\
  entry_endpoint "addr" (JDict [("addr", JStr "[2001:db8::1]:33117")])
  = Ok (Some ("2001:db8::1", 33117)) /\
  entry_endpoint "addr" (JDict [("addr", JStr "203.0.113.7:33117")])
  = Ok (Some ("203.0.113.7", 33117)).
Proof.
  assert (Hport : 0 <= 33117 < 65536) by lia.
  split; [exact Hport|]. split.
  - exact (proj1 (X20_rpc_peer_addresses "2001:db8::1" 33117
                    [("addr", JStr "[2001:db8::1]:33117")] Hport) eq_refl).
  - exact (proj1 (proj2 (X20_rpc_peer_addresses "203.0.113.7" 33117
                           [("addr", JStr "203.0.113.7:33117")] Hport)) eq_refl eq_refl).
Defined.

Lemma X22_one_bad_peer_address_stops_rpc_seeding_witness :
  JDict [("addr", JStr "[2001:db8::1]")] ∈ getpeerinfo (ans_peerinfo broken_peerinfo) /\
  Py.startswith "[" "[2001:db8::1]" = true /\
  Py.contains ":" "[2001:db8::1]" = true /\
  PyMore.rsplit1 "]:" "[2001:db8::1]" = None /\
  _seed_from_rpc None (Some broken_peerinfo) refused_start = refused_start.
Proof.
  assert (Hin : JDict [("addr", JStr "[2001:db8::1]")]
                ∈ getpeerinfo (ans_peerinfo broken_peerinfo)) by apply list_elem_of_here.
  split; [exact Hin|]. repeat (split; [reflexivity|]).
  exact (X22_one_bad_peer_address_stops_rpc_seeding None broken_peerinfo refused_start
           (JDict [("addr", JStr "[2001:db8::1]")]) [("addr", JStr "[2001:db8::1]")]
           "[2001:db8::1]" Hin eq_refl eq_refl eq_refl eq_refl eq_refl).
Defined.

Lemma X24_seed_node_formats_witness :
  0 <= 8333 < 65536 /\
  parse_seed_node 33117 "[2001:db8::1]:8333" = Ok (Some ("2001:db8::1", 8333)) /\
  parse_seed_node 33117 "[2001:db8::1]" = Ok (Some ("2001:db8::1", 33117)) /\
  parse_seed_node 33117 "203.0.113.7:8333" = Ok (Some ("203.0.113.7", 8333)) /\
  parse_seed_node 33117 "203.0.113.7:main" = Raise ValueError /\
  parse_seed_node 33117 "2001:db8::1" = Ok (Some ("2001:db8::1", 33117)).
Proof.
  assert (Hport : 0 <= 8333 < 65536) by lia.
  split; [exact Hport|].
  destruct (X24_seed_node_formats 33117 8333 "2001:db8::1" EmptyString Hport)
    as (H1 & H2 & _ & _ & _ & H6).
  destruct (X24_seed_node_formats 33117 8333 "203.0.113.7" "main" Hport)
    as (_ & _ & _ & H4 & H5 & _).
  split; [exact (H1 eq_refl)|]. split; [exact (H2 eq_refl eq_refl)|].
  split; [exact (H4 eq_refl eq_refl)|]. split; [exact (H5 eq_refl eq_refl eq_refl eq_refl)|].
  apply H6; [reflexivity|vm_compute; discriminate].
Defined.

Lemma X27_ledger_of_a_finished_pass_witness :
  seeded refused_start /\
  rtc (pass_step refused_config None) (pass_start refused_config refused_start) refused_end /\
  pass_over refused_end /\
  pending refused_start ⊆ crawled (crawler refused_end) /\
  dom (nodes (crawler refused_end)) = crawled (crawler refused_end) /\
  (forall k n, nodes (crawler refused_end) !! k = Some n -> settled n) /\
  NoDup (handshakes refused_end) /\
  list_to_set (handshakes refused_end) = crawled (crawler refused_end) ∖ crawled refused_start.
Proof.
  split; [exact refused_start_seeded|]. split; [exact refused_pass_runs|].
  split; [exact refused_end_over|].
  exact (X27_ledger_of_a_finished_pass refused_config None refused_start refused_end
           refused_start_seeded refused_pass_runs refused_end_over).
Defined.

Lemma X30_strict_flush_writes_only_handshaken_nodes_witness :
  let ps := strict_end (fun _ => mute_peer 0) in
  seeded refused_start /\
  require_version_for_save strict_config = true /\
  rtc (pass_step strict_config None) (pass_start strict_config refused_start) ps /\
  dom (_save_to_database strict_config plain_flush (crawler ps)) = crawled (crawler ps) /\
  _save_to_database strict_config plain_flush (crawler ps) !! "198.51.100.99:1" = Some Skipped.
Proof.
  intros ps.
  split; [exact refused_start_seeded|]. split; [reflexivity|].
  split; [apply strict_pass_runs|].
  destruct (X30_strict_flush_writes_only_handshaken_nodes strict_config None plain_flush
              refused_start ps refused_start_seeded eq_refl
              (strict_pass_runs (fun _ => mute_peer 0))) as [Hdom Hall].
  split; [exact Hdom|].
  destruct (_save_to_database strict_config plain_flush (crawler ps) !! "198.51.100.99:1")
    as [o|] eqn:E; [|vm_compute in E; discriminate E].
  destruct (Hall _ _ E) as (n & Hn & Hskip & _).
  rewrite Hskip; [reflexivity|].
  vm_compute in Hn. injection Hn as <-. discriminate.
Defined.
